(** * LibParserUtils: charset aliases, codec registry, input filter and
      input stream, embedded in Rocq.

    The C sources are translated function by function.  Conventions:

    - a C string or a (pointer, length) pair is the list of its [char]
      values, each an integer [Z] as the platform reads it (so the same
      definitions cover signed and unsigned plain [char]); the
      terminating NUL of a C string is implicit;
    - [uint16_t], [uint32_t] and [size_t] values are [Z] with the
      wrap-around written out;
    - a pointer that may be NULL on return is an [option]; pointer
      arguments are taken to be valid, so the NULL guards at function
      entry are left out, except where NULL is a meaningful argument
      ([enc] of the stream constructor, the codecs and [pivot_left] of a
      filter);
    - a call that may reach [abort()] or read outside its object returns
      an [outcome]. *)

From Stdlib Require Import String Ascii ZArith List Bool Lia.
Import ListNotations.
Open Scope Z_scope.

(** ** Error codes *)

(** Modelled from the spec: the declaration of [parserutils_error] is in
    parserutils/errors.h, which is not among the sources; these are the
    codes of section 6 of the specification that the sources use. *)

Inductive parserutils_error : Type :=
| PARSERUTILS_OK
| PARSERUTILS_NOMEM
| PARSERUTILS_BADPARM
| PARSERUTILS_INVALID
| PARSERUTILS_FILENOTFOUND
| PARSERUTILS_NEEDDATA.

Definition error_eqb (a b : parserutils_error) : bool :=
  match a, b with
  | PARSERUTILS_OK, PARSERUTILS_OK
  | PARSERUTILS_NOMEM, PARSERUTILS_NOMEM
  | PARSERUTILS_BADPARM, PARSERUTILS_BADPARM
  | PARSERUTILS_INVALID, PARSERUTILS_INVALID
  | PARSERUTILS_FILENOTFOUND, PARSERUTILS_FILENOTFOUND
  | PARSERUTILS_NEEDDATA, PARSERUTILS_NEEDDATA => true
  | _, _ => false
  end.

(** ** Machine integers *)

Definition uint16 (x : Z) : Z := x mod 65536.
Definition uint32 (x : Z) : Z := x mod 4294967296.

(** The [char] values of a string literal. *)
Definition chars (s : string) : list Z :=
  map (fun a => Z.of_N (N_of_ascii a)) (list_ascii_of_string s).

(** [strlen]/[strcpy] view of a buffer: the characters before the first NUL. *)
Fixpoint cstr (buf : list Z) : list Z :=
  match buf with
  | [] => []
  | c :: r => if c =? 0 then [] else c :: cstr r
  end.

(** ** Charset aliases *)

Module Aliases.

Definition HASH_SIZE : Z := 43.

Definition IS_PUNCT_OR_SPACE (x : Z) : bool :=
  ((0x09 <=? x) && (x <=? 0x0D)) ||
  ((0x20 <=? x) && (x <=? 0x2F)) ||
  ((0x3A <=? x) && (x <=? 0x40)) ||
  ((0x5B <=? x) && (x <=? 0x60)) ||
  ((0x7B <=? x) && (x <=? 0x7E)).

(** [tolower] of <ctype.h> in the "C" locale. *)
Definition tolower (c : Z) : Z :=
  if (65 <=? c) && (c <=? 90) then c + 32 else c.

(** [while (IS_PUNCT_OR_SPACE( *s1 )) s1++;] on what the object holds from
    [s1] on; the result is empty when the scan leaves the object. *)
Fixpoint skip_s1 (s1 : list Z) : list Z :=
  match s1 with
  | [] => []
  | c :: r => if IS_PUNCT_OR_SPACE c then skip_s1 r else s1
  end.

(** The [while (true)] loop of [aliascmp].  [s1] is what the object that
    [s1] points into holds from the pointer on: the rest of the string, its
    terminator, and the bytes of the object behind the terminator, over
    which the loop steps when [s2] holds a NUL where the string ends.
    [s2] is [s2 + s2_pos] with [s2_len - s2_pos] characters left.
    [None]: [*s1] is read outside the object. *)
Fixpoint aliascmp_loop (s1 s2 : list Z) {struct s2} : option Z :=
  match skip_s1 s1 with
  | [] => None
  | c1 :: r1 =>
      (fix skip_s2 (s2 : list Z) : option Z :=
         match s2 with
         | [] => Some (if c1 =? 0 then 0 else 1)
         | c2 :: r2 =>
             if IS_PUNCT_OR_SPACE c2 then skip_s2 r2
             else if tolower c1 =? tolower c2 then aliascmp_loop r1 r2
             else Some 1
         end) s2
  end.

(** [aliascmp(s1, s2, s2_len)], 0 if equal and 1 otherwise, with [s1]
    given as the content of its object from the pointer on. *)
Definition aliascmp_at (s1 s2 : list Z) : option Z :=
  match s2 with
  | [] => Some 1
  | _ => aliascmp_loop s1 s2
  end.

(** [aliascmp(s1, s2, s2_len)] for [s1] a string whose object ends with
    its terminator.  The name of a record of the tables is followed,
    inside the allocation of the record, by bytes that are never written;
    a comparison that steps over the terminator reads them, and has no
    answer here either ([None]). *)
Definition aliascmp (s1 s2 : list Z) : option Z :=
  aliascmp_at (s1 ++ [0]) s2.

(** One round of the [while (len--)] loop of the hash function. *)
Definition hash_step (h c : Z) : Z :=
  if IS_PUNCT_OR_SPACE c then h
  else Z.lxor (uint32 (h * 33)) (uint32 (Z.land c (Z.lnot 0x20))).

(** [parserutils_charset_hash_val(alias, len)] with [len] the length of
    [alias]. *)
Definition parserutils_charset_hash_val (alias : list Z) : Z :=
  (fold_left hash_step alias 5381) mod HASH_SIZE.

(** What the hash folds in for one kept character. *)
Definition fold_char (c : Z) : Z := uint32 (Z.land c (Z.lnot 0x20)).

(** The filtered, case-folded stream both functions look at. *)
Definition norm (s : list Z) : list Z :=
  map fold_char (filter (fun c => negb (IS_PUNCT_OR_SPACE c)) s).

(** [parserutils_charset_aliases_canon] and [struct alias].  The chain
    pointer [next] is the tail of the list the record sits in; [canon_addr]
    and [alias_addr] are the addresses the allocator returned, so that two
    records are the same object exactly when they are equal. *)
Record parserutils_charset_aliases_canon : Type := mk_canon {
  canon_addr : nat;
  mib_enum : Z;
  name_len : Z;
  name : list Z
}.

Record alias : Type := mk_alias {
  alias_addr : nat;
  canon : parserutils_charset_aliases_canon;
  alias_name_len : Z;
  alias_name : list Z
}.

(** The two static hash tables, with the number of allocation requests
    made so far (the next address to hand out). *)
Record alias_tables : Type := mk_tables {
  canon_tab : Z -> list parserutils_charset_aliases_canon;
  alias_tab : Z -> list alias;
  heap_next : nat
}.

Definition empty_tables : alias_tables :=
  mk_tables (fun _ => []) (fun _ => []) 0.

Definition set_bucket {A : Type} (tab : Z -> list A) (i : Z) (chain : list A)
  : Z -> list A :=
  fun j => if j =? i then chain else tab j.

Section Allocator.

(** The client's allocation function: whether the n-th request succeeds. *)
Variable alloc_ok : nat -> bool.

Definition alloc (t : alias_tables) : option nat * alias_tables :=
  (if alloc_ok (heap_next t) then Some (heap_next t) else None,
   mk_tables (canon_tab t) (alias_tab t) (S (heap_next t))).

(** [parserutils_charset_create_canon(canon, mibenum, alloc, pw)] *)
Definition parserutils_charset_create_canon (canon : list Z) (mibenum : Z)
    (t : alias_tables)
  : option parserutils_charset_aliases_canon * alias_tables :=
  let len := uint32 (Z.of_nat (length (cstr canon))) in
  match alloc t with
  | (None, t') => (None, t')
  | (Some addr, t') =>
      let c := mk_canon addr mibenum (uint16 len) (cstr canon) in
      let hash := parserutils_charset_hash_val (cstr canon) in
      (Some c,
       mk_tables (set_bucket (canon_tab t') hash (c :: canon_tab t' hash))
                 (alias_tab t') (heap_next t'))
  end.

(** [parserutils_charset_create_alias(alias, c, alloc, pw)] *)
Definition parserutils_charset_create_alias (alias_str : list Z)
    (c : parserutils_charset_aliases_canon) (t : alias_tables)
  : parserutils_error * alias_tables :=
  match alloc t with
  | (None, t') => (PARSERUTILS_NOMEM, t')
  | (Some addr, t') =>
      let a := mk_alias addr c
                 (uint16 (Z.of_nat (length (cstr alias_str))))
                 (cstr alias_str) in
      let hash := parserutils_charset_hash_val (cstr alias_str) in
      (PARSERUTILS_OK,
       mk_tables (canon_tab t')
                 (set_bucket (alias_tab t') hash (a :: alias_tab t' hash))
                 (heap_next t'))
  end.

(** A record of the Aliases file, already split into its fields:
    canonical name, [atoi] of the MIB enum field, aliases.  (The scanning
    of the text line with [isspace]/[iscntrl] is not part of the model.) *)
Record alias_line : Type := mk_line {
  l_canon : list Z;
  l_mib : Z;
  l_aliases : list (list Z)
}.

(** The inner [while (p < end)] loop: one alias after another, stopping at
    the first failure. *)
Fixpoint create_aliases (als : list (list Z))
    (cf : parserutils_charset_aliases_canon) (t : alias_tables)
  : alias_tables :=
  match als with
  | [] => t
  | a :: rest =>
      match parserutils_charset_create_alias a cf t with
      | (PARSERUTILS_OK, t') => create_aliases rest cf t'
      | (_, t') => t'
      end
  end.

(** [parserutils_charset_aliases_create]: the [while (fgets ...)] loop over
    the records of the file. *)
Fixpoint parserutils_charset_aliases_create (file : list alias_line)
    (t : alias_tables) : alias_tables :=
  match file with
  | [] => t
  | l :: rest =>
      match parserutils_charset_create_canon (l_canon l) (uint16 (l_mib l)) t
      with
      | (None, t') => parserutils_charset_aliases_create rest t'
      | (Some cf, t') =>
          parserutils_charset_aliases_create rest
            (create_aliases (l_aliases l) cf t')
      end
  end.

End Allocator.

(** The [for (c = canon_tab[hash]; c; c = c->next)] search.  The outer
    [None] is an undefined comparison. *)
Fixpoint search_canon (chain : list parserutils_charset_aliases_canon)
    (alias_str : list Z)
  : option (option parserutils_charset_aliases_canon) :=
  match chain with
  | [] => Some None
  | c :: next =>
      match aliascmp (name c) alias_str with
      | None => None
      | Some r => if r =? 0 then Some (Some c) else search_canon next alias_str
      end
  end.

(** The [for (a = alias_tab[hash]; a; a = a->next)] search. *)
Fixpoint search_alias (chain : list alias) (alias_str : list Z)
  : option (option alias) :=
  match chain with
  | [] => Some None
  | a :: next =>
      match aliascmp (alias_name a) alias_str with
      | None => None
      | Some r => if r =? 0 then Some (Some a) else search_alias next alias_str
      end
  end.

(** [parserutils_charset_alias_canonicalise(alias, len)] with [len] the
    length of [alias_str]; [Some None] is the NULL result. *)
Definition parserutils_charset_alias_canonicalise (t : alias_tables)
    (alias_str : list Z)
  : option (option parserutils_charset_aliases_canon) :=
  let hash := parserutils_charset_hash_val alias_str in
  match search_canon (canon_tab t hash) alias_str with
  | None => None
  | Some (Some c) => Some (Some c)
  | Some None =>
      match search_alias (alias_tab t hash) alias_str with
      | None => None
      | Some (Some a) => Some (Some (canon a))
      | Some None => Some None
      end
  end.

(** [parserutils_charset_mibenum_from_name(alias, len)] *)
Definition parserutils_charset_mibenum_from_name (t : alias_tables)
    (alias_str : list Z) : option Z :=
  match parserutils_charset_alias_canonicalise t alias_str with
  | None => None
  | Some None => Some 0
  | Some (Some c) => Some (mib_enum c)
  end.

(** The callers below pass [(enc, strlen(enc))]; the comparison is then
    always defined (lemma [canonicalise_cstr_defined]). *)
Definition canonicalise_cstr (t : alias_tables) (enc : list Z)
  : option parserutils_charset_aliases_canon :=
  match parserutils_charset_alias_canonicalise t (cstr enc) with
  | Some r => r
  | None => None
  end.

Definition mibenum_from_cstr (t : alias_tables) (enc : list Z) : Z :=
  match canonicalise_cstr t enc with
  | None => 0
  | Some c => mib_enum c
  end.

(** [parserutils_charset_mibenum_to_name(mibenum)]: first match over the
    buckets 0 .. HASH_SIZE-1, each in chain order. *)
Definition bucket_indices : list Z := map Z.of_nat (seq 0 43).

Definition parserutils_charset_mibenum_to_name (t : alias_tables)
    (mibenum : Z) : option (list Z) :=
  match find (fun c => mib_enum c =? mibenum)
             (flat_map (canon_tab t) bucket_indices) with
  | Some c => Some (name c)
  | None => None
  end.

(** [parserutils_charset_aliases_destroy(alloc, pw)]: every chain of the
    buckets 0 .. HASH_SIZE-1 is freed and its head set to NULL. *)
Definition parserutils_charset_aliases_destroy (t : alias_tables)
  : alias_tables :=
  mk_tables
    (fold_left (fun tab i => set_bucket tab i []) bucket_indices (canon_tab t))
    (fold_left (fun tab i => set_bucket tab i []) bucket_indices (alias_tab t))
    (heap_next t).

(** The function-local [static uint16_t] variables of
    [parserutils_charset_mibenum_is_unicode]; all zero at program start. *)
Record unicode_statics : Type := mk_unicode_statics {
  u_ucs4 : Z;
  u_ucs2 : Z;
  u_utf8 : Z;
  u_utf16 : Z;
  u_utf16be : Z;
  u_utf16le : Z;
  u_utf32 : Z;
  u_utf32be : Z;
  u_utf32le : Z
}.

Definition unicode_statics_init : unicode_statics :=
  mk_unicode_statics 0 0 0 0 0 0 0 0 0.

(** [parserutils_charset_mibenum_is_unicode(mibenum)], with the values of
    its static variables before and after. *)
Definition parserutils_charset_mibenum_is_unicode (t : alias_tables)
    (st : unicode_statics) (mibenum : Z) : unicode_statics * bool :=
  let st :=
    if u_ucs4 st =? 0 then
      mk_unicode_statics
        (mibenum_from_cstr t (chars "UCS-4"))
        (mibenum_from_cstr t (chars "UCS-2"))
        (mibenum_from_cstr t (chars "UTF-8"))
        (mibenum_from_cstr t (chars "UTF-16"))
        (mibenum_from_cstr t (chars "UTF-16BE"))
        (mibenum_from_cstr t (chars "UTF-16LE"))
        (mibenum_from_cstr t (chars "UTF-32"))
        (mibenum_from_cstr t (chars "UTF-32BE"))
        (mibenum_from_cstr t (chars "UTF-32LE"))
    else st in
  (st,
   (mibenum =? u_ucs4 st) || (mibenum =? u_ucs2 st) ||
   (mibenum =? u_utf8 st) || (mibenum =? u_utf16 st) ||
   (mibenum =? u_utf16be st) || (mibenum =? u_utf16le st) ||
   (mibenum =? u_utf32 st) || (mibenum =? u_utf32be st) ||
   (mibenum =? u_utf32le st)).

(** What [aliascmp] compares: the characters that are not skipped, in
    lower case. *)
Definition lnorm (s : list Z) : list Z :=
  map tolower (filter (fun c => negb (IS_PUNCT_OR_SPACE c)) s).

(** A record is registered: it sits in one of the chains. *)
Definition canon_registered (t : alias_tables)
    (c : parserutils_charset_aliases_canon) : Prop :=
  exists i, In c (canon_tab t i).

Definition alias_registered (t : alias_tables) (a : alias) : Prop :=
  exists i, In a (alias_tab t i).

(** Every record sits in the bucket of its own name, and names hold no
    NUL (they were copied with [strcpy]). *)
Definition tables_ok (t : alias_tables) : Prop :=
  (forall i c, In c (canon_tab t i) ->
     parserutils_charset_hash_val (name c) = i /\
     Forall (fun x => x <> 0) (name c)) /\
  (forall i a, In a (alias_tab t i) ->
     parserutils_charset_hash_val (alias_name a) = i /\
     Forall (fun x => x <> 0) (alias_name a)).

End Aliases.

(** ** Outcome of a C call that may not return normally *)

Inductive outcome (A : Type) : Type :=
| Ret (a : A)        (* the call returns *)
| Abort              (* the call reaches [abort()] *)
| Undefined          (* the call reads or writes outside an object *)
| OutOfFuel.         (* the loop bound of the model was reached *)

Arguments Ret {A} a.
Arguments Abort {A}.
Arguments Undefined {A}.
Arguments OutOfFuel {A}.

Definition bind {A B : Type} (m : outcome A) (k : A -> outcome B)
  : outcome B :=
  match m with
  | Ret a => k a
  | Abort => Abort
  | Undefined => Undefined
  | OutOfFuel => OutOfFuel
  end.

Notation "x <- m ;; k" := (bind m (fun x => k))
  (at level 61, m at next level, right associativity).

(** ** Charset codecs (charset/codec.c, codec_impl.h) *)

Module Codec.

(** Modelled from the spec: the declarations of the error modes, of
    [struct parserutils_charset_codec] and of [parserutils_charset_handler]
    are in parserutils/charset/codec.h and charset/codecs/codec_impl.h,
    which are not among the sources.  The records below have the fields
    the sources read and write ([mibenum], [errormode], [handler.encode],
    [handler.decode], [handler.reset], [handles_charset], [create]), as
    section 3 of the specification lists them. *)
Inductive parserutils_charset_codec_errormode : Type :=
| PARSERUTILS_CHARSET_CODEC_ERROR_STRICT
| PARSERUTILS_CHARSET_CODEC_ERROR_LOOSE
| PARSERUTILS_CHARSET_CODEC_ERROR_TRANSLIT.

Section WithImpl.

(** The state a codec implementation keeps behind the base class. *)
Context {impl : Type}.

(** What an [encode]/[decode] call leaves behind: the returned code, the
    implementation state, what remains at [*source] ([*sourcelen] is its
    length) and the bytes written at [*dest] ([*destlen] went down by their
    number). *)
Record codec_result : Type := mk_result {
  r_error : parserutils_error;
  r_impl : impl;
  r_source : list Z;
  r_written : list Z
}.

(** The [handler] table of function pointers of a codec; [destroy] has no
    effect on the state modelled here.  [encode]/[decode] receive the base
    fields, the implementation state, the source and [*destlen]; an
    implementation may abort. *)
Record codec_vtable : Type := mk_vtable {
  v_encode : Z -> parserutils_charset_codec_errormode -> impl ->
             list Z -> Z -> outcome codec_result;
  v_decode : Z -> parserutils_charset_codec_errormode -> impl ->
             list Z -> Z -> outcome codec_result;
  v_reset : impl -> parserutils_error * impl
}.

(** [struct parserutils_charset_codec] *)
Record parserutils_charset_codec : Type := mk_codec {
  mibenum : Z;
  errormode : parserutils_charset_codec_errormode;
  priv : impl;
  handler : codec_vtable
}.

(** [parserutils_charset_handler]: [create] returns the new object with
    its vtable populated, or NULL. *)
Record parserutils_charset_handler : Type := mk_handler {
  handles_charset : list Z -> bool;
  create : list Z -> option (impl * codec_vtable)
}.

(** [parserutils_charset_codec_create(charset, alloc, pw)] over the
    NULL-terminated [handler_table]. *)
Definition parserutils_charset_codec_create
    (handler_table : list parserutils_charset_handler)
    (t : Aliases.alias_tables) (charset : list Z)
  : option parserutils_charset_codec :=
  match Aliases.canonicalise_cstr t charset with
  | None => None
  | Some canon =>
      match find (fun h => handles_charset h (Aliases.name canon))
                 handler_table with
      | None => None
      | Some h =>
          match create h (Aliases.name canon) with
          | None => None
          | Some (p, vt) =>
              Some (mk_codec (Aliases.mib_enum canon)
                             PARSERUTILS_CHARSET_CODEC_ERROR_LOOSE p vt)
          end
      end
  end.

(** [parserutils_charset_codec_setopt] with type
    [PARSERUTILS_CHARSET_CODEC_ERROR_MODE]. *)
Definition parserutils_charset_codec_setopt
    (codec : option parserutils_charset_codec)
    (mode : parserutils_charset_codec_errormode)
  : parserutils_error * option parserutils_charset_codec :=
  match codec with
  | None => (PARSERUTILS_BADPARM, None)
  | Some c =>
      (PARSERUTILS_OK,
       Some (mk_codec (mibenum c) mode (priv c) (handler c)))
  end.

(** Result of the two wrappers below: code, codec, source cursor, bytes
    written. *)
Definition codec_call : Type :=
  (parserutils_error * option parserutils_charset_codec *
   option (list Z) * list Z)%type.

(** [parserutils_charset_codec_encode]; [source] is [*source] with
    [*sourcelen] its length, NULL being [None]. *)
Definition parserutils_charset_codec_encode
    (codec : option parserutils_charset_codec)
    (source : option (list Z)) (destlen : Z) : outcome codec_call :=
  match codec, source with
  | Some c, Some src =>
      r <- v_encode (handler c) (mibenum c) (errormode c) (priv c)
             src destlen ;;
      Ret (r_error r,
           Some (mk_codec (mibenum c) (errormode c) (r_impl r) (handler c)),
           Some (r_source r), r_written r)
  | _, _ => Ret (PARSERUTILS_BADPARM, codec, source, [])
  end.

(** [parserutils_charset_codec_decode] *)
Definition parserutils_charset_codec_decode
    (codec : option parserutils_charset_codec)
    (source : option (list Z)) (destlen : Z) : outcome codec_call :=
  match codec, source with
  | Some c, Some src =>
      r <- v_decode (handler c) (mibenum c) (errormode c) (priv c)
             src destlen ;;
      Ret (r_error r,
           Some (mk_codec (mibenum c) (errormode c) (r_impl r) (handler c)),
           Some (r_source r), r_written r)
  | _, _ => Ret (PARSERUTILS_BADPARM, codec, source, [])
  end.

(** [parserutils_charset_codec_reset] *)
Definition parserutils_charset_codec_reset
    (codec : option parserutils_charset_codec)
  : parserutils_error * option parserutils_charset_codec :=
  match codec with
  | None => (PARSERUTILS_BADPARM, None)
  | Some c =>
      let '(e, p) := v_reset (handler c) (priv c) in
      (e, Some (mk_codec (mibenum c) (errormode c) p (handler c)))
  end.

(** Two codec pointers denote the same codec object up to its private
    state: both NULL, or both set with the same base fields and vtable. *)
Definition same_codec (c c' : option parserutils_charset_codec) : Prop :=
  match c, c' with
  | Some a, Some b =>
      mibenum a = mibenum b /\ errormode a = errormode b /\
      handler a = handler b
  | None, None => True
  | _, _ => False
  end.

End WithImpl.

Arguments codec_result : clear implicits.
Arguments codec_vtable : clear implicits.
Arguments parserutils_charset_codec : clear implicits.
Arguments parserutils_charset_handler : clear implicits.
Arguments codec_call : clear implicits.

End Codec.

(** ** The iconv-based codec, decoding side (charset/codecs/codec_iconv.c) *)

Module IconvCodec.

Import Codec.

(** The values of [errno] the codec tells apart after a failed [iconv]. *)
Inductive iconv_errno : Type := E2BIG | EILSEQ | EINVAL | EOTHER.

Definition INVAL_BUFSIZE : Z := 32.
Definition READ_BUFSIZE : Z := 8.

Section WithIconv.

(** The conversion descriptor [iconv_t] of the system. *)
Variable cd : Type.

(** One call [iconv(cd, &in, &inleft, &out, &outleft)]: the descriptor
    afterwards, [Some e] if it returned [(size_t) -1] with [errno = e],
    what remains at [in] ([inleft] is its length) and the bytes written at
    [out] ([outleft] went down by their number). *)
Record iconv_return : Type := mk_iconv_return {
  ic_cd : cd;
  ic_failed : option iconv_errno;
  ic_in : list Z;
  ic_out : list Z
}.

(** The system's converter, given the descriptor, the input and
    [outleft]. *)
Variable iconv : cd -> list Z -> Z -> iconv_return.

(** The indeterminate initial content of the local [uint32_t ucs4]. *)
Variable ucs4_junk : list Z.

(** [struct iconv_codec] without its base class.  [inval_buf] is the list
    of the bytes kept in the array, [read_buf] the list of the UCS-4
    characters kept, each as its four bytes in memory order. *)
Record iconv_codec : Type := mk_iconv_codec {
  read_cd : cd;
  inval_buf : list Z;
  inval_len : Z;
  read_buf : list (list Z);
  read_len : Z;
  write_cd : cd;
  write_buf : list (list Z);
  write_len : Z
}.

Definition set_read_cd (c : iconv_codec) (d : cd) : iconv_codec :=
  mk_iconv_codec d (inval_buf c) (inval_len c) (read_buf c) (read_len c)
                 (write_cd c) (write_buf c) (write_len c).

Definition set_inval (c : iconv_codec) (buf : list Z) (len : Z)
  : iconv_codec :=
  mk_iconv_codec (read_cd c) buf len (read_buf c) (read_len c)
                 (write_cd c) (write_buf c) (write_len c).

Definition set_read (c : iconv_codec) (buf : list (list Z)) (len : Z)
  : iconv_codec :=
  mk_iconv_codec (read_cd c) (inval_buf c) (inval_len c) buf len
                 (write_cd c) (write_buf c) (write_len c).

(** [c->inval_buf[0] = '\0'; c->inval_len = 0;] *)
Definition clear_inval (c : iconv_codec) : iconv_codec := set_inval c [] 0.

(** [htonl(0xFFFD)] as it sits in memory. *)
Definition ucs4_FFFD : list Z := [0x00; 0x00; 0xFF; 0xFD].

(** [iconv_codec_output_decoded_char(c, ucs4, dest, destlen)]: code,
    codec, bytes written. *)
Definition iconv_codec_output_decoded_char (c : iconv_codec)
    (ucs4 : list Z) (destlen : Z)
  : parserutils_error * iconv_codec * list Z :=
  if destlen <? 4 then
    (PARSERUTILS_NOMEM, set_read c (ucs4 :: tl (read_buf c)) 1, [])
  else (PARSERUTILS_OK, c, ucs4).

(** What a call on the codec leaves behind: code, codec, what remains at
    [*source], bytes written at [*dest]. *)
Definition iconv_call : Type :=
  (parserutils_error * iconv_codec * list Z * list Z)%type.

(** The [while ( *sourcelen > 1 )] search for the next valid sequence in
    [iconv_codec_read_char]: whether it was found, the descriptor, and
    [*source] as the loop leaves it ([oldsrc] when found). *)
Fixpoint find_next_valid (fuel : nat) (d : cd) (source : list Z)
  : outcome (bool * cd * list Z) :=
  match fuel with
  | O => OutOfFuel
  | S fuel' =>
      if 1 <? Z.of_nat (List.length source) then
        let oldsrc := tl source in
        let r := iconv d oldsrc 4 in
        match ic_failed r with
        | Some EILSEQ => find_next_valid fuel' (ic_cd r) (ic_in r)
        | _ => Ret (true, ic_cd r, oldsrc)
        end
      else Ret (false, d, source)
  end.

(** [iconv_codec_read_char(c, source, sourcelen, dest, destlen)] *)
Definition iconv_codec_read_char (fuel : nat)
    (mode : parserutils_charset_codec_errormode) (c : iconv_codec)
    (source : list Z) (destlen : Z) : outcome iconv_call :=
  let r := iconv (read_cd c) source 4 in
  let c := set_read_cd c (ic_cd r) in
  let ucs4 :=
    firstn 4 (ic_out r ++ skipn (List.length (ic_out r)) ucs4_junk) in
  let moved := negb (List.length (ic_in r) =? List.length source)%nat in
  let sucs4 := 4 - Z.of_nat (List.length (ic_out r)) in
  let read_a_character :=
    let '(error, c, written) :=
      iconv_codec_output_decoded_char c ucs4 destlen in
    let src :=
      if negb (error_eqb error PARSERUTILS_OK) &&
         negb (error_eqb error PARSERUTILS_NOMEM)
      then source else ic_in r in
    Ret (error, clear_inval c, src, written) in
  match ic_failed r with
  | None => read_a_character
  | Some e =>
      if moved && (sucs4 =? 0) then read_a_character
      else
        match e with
        | E2BIG => Abort
        | EINVAL =>
            (* Incomplete input sequence *)
            let sourcelen := Z.of_nat (List.length (ic_in r)) in
            if INVAL_BUFSIZE <? sourcelen then Abort
            else if sourcelen =? INVAL_BUFSIZE then
              (* inval_buf[INVAL_BUFSIZE] = 0 lies outside the array *)
              Undefined
            else Ret (PARSERUTILS_OK, set_inval c (ic_in r) sourcelen, [], [])
        | EILSEQ =>
            (* Illegal input sequence *)
            let c := clear_inval c in
            match mode with
            | PARSERUTILS_CHARSET_CODEC_ERROR_STRICT =>
                Ret (PARSERUTILS_INVALID, c, source, [])
            | _ =>
                f <- find_next_valid fuel (read_cd c) (ic_in r) ;;
                let '(found, d, src) := f in
                let c := set_read_cd c d in
                if negb found && negb (List.length src =? 1)%nat then Abort
                else
                  let src := if found then src else tl src in
                  let '(error, c, written) :=
                    iconv_codec_output_decoded_char c ucs4_FFFD destlen in
                  let src :=
                    if negb (error_eqb error PARSERUTILS_OK) &&
                       negb (error_eqb error PARSERUTILS_NOMEM)
                    then source else src in
                  Ret (error, c, src, written)
            end
        | EOTHER => Ret (PARSERUTILS_OK, c, ic_in r, [])
        end
  end.

(** The [while (c->read_len > 0 && *destlen >= c->read_len * 4)] loop of
    [iconv_codec_decode], which writes out what an earlier call kept. *)
Fixpoint flush_read_buf (pread : list (list Z)) (len destlen : Z)
    (written : list Z) : list (list Z) * Z * Z * list Z :=
  match pread with
  | ucs4 :: rest =>
      if (0 <? len) && (len * 4 <=? destlen) then
        flush_read_buf rest (len - 1) (destlen - 4) (written ++ ucs4)
      else (pread, len, destlen, written)
  | [] => (pread, len, destlen, written)
  end.

(** The final [while ( *sourcelen > 0 )] loop of [iconv_codec_decode]. *)
Fixpoint decode_loop (fuel : nat)
    (mode : parserutils_charset_codec_errormode) (c : iconv_codec)
    (source : list Z) (destlen : Z) (written : list Z)
  : outcome iconv_call :=
  match source with
  | [] => Ret (PARSERUTILS_OK, c, source, written)
  | _ :: _ =>
      match fuel with
      | O => OutOfFuel
      | S fuel' =>
          r <- iconv_codec_read_char fuel mode c source destlen ;;
          let '(error, c, source, w) := r in
          if negb (error_eqb error PARSERUTILS_OK) then
            Ret (error, c, source, written ++ w)
          else
            decode_loop fuel' mode c source
              (destlen - Z.of_nat (List.length w)) (written ++ w)
      end
  end.

(** [(signed) x] for a [size_t] value: the low 32 bits as an [int]. *)
Definition signed (x : Z) : Z :=
  let y := x mod 4294967296 in
  if y <? 2147483648 then y else y - 4294967296.

(** [iconv_codec_decode(codec, source, sourcelen, dest, destlen)] *)
Definition iconv_codec_decode (fuel : nat)
    (mode : parserutils_charset_codec_errormode) (c : iconv_codec)
    (source : list Z) (destlen : Z) : outcome iconv_call :=
  (* Output left over from last decode *)
  let '(pread, len, destlen1, written) :=
    if 0 <? read_len c then
      flush_read_buf (read_buf c) (read_len c) destlen []
    else (read_buf c, read_len c, destlen, []) in
  let c := set_read c pread len in
  if (0 <? read_len c) && (destlen1 <? read_len c * 4) then
    Ret (PARSERUTILS_NOMEM, c, source, written)
  else if 0 <? inval_len c then
    (* The last decode ended in an incomplete sequence *)
    let ol := inval_len c in
    let l := Z.min ((INVAL_BUFSIZE - ol - 1) mod 18446744073709551616)
                   (Z.of_nat (List.length source)) in
    let orig_l := l in
    if INVAL_BUFSIZE <? ol + l then Undefined
    else
      let buf :=
        firstn (Z.to_nat ol) (inval_buf c) ++ firstn (Z.to_nat l) source in
      let c := set_inval c buf (inval_len c) in
      r <- iconv_codec_read_char fuel mode c buf destlen1 ;;
      let '(error, c, rest, w) := r in
      let l := Z.of_nat (List.length rest) in
      if negb (error_eqb error PARSERUTILS_OK) &&
         negb (error_eqb error PARSERUTILS_NOMEM) then
        Ret (error, c, source, written ++ w)
      else
        let adv := Z.max (signed (orig_l - l)) 0 in
        let source := skipn (Z.to_nat adv) source in
        if (orig_l + ol) - l =? 0 then Abort
        else if negb (error_eqb error PARSERUTILS_OK) then
          Ret (error, c, source, written ++ w)
        else
          decode_loop fuel mode c source
            (destlen1 - Z.of_nat (List.length w)) (written ++ w)
  else decode_loop fuel mode c source destlen1 written.

(** [iconv_codec_reset(codec)]; [reset_cd] is [iconv(cd, NULL, NULL, NULL,
    NULL)]. *)
Definition iconv_codec_reset (reset_cd : cd -> cd) (c : iconv_codec)
  : parserutils_error * iconv_codec :=
  (PARSERUTILS_OK,
   mk_iconv_codec (reset_cd (read_cd c)) [] 0
                  ([0; 0; 0; 0] :: tl (read_buf c)) 0
                  (reset_cd (write_cd c))
                  ([0; 0; 0; 0] :: tl (write_buf c)) 0).


(** *** The encoding side *)

Definition WRITE_BUFSIZE : Z := 8.

Definition set_write_cd (c : iconv_codec) (d : cd) : iconv_codec :=
  mk_iconv_codec (read_cd c) (inval_buf c) (inval_len c) (read_buf c)
                 (read_len c) d (write_buf c) (write_len c).

Definition set_write (c : iconv_codec) (buf : list (list Z)) (len : Z)
  : iconv_codec :=
  mk_iconv_codec (read_cd c) (inval_buf c) (inval_len c) (read_buf c)
                 (read_len c) (write_cd c) buf len.

(** [htonl(0x3F)] as it sits in memory. *)
Definition ucs4_003F : list Z := [0x00; 0x00; 0x00; 0x3F].

(** What a call on the encoding side leaves behind: code, the static
    variables of [parserutils_charset_mibenum_is_unicode], codec, what
    remains at [*source], bytes written at [*dest]. *)
Definition iconv_write_call : Type :=
  (parserutils_error * Aliases.unicode_statics * iconv_codec *
   list Z * list Z)%type.

(** [iconv_codec_write_char(c, ucs4, dest, destlen)]; [mib] and [mode] are
    [c->base.mibenum] and [c->base.errormode], [t] the alias tables.  The
    result is the code, the static variables, the codec and the bytes
    written. *)
Definition iconv_codec_write_char (t : Aliases.alias_tables) (mib : Z)
    (mode : parserutils_charset_codec_errormode)
    (ust : Aliases.unicode_statics) (c : iconv_codec) (ucs4 : list Z)
    (destlen : Z)
  : outcome (parserutils_error * Aliases.unicode_statics * iconv_codec *
             list Z) :=
  let r := iconv (write_cd c) ucs4 destlen in
  let c := set_write_cd c (ic_cd r) in
  match ic_failed r with
  | Some E2BIG => Ret (PARSERUTILS_NOMEM, ust, c, ic_out r)
  | Some EILSEQ => Abort
  | Some EINVAL => Abort
  | _ =>
      match ic_out r with
      | [] =>
          (* Nothing was output *)
          match mode with
          | PARSERUTILS_CHARSET_CODEC_ERROR_STRICT =>
              Ret (PARSERUTILS_INVALID, ust, c, [])
          | _ =>
              let '(ust, unicode) :=
                Aliases.parserutils_charset_mibenum_is_unicode t ust mib in
              let r :=
                iconv (write_cd c)
                      (if unicode then ucs4_FFFD else ucs4_003F) destlen in
              let c := set_write_cd c (ic_cd r) in
              match ic_failed r with
              | Some E2BIG => Ret (PARSERUTILS_NOMEM, ust, c, ic_out r)
              | Some EILSEQ => Abort
              | Some EINVAL => Abort
              | _ => Ret (PARSERUTILS_OK, ust, c, ic_out r)
              end
          end
      | _ :: _ => Ret (PARSERUTILS_OK, ust, c, ic_out r)
      end
  end.

(** [for (ucs4 = 1; ucs4 < c->write_len; ucs4++)
       c->write_buf[ucs4] = pwrite[ucs4];]
    with [pwrite = c->write_buf + k]; [None] when an element is read that
    was never stored. *)
Definition shuffle_write (wb : list (list Z)) (k : nat) (len : Z)
  : option (list (list Z)) :=
  if len <=? 1 then Some wb
  else if (k + Z.to_nat len <=? List.length wb)%nat then
    Some (firstn 1 wb ++
          firstn (Z.to_nat len - 1) (skipn (k + 1) wb) ++
          skipn (Z.to_nat len) wb)
  else None.

(** The [while (c->write_len > 0)] loop of [iconv_codec_encode] over the
    characters kept by an earlier call; [n] is the number of turns left
    ([c->write_len]) and [k] the distance of [pwrite] from [c->write_buf].
    [Some e] is an early [return e]. *)
Fixpoint flush_write_buf (t : Aliases.alias_tables) (mib : Z)
    (mode : parserutils_charset_codec_errormode) (n k : nat)
    (ust : Aliases.unicode_statics) (c : iconv_codec) (destlen : Z)
    (written : list Z)
  : outcome (option parserutils_error * Aliases.unicode_statics *
             iconv_codec * Z * list Z) :=
  match n with
  | O => Ret (None, ust, c, destlen, written)
  | S n' =>
      match nth_error (write_buf c) k with
      | None => Undefined
      | Some ucs4 =>
          r <- iconv_codec_write_char t mib mode ust c ucs4 destlen ;;
          let '(error, ust, c, w) := r in
          if negb (error_eqb error PARSERUTILS_OK) then
            if error_eqb error PARSERUTILS_INVALID then
              match shuffle_write (write_buf c) k (write_len c) with
              | None => Undefined
              | Some wb =>
                  Ret (Some error, ust, set_write c wb (write_len c),
                       destlen - Z.of_nat (List.length w), written ++ w)
              end
            else
              Ret (Some error, ust, c,
                   destlen - Z.of_nat (List.length w), written ++ w)
          else
            flush_write_buf t mib mode n' (S k) ust
              (set_write c (write_buf c) (write_len c - 1))
              (destlen - Z.of_nat (List.length w)) (written ++ w)
      end
  end.

(** The [while ( *sourcelen > 0 )] loop of [iconv_codec_encode]; each turn
    reads one UCS-4 character, four bytes, from [*source]. *)
Fixpoint encode_loop (t : Aliases.alias_tables) (mib : Z)
    (mode : parserutils_charset_codec_errormode)
    (ust : Aliases.unicode_statics) (c : iconv_codec) (source : list Z)
    (destlen : Z) (written : list Z) : outcome iconv_write_call :=
  match source with
  | [] => Ret (PARSERUTILS_OK, ust, c, source, written)
  | b0 :: b1 :: b2 :: b3 :: rest =>
      let ucs4 := [b0; b1; b2; b3] in
      r <- iconv_codec_write_char t mib mode ust c ucs4 destlen ;;
      let '(error, ust, c, w) := r in
      if negb (error_eqb error PARSERUTILS_OK) then
        let skip := if error_eqb error PARSERUTILS_INVALID then 1 else 0 in
        if WRITE_BUFSIZE <=? 1 - skip then Abort
        else
          (* Keep the character for the next call, unless it is invalid *)
          let c :=
            if error_eqb error PARSERUTILS_INVALID
            then set_write c (write_buf c) (1 - skip)
            else set_write c (ucs4 :: tl (write_buf c)) (1 - skip) in
          Ret (error, ust, c, rest, written ++ w)
      else
        encode_loop t mib mode ust c rest
          (destlen - Z.of_nat (List.length w)) (written ++ w)
  | _ =>
      (* fewer than four bytes are left where a [uint32_t] is read *)
      Undefined
  end.

(** [iconv_codec_encode(codec, source, sourcelen, dest, destlen)] *)
Definition iconv_codec_encode (t : Aliases.alias_tables) (mib : Z)
    (mode : parserutils_charset_codec_errormode)
    (ust : Aliases.unicode_statics) (c : iconv_codec) (source : list Z)
    (destlen : Z) : outcome iconv_write_call :=
  (* Process any outstanding characters from the previous call *)
  first <- flush_write_buf t mib mode (Z.to_nat (write_len c)) 0 ust c
             destlen [] ;;
  let '(early, ust, c, destlen, written) := first in
  match early with
  | Some error => Ret (error, ust, c, source, written)
  | None => encode_loop t mib mode ust c source destlen written
  end.

End WithIconv.

Arguments mk_iconv_return {cd}.
Arguments mk_iconv_codec {cd}.

End IconvCodec.

(** ** The input filter (input/filter.c, built without WITH_ICONV_FILTER) *)

Module Filter.

Import Codec.

Section WithImpl.

Context {impl : Type}.

(** The codec registry and the alias tables, both static data of the
    library. *)
Variable handler_table : list (parserutils_charset_handler impl).
Variable t : Aliases.alias_tables.

(** [struct parserutils_filter].  [pivot_left] and [pivot_len] together
    are the list of the bytes of [pivot_buf] still to be written
    ([None]: NULL, length 0); [encoding] is [settings.encoding]. *)
Record parserutils_filter : Type := mk_filter {
  read_codec : option (parserutils_charset_codec impl);
  write_codec : option (parserutils_charset_codec impl);
  leftover : bool;
  pivot_left : option (list Z);
  encoding : Z
}.

(** [sizeof(input->pivot_buf)] *)
Definition PIVOT_BYTES : Z := 64 * 4.

(** What [parserutils_filter_process_chunk] leaves behind: the returned
    code, the filter, what remains at [*data] ([*len] is its length), the
    bytes written at [*output], and [*outlen]. *)
Record chunk_result : Type := mk_chunk {
  c_error : parserutils_error;
  c_filter : parserutils_filter;
  c_data : list Z;
  c_output : list Z;
  c_outlen : Z
}.

Definition cursor (p : option (list Z)) : list Z :=
  match p with Some l => l | None => [] end.

(** The [while ( *len > 0 )] loop of [parserutils_filter_process_chunk]. *)
Fixpoint process_loop (fuel : nat) (input : parserutils_filter)
    (data output : list Z) (outlen : Z) : outcome chunk_result :=
  match data with
  | [] => Ret (mk_chunk PARSERUTILS_OK input data output outlen)
  | _ :: _ =>
      match fuel with
      | O => OutOfFuel
      | S fuel' =>
          dec <- parserutils_charset_codec_decode (read_codec input)
                   (Some data) PIVOT_BYTES ;;
          let '(read_error, rc, data', pivot) := dec in
          let pivot_len :=
            PIVOT_BYTES - (PIVOT_BYTES - Z.of_nat (length pivot)) in
          let input1 :=
            mk_filter rc (write_codec input) (leftover input)
                      (pivot_left input) (encoding input) in
          enc <- (if 0 <? pivot_len then
                    parserutils_charset_codec_encode (write_codec input1)
                      (Some pivot) outlen
                  else
                    Ret (PARSERUTILS_OK, write_codec input1, Some pivot, [])) ;;
          let '(write_error, wc, pivot', out) := enc in
          let output' := output ++ out in
          let outlen' := outlen - Z.of_nat (length out) in
          if negb (error_eqb write_error PARSERUTILS_OK) then
            Ret (mk_chunk write_error
                   (mk_filter rc wc true pivot' (encoding input))
                   (cursor data') output' outlen')
          else
            let input2 :=
              mk_filter rc wc (leftover input) (pivot_left input)
                        (encoding input) in
            if negb (error_eqb read_error PARSERUTILS_OK) &&
               negb (error_eqb read_error PARSERUTILS_NOMEM) then
              Ret (mk_chunk read_error input2 (cursor data') output' outlen')
            else
              process_loop fuel' input2 (cursor data') output' outlen'
      end
  end.

(** [parserutils_filter_process_chunk(input, data, len, output, outlen)] *)
Definition parserutils_filter_process_chunk (fuel : nat)
    (input : parserutils_filter) (data : list Z) (outlen : Z)
  : outcome chunk_result :=
  if leftover input then
    enc <- parserutils_charset_codec_encode (write_codec input)
             (pivot_left input) outlen ;;
    let '(write_error, wc, pivot', out) := enc in
    let outlen' := outlen - Z.of_nat (length out) in
    if negb (error_eqb write_error PARSERUTILS_OK) then
      Ret (mk_chunk write_error
             (mk_filter (read_codec input) wc (leftover input) pivot'
                        (encoding input))
             data out outlen')
    else
      process_loop fuel
        (mk_filter (read_codec input) wc false None (encoding input))
        data out outlen'
  else process_loop fuel input data [] outlen.

(** [parserutils_filter_reset] *)
Definition parserutils_filter_reset (input : parserutils_filter)
  : parserutils_error * parserutils_filter :=
  let '(e1, rc) := parserutils_charset_codec_reset (read_codec input) in
  if negb (error_eqb e1 PARSERUTILS_OK) then
    (e1, mk_filter rc (write_codec input) false None (encoding input))
  else
    let '(e2, wc) := parserutils_charset_codec_reset (write_codec input) in
    if negb (error_eqb e2 PARSERUTILS_OK) then
      (e2, mk_filter rc wc false None (encoding input))
    else
      (PARSERUTILS_OK, mk_filter rc wc false None (encoding input)).

(** [filter_set_encoding(input, enc)] *)
Definition filter_set_encoding (input : parserutils_filter) (enc : list Z)
  : parserutils_error * parserutils_filter :=
  let mibenum := Aliases.mibenum_from_cstr t enc in
  if mibenum =? 0 then (PARSERUTILS_INVALID, input)
  else if encoding input =? mibenum then (PARSERUTILS_OK, input)
  else
    match parserutils_charset_codec_create handler_table t enc with
    | None =>
        (PARSERUTILS_NOMEM,
         mk_filter None (write_codec input) (leftover input)
                   (pivot_left input) (encoding input))
    | Some rc =>
        (PARSERUTILS_OK,
         mk_filter (Some rc) (write_codec input) (leftover input)
                   (pivot_left input) mibenum)
    end.

(** [filter_set_defaults(input)] *)
Definition filter_set_defaults (input : parserutils_filter)
  : parserutils_error * parserutils_filter :=
  filter_set_encoding
    (mk_filter None None (leftover input) (pivot_left input) 0)
    (chars "UTF-8").

(** [parserutils_filter_setopt] with type
    [PARSERUTILS_FILTER_SET_ENCODING] and [params->encoding.name = name]. *)
Definition parserutils_filter_setopt (input : parserutils_filter)
    (name : list Z) : parserutils_error * parserutils_filter :=
  filter_set_encoding input name.

(** [parserutils_filter_create(int_enc, alloc, pw)]; [filter_mem] tells
    whether the allocation of the filter itself succeeded. *)
Definition parserutils_filter_create (int_enc : list Z) (filter_mem : bool)
  : option parserutils_filter :=
  if negb filter_mem then None
  else
    match filter_set_defaults (mk_filter None None false None 0) with
    | (PARSERUTILS_OK, filter) =>
        match parserutils_charset_codec_create handler_table t int_enc with
        | None => None
        | Some wc =>
            Some (mk_filter (read_codec filter) (Some wc) (leftover filter)
                            (pivot_left filter) (encoding filter))
        end
    | _ => None
    end.

(** Every codec a filter holds is in Loose mode. *)
Definition loose_codec (c : option (parserutils_charset_codec impl)) : Prop :=
  forall codec, c = Some codec ->
    errormode codec = PARSERUTILS_CHARSET_CODEC_ERROR_LOOSE.

Definition loose_filter (f : parserutils_filter) : Prop :=
  loose_codec (read_codec f) /\ loose_codec (write_codec f).

End WithImpl.

Arguments parserutils_filter : clear implicits.
Arguments chunk_result : clear implicits.

End Filter.

(** ** The input stream (input/inputstream.c, input/inputstream.h) *)

Module InputStream.

Import Codec Filter.

(** [size_t] and [uintptr_t] of an LP64 platform. *)
Definition size_t (x : Z) : Z := x mod 18446744073709551616.

(** Modelled from the spec: [parserutils_buffer] of
    parserutils/utils/buffer.h, which is not among the sources, with the
    fields [data], [length] and [allocated] of section 6: the address of
    [data], the [allocated] bytes found there, and [length], the number
    of them in use. *)
Record parserutils_buffer : Type := mk_buffer {
  data_addr : Z;
  data : list Z;
  length : Z
}.

Definition allocated (b : parserutils_buffer) : Z :=
  Z.of_nat (List.length (data b)).

(** [buffer->data[i]] inside the allocation. *)
Definition byte_at (b : parserutils_buffer) (i : Z) : Z :=
  nth (Z.to_nat i) (data b) 0.

(** [memmove(data + dst, data + src, n)] inside the allocation. *)
Definition memmove (mem : list Z) (dst src n : Z) : list Z :=
  firstn (Z.to_nat dst) mem ++
  firstn (Z.to_nat n) (skipn (Z.to_nat src) mem) ++
  skipn (Z.to_nat (dst + n)) mem.

(** Bytes written through a cursor that started at [data + off]. *)
Definition store (mem : list Z) (off : Z) (bytes : list Z) : list Z :=
  firstn (Z.to_nat off) mem ++ bytes ++
  skipn (Z.to_nat off + List.length bytes) mem.

(** Modelled from the spec: [parserutils_buffer_discard(buffer, offset,
    len)] of utils/buffer.c, which is not among the sources.  The spec
    lists [discard(off, len)] of the byte buffer; here it removes [len]
    bytes of the used part at [offset], moving the rest down, and refuses
    a range that leaves the used part. *)
Definition parserutils_buffer_discard (buffer : parserutils_buffer)
    (offset len : Z) : parserutils_error * parserutils_buffer :=
  if length buffer <? offset + len then (PARSERUTILS_BADPARM, buffer)
  else
    (PARSERUTILS_OK,
     mk_buffer (data_addr buffer)
       (memmove (data buffer) offset (offset + len)
                (length buffer - (len + offset)))
       (length buffer - len)).

(** [parserutils_charset_detect_func]: called with the raw data, its
    length and the current values of [mibenum] and [encsrc]; returns its
    code and the values it left in the two fields. *)
Definition parserutils_charset_detect_func : Type :=
  list Z -> Z -> Z -> Z -> parserutils_error * Z * Z.

(** What a peek leaves in [*length]. *)
Inductive length_result : Type :=
| NotStored             (* [*length] is not written *)
| StoredUninitialised   (* the local [len] is stored without ever having
                           been assigned *)
| Stored (n : Z).       (* [n] is stored *)

Definition PARSERUTILS_INPUTSTREAM_EOF : Z := 0xFFFFFFFF.
Definition PARSERUTILS_INPUTSTREAM_OOD : Z := 0xFFFFFFFE.

Definition IS_ASCII (x : Z) : bool := Z.land x 0x80 =? 0.

(** The function-local [static uint16_t] variables of
    [parserutils_inputstream_strip_bom]; all zero at program start. *)
Record bom_statics : Type := mk_statics {
  s_utf8 : Z;
  s_utf16 : Z;
  s_utf16be : Z;
  s_utf16le : Z;
  s_utf32 : Z;
  s_utf32be : Z;
  s_utf32le : Z
}.

Definition bom_statics_init : bom_statics := mk_statics 0 0 0 0 0 0 0.

(** The part of a buffer in use. *)
Definition used (b : parserutils_buffer) : list Z :=
  firstn (Z.to_nat (length b)) (data b).

(** The byte-order marks as the specification lists them, each with the
    MIB enum of its encoding. *)
Definition spec_boms (st : bom_statics) : list (Z * list Z) :=
  [ (s_utf8 st, [0xEF; 0xBB; 0xBF]);
    (s_utf16be st, [0xFE; 0xFF]);
    (s_utf16le st, [0xFF; 0xFE]);
    (s_utf32be st, [0x00; 0x00; 0xFE; 0xFF]);
    (s_utf32le st, [0xFF; 0xFE; 0x00; 0x00]) ].

(** Whether the used part of [b] is at least as long as [bom] and starts
    with its bytes. *)
Definition generic_check (b : parserutils_buffer) (bom : list Z) : bool :=
  (Z.of_nat (List.length bom) <=? length b) &&
  forallb (fun p => byte_at b (Z.of_nat (fst p)) =? snd p)
          (combine (seq 0 (List.length bom)) bom).

(** The static variables once looked up in the alias tables. *)
Definition looked_up (t : Aliases.alias_tables) : bom_statics :=
  mk_statics (Aliases.mibenum_from_cstr t (chars "UTF-8"))
             (Aliases.mibenum_from_cstr t (chars "UTF-16"))
             (Aliases.mibenum_from_cstr t (chars "UTF-16BE"))
             (Aliases.mibenum_from_cstr t (chars "UTF-16LE"))
             (Aliases.mibenum_from_cstr t (chars "UTF-32"))
             (Aliases.mibenum_from_cstr t (chars "UTF-32BE"))
             (Aliases.mibenum_from_cstr t (chars "UTF-32LE")).

Definition UTF32_BOM_LEN : Z := 4.
Definition UTF16_BOM_LEN : Z := 2.
Definition UTF8_BOM_LEN : Z := 3.

Section WithImpl.

Context {impl : Type}.

Variable handler_table : list (parserutils_charset_handler impl).
Variable t : Aliases.alias_tables.

(** Two functions of the library whose sources are not among those
    translated here, taken as parameters: [parserutils_buffer_grow] of
    utils/buffer.c and [parserutils_charset_utf8_char_byte_length] of
    charset/utf8.h (given the bytes from the pointer on). *)
Variable parserutils_buffer_grow :
  parserutils_buffer -> parserutils_error * parserutils_buffer.
Variable parserutils_charset_utf8_char_byte_length :
  list Z -> parserutils_error * Z.

(** [parserutils_inputstream_private], the public part included. *)
Record parserutils_inputstream_private : Type := mk_stream {
  utf8 : parserutils_buffer;
  cursor : Z;
  had_eof : bool;
  raw : parserutils_buffer;
  done_first_chunk : bool;
  mibenum : Z;
  encsrc : Z;
  input : parserutils_filter impl;
  csdetect : option parserutils_charset_detect_func
}.

(** [parserutils_inputstream_strip_bom(mibenum, buffer)], with the values
    of its static variables before and after. *)
Definition parserutils_inputstream_strip_bom (st : bom_statics)
    (mib : Z) (buffer : parserutils_buffer)
  : bom_statics * (parserutils_error * parserutils_buffer) :=
  let st := if s_utf8 st =? 0 then looked_up t else st in
  (st,
   if mib =? s_utf8 st then
     if (UTF8_BOM_LEN <=? length buffer) &&
        (byte_at buffer 0 =? 0xEF) &&
        (byte_at buffer 1 =? 0xBB) &&
        (byte_at buffer 2 =? 0xBF)
     then parserutils_buffer_discard buffer 0 UTF8_BOM_LEN
     else (PARSERUTILS_OK, buffer)
   else if mib =? s_utf16be st then
     if (UTF16_BOM_LEN <=? length buffer) &&
        (byte_at buffer 0 =? 0xFE) &&
        (byte_at buffer 1 =? 0xFF)
     then parserutils_buffer_discard buffer 0 UTF16_BOM_LEN
     else (PARSERUTILS_OK, buffer)
   else if mib =? s_utf16le st then
     if (UTF16_BOM_LEN <=? length buffer) &&
        (byte_at buffer 0 =? 0xFF) &&
        (byte_at buffer 1 =? 0xFE)
     then parserutils_buffer_discard buffer 0 UTF16_BOM_LEN
     else (PARSERUTILS_OK, buffer)
   else if mib =? s_utf32be st then
     if (UTF32_BOM_LEN <=? length buffer) &&
        (byte_at buffer 0 =? 0x00) &&
        (byte_at buffer 1 =? 0x00) &&
        (byte_at buffer 2 =? 0xFE) &&
        (byte_at buffer 3 =? 0xFF)
     then parserutils_buffer_discard buffer 0 UTF32_BOM_LEN
     else (PARSERUTILS_OK, buffer)
   else if mib =? s_utf32le st then
     if (UTF32_BOM_LEN <=? length buffer) &&
        (byte_at buffer 0 =? 0xFF) &&
        (byte_at buffer 1 =? 0xFE) &&
        (byte_at buffer 2 =? 0x00) &&
        (byte_at buffer 3 =? 0x00)
     then parserutils_buffer_discard buffer 0 UTF32_BOM_LEN
     else (PARSERUTILS_OK, buffer)
   else (PARSERUTILS_OK, buffer)).

(** The library state a stream operation works on: the static variables
    above and the stream. *)
Definition world : Type := (bom_statics * parserutils_inputstream_private)%type.

(** First half of [parserutils_inputstream_refill_buffer]: the
    [if (!stream->done_first_chunk)] block.  [Some e] is an early
    [return e]; the state is as the block left it either way. *)
Definition refill_first_chunk (w : world)
  : outcome (option parserutils_error * world) :=
  let '(st, stream) := w in
  if done_first_chunk stream then Ret (None, w)
  else
    let '(error, mib, src) :=
      match csdetect stream with
      | Some detect =>
          detect (used (raw stream)) (length (raw stream))
                 (mibenum stream) (encsrc stream)
      | None =>
          (PARSERUTILS_OK, Aliases.mibenum_from_cstr t (chars "UTF-8"), 0)
      end in
    let mk r d :=
      mk_stream (utf8 stream) (cursor stream) (had_eof stream) r d mib src
                (input stream) (csdetect stream) in
    if negb (error_eqb error PARSERUTILS_OK) then
      Ret (Some error, (st, mk (raw stream) false))
    else if mib =? 0 then Abort
    else
      let '(st', (error, raw')) :=
        parserutils_inputstream_strip_bom st mib (raw stream) in
      if negb (error_eqb error PARSERUTILS_OK) then
        Ret (Some error, (st', mk raw' false))
      else Ret (None, (st', mk raw' true)).

(** Second half of [parserutils_inputstream_refill_buffer]: the fill.
    The result is the returned code and the stream as it was left. *)
Definition refill_fill (fuel : nat) (stream : parserutils_inputstream_private)
  : outcome (parserutils_error * parserutils_inputstream_private) :=
  let with_utf8 u c f :=
    mk_stream u c (had_eof stream) (raw stream) (done_first_chunk stream)
              (mibenum stream) (encsrc stream) f (csdetect stream) in
  (* Work out how to perform the buffer fill *)
  let '(early, u, off, utf8_space) :=
    if cursor stream =? length (utf8 stream) then
      (PARSERUTILS_OK, utf8 stream, 0, allocated (utf8 stream))
    else
      let len' := size_t (length (utf8 stream) - cursor stream) in
      let u1 :=
        mk_buffer (data_addr (utf8 stream))
          (memmove (data (utf8 stream)) 0 (cursor stream) len') len' in
      if allocated u1 / 2 <? length u1 then
        let '(e, u2) := parserutils_buffer_grow u1 in
        (e, u2, length u2, size_t (allocated u2 - length u2))
      else (PARSERUTILS_OK, u1, length u1, size_t (allocated u1 - length u1))
  in
  if negb (error_eqb early PARSERUTILS_OK) then
    Ret (early, with_utf8 u (cursor stream) (input stream))
  else
    r <- parserutils_filter_process_chunk fuel (input stream)
           (used (raw stream)) utf8_space ;;
    let u' := mk_buffer (data_addr u) (store (data u) off (c_output r))
                        (length u) in
    if negb (error_eqb (c_error r) PARSERUTILS_OK) &&
       negb (error_eqb (c_error r) PARSERUTILS_NOMEM) then
      Ret (c_error r, with_utf8 u' (cursor stream) (c_filter r))
    else
      let raw_length := Z.of_nat (List.length (c_data r)) in
      let '(e, raw') :=
        parserutils_buffer_discard (raw stream) 0
          (size_t (length (raw stream) - raw_length)) in
      let mk u c :=
        mk_stream u c (had_eof stream) raw' (done_first_chunk stream)
                  (mibenum stream) (encsrc stream) (c_filter r)
                  (csdetect stream) in
      if negb (error_eqb e PARSERUTILS_OK) then Ret (e, mk u' (cursor stream))
      else
        Ret (PARSERUTILS_OK,
             mk (mk_buffer (data_addr u') (data u')
                           (size_t (allocated u' - c_outlen r))) 0).

(** [parserutils_inputstream_refill_buffer(stream)] *)
Definition parserutils_inputstream_refill_buffer (fuel : nat) (w : world)
  : outcome (parserutils_error * world) :=
  first <- refill_first_chunk w ;;
  match first with
  | (Some e, w') => Ret (e, w')
  | (None, (st, stream)) =>
      r <- refill_fill fuel stream ;;
      Ret (fst r, (st, snd r))
  end.

(** [parserutils_inputstream_peek_slow(stream, offset, length)]: the
    returned [uintptr_t], what is left in [*length], and the state. *)
Definition parserutils_inputstream_peek_slow (fuel : nat) (w : world)
    (offset : Z) : outcome (Z * length_result * world) :=
  let s := snd w in
  if length (raw s) =? 0 then
    Ret (if had_eof s then PARSERUTILS_INPUTSTREAM_EOF
         else PARSERUTILS_INPUTSTREAM_OOD, NotStored, w)
  else
    r <- parserutils_inputstream_refill_buffer fuel w ;;
    let '(error, w') := r in
    let s := snd w' in
    if negb (error_eqb error PARSERUTILS_OK) then
      Ret (PARSERUTILS_INPUTSTREAM_OOD, NotStored, w')
    else
      let pos := size_t (cursor s + offset) in
      if allocated (utf8 s) <=? pos then Undefined
      else
        let here := data_addr (utf8 s) + cursor s + offset in
        if IS_ASCII (byte_at (utf8 s) pos) then Ret (here, Stored 1, w')
        else
          let '(error, len) :=
            parserutils_charset_utf8_char_byte_length
              (skipn (Z.to_nat pos) (data (utf8 s))) in
          if negb (error_eqb error PARSERUTILS_OK) &&
             negb (error_eqb error PARSERUTILS_NEEDDATA) then
            Ret (PARSERUTILS_INPUTSTREAM_OOD, NotStored, w')
          else if error_eqb error PARSERUTILS_NEEDDATA then
            Ret (if had_eof s then PARSERUTILS_INPUTSTREAM_EOF
                 else PARSERUTILS_INPUTSTREAM_OOD, NotStored, w')
          else Ret (here, Stored len, w').

(** [parserutils_inputstream_peek(stream, offset, length)] (inline, built
    with NDEBUG).  The local [len] is assigned only when the character
    position lies inside the data; behind the end of the data the
    function still stores it and returns the address. *)
Definition parserutils_inputstream_peek (fuel : nat) (w : world)
    (offset : Z) : outcome (Z * length_result * world) :=
  let s := snd w in
  let pos := size_t (cursor s + offset) in
  let fast :=
    if pos <? length (utf8 s) then
      if IS_ASCII (byte_at (utf8 s) pos) then
        (PARSERUTILS_OK, Stored 1)
      else
        let '(error, len) :=
          parserutils_charset_utf8_char_byte_length
            (skipn (Z.to_nat pos) (data (utf8 s))) in
        (error, Stored len)
    else (PARSERUTILS_OK, StoredUninitialised) in
  let '(error, len) := fast in
  if negb (error_eqb error PARSERUTILS_OK) &&
     negb (error_eqb error PARSERUTILS_NEEDDATA) then
    Ret (PARSERUTILS_INPUTSTREAM_OOD, NotStored, w)
  else if (pos =? length (utf8 s)) ||
          error_eqb error PARSERUTILS_NEEDDATA then
    parserutils_inputstream_peek_slow fuel w offset
  else Ret (data_addr (utf8 s) + cursor s + offset, len, w).

(** [parserutils_inputstream_advance(stream, bytes)] (inline). *)
Definition parserutils_inputstream_advance
    (stream : parserutils_inputstream_private) (bytes : Z)
  : outcome parserutils_inputstream_private :=
  if size_t (length (utf8 stream) - cursor stream) <? bytes then Abort
  else if cursor stream =? length (utf8 stream) then Ret stream
  else
    Ret (mk_stream (utf8 stream) (uint32 (cursor stream + bytes))
                   (had_eof stream) (raw stream) (done_first_chunk stream)
                   (mibenum stream) (encsrc stream) (input stream)
                   (csdetect stream)).

(** [parserutils_inputstream_append(stream, data, len)]; [data] is NULL
    ([None]) to flag the end of the input.  [buffer_append] is
    [parserutils_buffer_append] of utils/buffer.c. *)
Definition parserutils_inputstream_append
    (buffer_append :
       parserutils_buffer -> list Z -> parserutils_error * parserutils_buffer)
    (stream : parserutils_inputstream_private) (data : option (list Z))
  : parserutils_error * parserutils_inputstream_private :=
  match data with
  | None =>
      (PARSERUTILS_OK,
       mk_stream (utf8 stream) (cursor stream) true (raw stream)
                 (done_first_chunk stream) (mibenum stream) (encsrc stream)
                 (input stream) (csdetect stream))
  | Some bytes =>
      let '(e, raw') := buffer_append (raw stream) bytes in
      (e,
       mk_stream (utf8 stream) (cursor stream) (had_eof stream) raw'
                 (done_first_chunk stream) (mibenum stream) (encsrc stream)
                 (input stream) (csdetect stream))
  end.

(** [parserutils_inputstream_read_charset(stream, source)]: the returned
    name (NULL: [None]) and the value stored in [*source]. *)
Definition parserutils_inputstream_read_charset
    (stream : parserutils_inputstream_private) : option (list Z) * Z :=
  (if encsrc stream =? 0 then Some (chars "UTF-8")
   else Aliases.parserutils_charset_mibenum_to_name t (mibenum stream),
   encsrc stream).

(** [parserutils_inputstream_create(enc, encsrc, csdetect, alloc, pw)].
    [stream_mem] and [filter_mem] tell whether the allocations of the
    stream and of the filter succeeded, [raw_buf] and [utf8_buf] are what
    the two calls of [parserutils_buffer_create] returned, and [junk] is
    the indeterminate content of a field of the fresh object that is read
    before it is written. *)
Definition parserutils_inputstream_create (enc : option (list Z))
    (enc_src : Z) (detect : option parserutils_charset_detect_func)
    (stream_mem : bool) (raw_buf utf8_buf : option parserutils_buffer)
    (filter_mem : bool) (junk : Z)
  : option parserutils_inputstream_private :=
  if negb stream_mem then None
  else
    match raw_buf, utf8_buf with
    | Some rb, Some ub =>
        match parserutils_filter_create handler_table t (chars "UTF-8")
                filter_mem with
        | None => None
        | Some f =>
            match enc with
            | Some e =>
                let mib := Aliases.mibenum_from_cstr t e in
                if negb (mib =? 0) then
                  let '(error, f') :=
                    parserutils_filter_setopt handler_table t f e in
                  if negb (error_eqb error PARSERUTILS_OK) &&
                     negb (error_eqb error PARSERUTILS_INVALID) then None
                  else
                    Some (mk_stream ub 0 false rb false mib enc_src f' detect)
                else Some (mk_stream ub 0 false rb false mib junk f detect)
            | None => Some (mk_stream ub 0 false rb false 0 0 f detect)
            end
        end
    | _, _ => None
    end.

(** [parserutils_inputstream_insert(stream, data, len)]; [buffer_insert]
    is [parserutils_buffer_insert] of utils/buffer.c, given the buffer, the
    offset and the bytes. *)
Definition parserutils_inputstream_insert
    (buffer_insert :
       parserutils_buffer -> Z -> list Z ->
       parserutils_error * parserutils_buffer)
    (stream : parserutils_inputstream_private) (data : option (list Z))
  : parserutils_error * parserutils_inputstream_private :=
  match data with
  | None => (PARSERUTILS_BADPARM, stream)
  | Some bytes =>
      let '(e, u) := buffer_insert (utf8 stream) (cursor stream) bytes in
      (e,
       mk_stream u (cursor stream) (had_eof stream) (raw stream)
                 (done_first_chunk stream) (mibenum stream) (encsrc stream)
                 (input stream) (csdetect stream))
  end.

(** The states a client can bring the stream [s0] to with the calls of the
    interface that change it: append, insert, advance and peek, each from
    a state reached before.  The first state pairs [s0] with any values of
    the static variables. *)
Inductive reached (s0 : parserutils_inputstream_private) : world -> Prop :=
| reached_created (st : bom_statics) : reached s0 (st, s0)
| reached_append (w : world) buffer_append (data : option (list Z)) :
    reached s0 w ->
    reached s0
      (fst w, snd (parserutils_inputstream_append buffer_append (snd w) data))
| reached_insert (w : world) buffer_insert (data : option (list Z)) :
    reached s0 w ->
    reached s0
      (fst w, snd (parserutils_inputstream_insert buffer_insert (snd w) data))
| reached_advance (w : world) (bytes : Z)
    (s' : parserutils_inputstream_private) :
    reached s0 w ->
    parserutils_inputstream_advance (snd w) bytes = Ret s' ->
    reached s0 (fst w, s')
| reached_peek (w : world) (fuel : nat) (offset p : Z)
    (len : length_result) (w' : world) :
    reached s0 w ->
    parserutils_inputstream_peek fuel w offset = Ret (p, len, w') ->
    reached s0 w'.

End WithImpl.

Arguments parserutils_inputstream_private : clear implicits.
Arguments world : clear implicits.

End InputStream.

(** ** Concrete environments for the examples *)

Module Examples.

Import Aliases Codec IconvCodec Filter InputStream.

(** A two-line Aliases file in which the alias [x] is given to two
    canonical names. *)
Definition shadowed_file : list alias_line :=
  [ mk_line (chars "A") 1 [chars "x"];
    mk_line (chars "B") 2 [chars "x"] ].

Definition shadowed_tables : alias_tables :=
  parserutils_charset_aliases_create (fun _ => true) shadowed_file
    empty_tables.

(** A one-line Aliases file, and the records it creates. *)
Definition utf8_file : list alias_line :=
  [ mk_line (chars "UTF-8") 106 [chars "utf8"] ].

Definition utf8_tables : alias_tables :=
  parserutils_charset_aliases_create (fun _ => true) utf8_file empty_tables.

Definition utf8_canon : parserutils_charset_aliases_canon :=
  mk_canon 0 106 5 (chars "UTF-8").

Definition utf8_alias : alias := mk_alias 1 utf8_canon 4 (chars "utf8").

(** An Aliases file with the Unicode encodings and ISO-8859-1. *)
Definition unicode_file : list alias_line :=
  [ mk_line (chars "UTF-8") 106 [chars "utf8"];
    mk_line (chars "UTF-16") 1015 [];
    mk_line (chars "UTF-16BE") 1013 [];
    mk_line (chars "UTF-16LE") 1014 [];
    mk_line (chars "UTF-32") 1017 [];
    mk_line (chars "UTF-32BE") 1018 [];
    mk_line (chars "UTF-32LE") 1019 [];
    mk_line (chars "ISO-8859-1") 4 [chars "latin1"] ].

Definition unicode_tables : alias_tables :=
  parserutils_charset_aliases_create (fun _ => true) unicode_file
    empty_tables.

(** An Aliases file that also knows UCS-4. *)
Definition ucs_file : list alias_line :=
  [ mk_line (chars "UCS-4") 1001 [];
    mk_line (chars "UTF-8") 106 [] ].

Definition ucs_tables : alias_tables :=
  parserutils_charset_aliases_create (fun _ => true) ucs_file empty_tables.

(** A codec implementation to populate the registry with (the native
    UTF-8 and UTF-16 codecs are not among the sources): one byte per
    character, no private state. *)
Fixpoint single_byte_decode (source : list Z) (destlen : Z)
    (written : list Z) : codec_result unit :=
  match source with
  | [] => mk_result PARSERUTILS_OK tt [] written
  | b :: rest =>
      if destlen <? 4 then mk_result PARSERUTILS_NOMEM tt source written
      else single_byte_decode rest (destlen - 4) (written ++ [0; 0; 0; b])
  end.

Fixpoint single_byte_encode (source : list Z) (destlen : Z)
    (written : list Z) : codec_result unit :=
  match source with
  | _ :: _ :: _ :: b :: rest =>
      if destlen <? 1 then mk_result PARSERUTILS_NOMEM tt source written
      else single_byte_encode rest (destlen - 1) (written ++ [b])
  | _ => mk_result PARSERUTILS_OK tt [] written
  end.

Definition single_byte_vtable : codec_vtable unit :=
  mk_vtable
    (fun _ _ _ source destlen => Ret (single_byte_encode source destlen []))
    (fun _ _ _ source destlen => Ret (single_byte_decode source destlen []))
    (fun st => (PARSERUTILS_OK, st)).

Definition single_byte_handler : parserutils_charset_handler unit :=
  mk_handler (fun _ => true) (fun _ => Some (tt, single_byte_vtable)).

Definition example_handlers : list (parserutils_charset_handler unit) :=
  [ single_byte_handler ].

(** A codec as [parserutils_charset_codec_create] returns it for UTF-8
    with the registry above. *)
Definition single_byte_codec : parserutils_charset_codec unit :=
  mk_codec 106 PARSERUTILS_CHARSET_CODEC_ERROR_LOOSE tt single_byte_vtable.

(** A converter as the system's [iconv] behaves for big-endian UCS-2 input
    when it is given room for one UCS-4 character. *)
Definition ucs2be_iconv (d : unit) (inbuf : list Z) (outleft : Z)
  : iconv_return unit :=
  match inbuf with
  | [] => mk_iconv_return d None [] []
  | [b] => mk_iconv_return d (Some EINVAL) inbuf []
  | b0 :: b1 :: rest =>
      if outleft <? 4 then mk_iconv_return d (Some E2BIG) inbuf []
      else
        match rest with
        | [] => mk_iconv_return d None [] [0; 0; b0; b1]
        | _ => mk_iconv_return d (Some E2BIG) rest [0; 0; b0; b1]
        end
  end.

(** The same converter, refusing the surrogate range D800..DFFF as an
    illegal sequence. *)
Definition ucs2be_strict_iconv (d : unit) (inbuf : list Z) (outleft : Z)
  : iconv_return unit :=
  match inbuf with
  | b0 :: _ :: _ =>
      if (0xD8 <=? b0) && (b0 <=? 0xDF)
      then mk_iconv_return d (Some EILSEQ) inbuf []
      else ucs2be_iconv d inbuf outleft
  | _ => ucs2be_iconv d inbuf outleft
  end.

(** A converter from UCS-4 to ISO-8859-1 that writes nothing for a
    character above U+00FF. *)
Definition to_latin1_iconv (d : unit) (inbuf : list Z) (outleft : Z)
  : iconv_return unit :=
  match inbuf with
  | [0; 0; 0; b] =>
      if outleft <? 1 then mk_iconv_return d (Some E2BIG) inbuf []
      else mk_iconv_return d None [] [b]
  | _ => mk_iconv_return d None [] []
  end.

(** A freshly created iconv codec ([iconv_codec_create]). *)
Definition fresh_iconv_codec : iconv_codec unit :=
  mk_iconv_codec tt [] 0 [] 0 tt [] 0.

(** Stand-ins for the two library functions the stream takes from
    elsewhere. *)
Definition no_grow (b : parserutils_buffer)
  : parserutils_error * parserutils_buffer := (PARSERUTILS_NOMEM, b).

Definition one_byte_length (s : list Z) : parserutils_error * Z :=
  (PARSERUTILS_OK, 1).

(** Two empty buffers of 16 bytes each, as [parserutils_buffer_create]
    might return them. *)
Definition fresh_raw : parserutils_buffer :=
  mk_buffer 4096 (repeat 0 16) 0.

Definition fresh_utf8 : parserutils_buffer :=
  mk_buffer 8192 (repeat 0 16) 0.


(** A stream as [parserutils_inputstream_create] returns it for no
    encoding and no detection function with the registry above, after
    [raw_buf] has been appended; its utf8 buffer of 16 bytes is allocated
    at [utf8_addr]. *)
Definition appended_stream (utf8_addr : Z) (raw_buf : parserutils_buffer)
  : parserutils_inputstream_private unit :=
  mk_stream (mk_buffer utf8_addr (repeat 0 16) 0) 0 false raw_buf false 0 0
    (mk_filter (Some single_byte_codec) (Some single_byte_codec) false None
               106)
    None.

(** A detection function that writes its finding, ISO-8859-1 with source
    7, and then reports an error. *)
Definition failing_detect : parserutils_charset_detect_func :=
  fun _ _ _ _ => (PARSERUTILS_BADPARM, 4, 7).

(** [parserutils_buffer_append] while the bytes fit the allocation. *)
Definition append_within (b : parserutils_buffer) (bytes : list Z)
  : parserutils_error * parserutils_buffer :=
  (PARSERUTILS_OK,
   mk_buffer (data_addr b) (store (data b) (length b) bytes)
             (length b + Z.of_nat (List.length bytes))).

(** The stream of test/inputstream.c:
    [parserutils_inputstream_create("UTF-8", 1, NULL, myrealloc, NULL)]. *)
Definition test_stream : option (parserutils_inputstream_private unit) :=
  parserutils_inputstream_create example_handlers unicode_tables
    (Some (chars "UTF-8")) 1 None true (Some fresh_raw) (Some fresh_utf8)
    true 0.

End Examples.

(** * Properties *)

Import Aliases Examples.

(** ** Name comparison and hashing *)

Section NameFacts.

Lemma skip_s1_app (s after : list Z) :
  skip_s1 (s ++ 0 :: after) = skip_s1 s ++ 0 :: after.
Proof.
  induction s as [|c s IH]; [reflexivity|]. simpl.
  destruct (IS_PUNCT_OR_SPACE c); [exact IH | reflexivity].
Qed.

Lemma aliascmp_loop_unfold (s1 s2 : list Z) :
  aliascmp_loop s1 s2 =
  match skip_s1 s1 with
  | [] => None
  | c1 :: r1 =>
      match s2 with
      | [] => Some (if c1 =? 0 then 0 else 1)
      | c2 :: r2 =>
          if IS_PUNCT_OR_SPACE c2 then aliascmp_loop s1 r2
          else if tolower c1 =? tolower c2 then aliascmp_loop r1 r2
          else Some 1
      end
  end.
Proof.
  destruct s2 as [|c2 r2]; [reflexivity|].
  cbn [aliascmp_loop]. destruct (skip_s1 s1) as [|c1 r1] eqn:E1;
    [reflexivity|].
  destruct (IS_PUNCT_OR_SPACE c2); [|reflexivity].
  destruct r2; cbn [aliascmp_loop]; rewrite E1; reflexivity.
Qed.

Lemma aliascmp_loop_nil (s1 : list Z) :
  aliascmp_loop (s1 ++ [0]) [] =
  Some (if hd 0 (skip_s1 s1) =? 0 then 0 else 1).
Proof.
  rewrite aliascmp_loop_unfold, skip_s1_app.
  destruct (skip_s1 s1); reflexivity.
Qed.

Lemma aliascmp_loop_cons (s1 : list Z) (c2 : Z) (r2 : list Z) :
  aliascmp_loop (s1 ++ [0]) (c2 :: r2) =
  if IS_PUNCT_OR_SPACE c2 then aliascmp_loop (s1 ++ [0]) r2
  else if tolower (hd 0 (skip_s1 s1)) =? tolower c2 then
    match skip_s1 s1 with
    | [] => None
    | _ :: r1 => aliascmp_loop (r1 ++ [0]) r2
    end
  else Some 1.
Proof.
  rewrite aliascmp_loop_unfold, skip_s1_app.
  destruct (skip_s1 s1) as [|c1 r1]; cbn [app hd]; [|reflexivity].
  destruct (IS_PUNCT_OR_SPACE c2); [reflexivity|].
  destruct (tolower 0 =? tolower c2); [|reflexivity].
  now rewrite aliascmp_loop_unfold.
Qed.

Lemma norm_cons_punct c s :
  IS_PUNCT_OR_SPACE c = true -> norm (c :: s) = norm s.
Proof. intros H. unfold norm. simpl. now rewrite H. Qed.

Lemma norm_cons_keep c s :
  IS_PUNCT_OR_SPACE c = false -> norm (c :: s) = fold_char c :: norm s.
Proof. intros H. unfold norm. simpl. now rewrite H. Qed.

Lemma hash_fold_norm (s : list Z) : forall h,
  fold_left hash_step s h =
  fold_left (fun h k => Z.lxor (uint32 (h * 33)) k) (norm s) h.
Proof.
  induction s as [|c s IH]; intros h; [reflexivity|].
  simpl fold_left at 1. unfold hash_step at 2.
  destruct (IS_PUNCT_OR_SPACE c) eqn:E.
  - rewrite norm_cons_punct by assumption. apply IH.
  - rewrite norm_cons_keep by assumption. simpl. apply IH.
Qed.

Lemma skip_s1_norm (s : list Z) : norm (skip_s1 s) = norm s.
Proof.
  induction s as [|c s IH]; [reflexivity|]. simpl.
  destruct (IS_PUNCT_OR_SPACE c) eqn:E.
  - rewrite IH. symmetry. now apply norm_cons_punct.
  - reflexivity.
Qed.

Lemma skip_s1_head (s : list Z) c r :
  skip_s1 s = c :: r -> IS_PUNCT_OR_SPACE c = false.
Proof.
  induction s as [|d s IH]; simpl; [discriminate|].
  destruct (IS_PUNCT_OR_SPACE d) eqn:E; [exact IH|].
  intros H. injection H as -> _. exact E.
Qed.

Lemma skip_s1_Forall (P : Z -> Prop) (s : list Z) :
  Forall P s -> Forall P (skip_s1 s).
Proof.
  induction 1 as [|d s Hd Hs IH]; simpl; [constructor|].
  destruct (IS_PUNCT_OR_SPACE d); [exact IH| now constructor].
Qed.

Lemma upper_fold (a : Z) :
  65 <= a <= 90 -> Z.land (a + 32) (Z.lnot 0x20) = Z.land a (Z.lnot 0x20).
Proof.
  intros H.
  assert (E : exists n, (n < 26)%nat /\ a = 65 + Z.of_nat n).
  { exists (Z.to_nat (a - 65)). split; lia. }
  destruct E as (n & Hn & ->).
  do 26 (destruct n as [|n]; [reflexivity|]). lia.
Qed.

Lemma tolower_fold (a b : Z) :
  tolower a = tolower b -> fold_char a = fold_char b.
Proof.
  unfold tolower, fold_char.
  destruct ((65 <=? a) && (a <=? 90)) eqn:Ea;
    destruct ((65 <=? b) && (b <=? 90)) eqn:Eb; intros H.
  - f_equal. f_equal. lia.
  - subst b. rewrite upper_fold; [reflexivity | lia].
  - subst a. rewrite upper_fold; [reflexivity | lia].
  - now subst.
Qed.

Lemma aliascmp_loop_norm (s2 : list Z) : forall s1,
  Forall (fun c => c <> 0) s1 ->
  aliascmp_loop (s1 ++ [0]) s2 = Some 0 -> norm s1 = norm s2.
Proof.
  induction s2 as [|c2 r2 IH]; intros s1 Hnz.
  - rewrite aliascmp_loop_nil. rewrite <- (skip_s1_norm s1).
    pose proof (skip_s1_Forall _ _ Hnz) as Hs.
    destruct (skip_s1 s1) as [|c r]; [reflexivity|].
    simpl. inversion Hs; subst.
    destruct (c =? 0) eqn:E; [lia | discriminate].
  - rewrite aliascmp_loop_cons.
    destruct (IS_PUNCT_OR_SPACE c2) eqn:Ep.
    + rewrite norm_cons_punct by assumption. now apply IH.
    + rewrite norm_cons_keep by assumption.
      destruct (tolower (hd 0 (skip_s1 s1)) =? tolower c2) eqn:Et;
        [|discriminate].
      rewrite <- (skip_s1_norm s1).
      pose proof (skip_s1_Forall _ _ Hnz) as Hs.
      pose proof (skip_s1_head s1) as Hh.
      destruct (skip_s1 s1) as [|c1 r1]; [discriminate|].
      intros Hrec. rewrite (norm_cons_keep c1) by (eapply Hh; reflexivity).
      simpl in Et. apply Z.eqb_eq in Et.
      rewrite (tolower_fold _ _ Et). f_equal.
      apply IH; [now inversion Hs | assumption].
Qed.

Lemma tolower_nul (c : Z) : tolower 0 = tolower c -> c = 0.
Proof.
  unfold tolower. simpl.
  destruct ((65 <=? c) && (c <=? 90)) eqn:E; lia.
Qed.

(** As long as [s2] holds no NUL the loop never steps over the terminator
    of [s1]: what the object holds behind it is not looked at. *)
Lemma aliascmp_loop_after (s2 : list Z) : forall s1 after,
  Forall (fun c => c <> 0) s2 ->
  aliascmp_loop (s1 ++ 0 :: after) s2 = aliascmp_loop (s1 ++ [0]) s2.
Proof.
  induction s2 as [|c2 r2 IH]; intros s1 after Hnz.
  - rewrite !aliascmp_loop_unfold, !skip_s1_app.
    destruct (skip_s1 s1); reflexivity.
  - inversion Hnz as [|? ? Hc Hr]; subst.
    rewrite (aliascmp_loop_unfold (s1 ++ 0 :: after)),
      (aliascmp_loop_unfold (s1 ++ [0])), !skip_s1_app.
    destruct (skip_s1 s1) as [|c1 r1]; cbn [app].
    + destruct (IS_PUNCT_OR_SPACE c2); [now apply IH|].
      destruct (tolower 0 =? tolower c2) eqn:Et; [|reflexivity].
      apply Z.eqb_eq, tolower_nul in Et. contradiction.
    + destruct (IS_PUNCT_OR_SPACE c2); [now apply IH|].
      destruct (tolower c1 =? tolower c2); [now apply IH | reflexivity].
Qed.

End NameFacts.

(** C1 as stated fails for byte strings that hold a NUL.  The name [a],
    in a record whose bytes behind the name are zero, compares equal to
    the two bytes [a], NUL: the loop steps over the terminator of the
    name.  The hash values are 3 and 13. *)
Lemma C1_counterexample :
  aliascmp_at (chars "a" ++ 0 :: [0; 0; 0; 0]) (chars "a" ++ [0]) = Some 0 /\
  parserutils_charset_hash_val (chars "a") = 3 /\
  parserutils_charset_hash_val (chars "a" ++ [0]) = 13.
Proof. repeat split. Qed.

(** C1 (amended). Two names without NUL that compare equal under
    [aliascmp] (punctuation and white space skipped, the rest compared
    without regard to ASCII case) have the same
    [parserutils_charset_hash_val], whatever the object of the first name
    holds behind its terminator. *)
Theorem C1_aliascmp_equal_hash_equal (x y after : list Z) :
  Forall (fun c => c <> 0) x ->
  Forall (fun c => c <> 0) y ->
  aliascmp_at (x ++ 0 :: after) y = Some 0 ->
  parserutils_charset_hash_val x = parserutils_charset_hash_val y.
Proof.
  intros Hx Hy Hcmp.
  assert (Hn : norm x = norm y).
  { destruct y as [|c r]; [discriminate|].
    cbn [aliascmp_at] in Hcmp.
    rewrite aliascmp_loop_after in Hcmp by assumption.
    now apply aliascmp_loop_norm. }
  unfold parserutils_charset_hash_val.
  now rewrite !hash_fold_norm, Hn.
Qed.

Lemma C1_witness :
  parserutils_charset_hash_val (chars "UTF-8") =
  parserutils_charset_hash_val (chars "u.t.f.8").
Proof.
  apply (C1_aliascmp_equal_hash_equal (chars "UTF-8") (chars "u.t.f.8")
           [0x55; 0xAA; 0x55; 0xAA]).
  - repeat constructor; discriminate.
  - repeat constructor; discriminate.
  - vm_compute. reflexivity.
Defined.

(** ** The alias tables *)

Section TableFacts.

Lemma cstr_no_nul (buf : list Z) : Forall (fun x => x <> 0) (cstr buf).
Proof.
  induction buf as [|c r IH]; simpl; [constructor|].
  destruct (c =? 0) eqn:E; constructor; [lia | exact IH].
Qed.

Lemma cstr_id (s : list Z) : Forall (fun x => x <> 0) s -> cstr s = s.
Proof.
  induction 1 as [|c r Hc Hr IH]; simpl; [reflexivity|].
  destruct (c =? 0) eqn:E; [lia | now rewrite IH].
Qed.

Lemma skip_s1_idem (s : list Z) : skip_s1 (skip_s1 s) = skip_s1 s.
Proof.
  induction s as [|c r IH]; simpl; [reflexivity|].
  destruct (IS_PUNCT_OR_SPACE c) eqn:E; [exact IH|].
  simpl. now rewrite E.
Qed.

Lemma aliascmp_loop_skip (s2 : list Z) : forall s1,
  aliascmp_loop (skip_s1 s1 ++ [0]) s2 = aliascmp_loop (s1 ++ [0]) s2.
Proof.
  induction s2 as [|c2 r2 IH]; intros s1.
  - now rewrite !aliascmp_loop_nil, skip_s1_idem.
  - rewrite !aliascmp_loop_cons, skip_s1_idem, IH. reflexivity.
Qed.

Lemma aliascmp_loop_refl (n : list Z) :
  Forall (fun x => x <> 0) n -> aliascmp_loop (n ++ [0]) n = Some 0.
Proof.
  induction 1 as [|c r Hc Hr IH]; [reflexivity|].
  rewrite aliascmp_loop_cons.
  destruct (IS_PUNCT_OR_SPACE c) eqn:E.
  - rewrite <- aliascmp_loop_skip. simpl. rewrite E.
    now rewrite aliascmp_loop_skip.
  - simpl. rewrite E. simpl. now rewrite Z.eqb_refl.
Qed.

Lemma aliascmp_refl (n : list Z) :
  n <> [] -> Forall (fun x => x <> 0) n -> aliascmp n n = Some 0.
Proof.
  intros Hne Hnz. destruct n as [|c r]; [congruence|].
  now apply aliascmp_loop_refl.
Qed.

Lemma tolower_zero (c : Z) : tolower 0 = tolower c -> c = 0.
Proof.
  unfold tolower. simpl.
  destruct ((65 <=? c) && (c <=? 90)) eqn:E; lia.
Qed.

Lemma aliascmp_loop_defined (s2 : list Z) : forall s1,
  Forall (fun x => x <> 0) s2 ->
  exists r, aliascmp_loop (s1 ++ [0]) s2 = Some r.
Proof.
  induction s2 as [|c2 r2 IH]; intros s1 Hnz.
  - rewrite aliascmp_loop_nil. eauto.
  - inversion Hnz as [|? ? Hc Hr]; subst. rewrite aliascmp_loop_cons.
    destruct (IS_PUNCT_OR_SPACE c2); [now apply IH|].
    destruct (tolower (hd 0 (skip_s1 s1)) =? tolower c2) eqn:Et; [|eauto].
    destruct (skip_s1 s1) as [|c1 r1]; [|now apply IH].
    cbv [hd] in Et. apply Z.eqb_eq, tolower_zero in Et. contradiction.
Qed.

Lemma aliascmp_defined (s1 s2 : list Z) :
  Forall (fun x => x <> 0) s2 -> exists r, aliascmp s1 s2 = Some r.
Proof.
  intros Hnz. destruct s2 as [|c r]; [simpl; eauto|].
  now apply aliascmp_loop_defined.
Qed.

End TableFacts.

Section SearchFacts.

Variable alias_str : list Z.
Hypothesis alias_no_nul : Forall (fun x => x <> 0) alias_str.

Lemma search_canon_defined chain :
  exists r, search_canon chain alias_str = Some r.
Proof.
  induction chain as [|c next IH]; simpl; [eauto|].
  destruct (aliascmp_defined (name c) alias_str alias_no_nul) as [r ->].
  destruct (r =? 0); eauto.
Qed.

Lemma search_alias_defined chain :
  exists r, search_alias chain alias_str = Some r.
Proof.
  induction chain as [|a next IH]; simpl; [eauto|].
  destruct (aliascmp_defined (alias_name a) alias_str alias_no_nul) as [r ->].
  destruct (r =? 0); eauto.
Qed.

Lemma search_canon_found chain c :
  search_canon chain alias_str = Some (Some c) ->
  In c chain /\ aliascmp (name c) alias_str = Some 0.
Proof.
  induction chain as [|d next IH]; simpl; [discriminate|].
  destruct (aliascmp (name d) alias_str) as [r|] eqn:E; [|discriminate].
  destruct (r =? 0) eqn:Er.
  - intros H. injection H as ->. apply Z.eqb_eq in Er. subst. auto.
  - intros H. destruct (IH H). auto.
Qed.

Lemma search_alias_found chain a :
  search_alias chain alias_str = Some (Some a) ->
  In a chain /\ aliascmp (alias_name a) alias_str = Some 0.
Proof.
  induction chain as [|d next IH]; simpl; [discriminate|].
  destruct (aliascmp (alias_name d) alias_str) as [r|] eqn:E; [|discriminate].
  destruct (r =? 0) eqn:Er.
  - intros H. injection H as ->. apply Z.eqb_eq in Er. subst. auto.
  - intros H. destruct (IH H). auto.
Qed.

Lemma search_canon_none chain :
  search_canon chain alias_str = Some None ->
  forall c, In c chain -> aliascmp (name c) alias_str <> Some 0.
Proof.
  induction chain as [|d next IH]; simpl; [tauto|].
  destruct (aliascmp (name d) alias_str) as [r|] eqn:E; [|discriminate].
  destruct (r =? 0) eqn:Er; [discriminate|].
  intros H c [<-|Hin]; [|now apply IH].
  rewrite E. intros [= ->]. discriminate.
Qed.

Lemma search_alias_none chain :
  search_alias chain alias_str = Some None ->
  forall a, In a chain -> aliascmp (alias_name a) alias_str <> Some 0.
Proof.
  induction chain as [|d next IH]; simpl; [tauto|].
  destruct (aliascmp (alias_name d) alias_str) as [r|] eqn:E; [|discriminate].
  destruct (r =? 0) eqn:Er; [discriminate|].
  intros H a [<-|Hin]; [|now apply IH].
  rewrite E. intros [= ->]. discriminate.
Qed.

Lemma canonicalise_defined t :
  exists r, parserutils_charset_alias_canonicalise t alias_str = Some r.
Proof.
  unfold parserutils_charset_alias_canonicalise.
  destruct (search_canon_defined
              (canon_tab t (parserutils_charset_hash_val alias_str)))
    as [[c|] ->]; [eauto|].
  destruct (search_alias_defined
              (alias_tab t (parserutils_charset_hash_val alias_str)))
    as [[a|] ->]; eauto.
Qed.

End SearchFacts.

Lemma canonicalise_cstr_defined t enc :
  parserutils_charset_alias_canonicalise t (cstr enc) =
  Some (canonicalise_cstr t enc).
Proof.
  unfold canonicalise_cstr.
  destruct (canonicalise_defined (cstr enc) (cstr_no_nul enc) t) as [r ->].
  reflexivity.
Qed.

Section LoadFacts.

Variable alloc_ok : nat -> bool.

Lemma empty_tables_ok : tables_ok empty_tables.
Proof. split; intros i x Hin; destruct Hin. Qed.

Lemma create_canon_ok canon mibenum t :
  tables_ok t ->
  tables_ok (snd (parserutils_charset_create_canon alloc_ok canon mibenum t)).
Proof.
  intros [Hc Ha].
  unfold parserutils_charset_create_canon, alloc, tables_ok, set_bucket.
  destruct (alloc_ok (heap_next t)); cbn; split; auto.
  intros i c.
  destruct (i =? parserutils_charset_hash_val (cstr canon)) eqn:E; auto.
  apply Z.eqb_eq in E. intros [<-|Hin]; cbn; auto using cstr_no_nul.
  subst i. auto.
Qed.

Lemma create_alias_ok a c t :
  tables_ok t ->
  tables_ok (snd (parserutils_charset_create_alias alloc_ok a c t)).
Proof.
  intros [Hc Ha].
  unfold parserutils_charset_create_alias, alloc, tables_ok, set_bucket.
  destruct (alloc_ok (heap_next t)); cbn; split; auto.
  intros i x.
  destruct (i =? parserutils_charset_hash_val (cstr a)) eqn:E; auto.
  apply Z.eqb_eq in E. intros [<-|Hin]; cbn; auto using cstr_no_nul.
  subst i. auto.
Qed.

Lemma create_aliases_ok als c : forall t,
  tables_ok t -> tables_ok (create_aliases alloc_ok als c t).
Proof.
  induction als as [|a rest IH]; intros t Ht; simpl; [assumption|].
  pose proof (create_alias_ok a c t Ht) as H.
  destruct (parserutils_charset_create_alias alloc_ok a c t) as [e t'].
  simpl in H. destruct e; auto.
Qed.

Lemma aliases_create_ok file : forall t,
  tables_ok t -> tables_ok (parserutils_charset_aliases_create alloc_ok file t).
Proof.
  induction file as [|l rest IH]; intros t Ht; simpl; [assumption|].
  pose proof (create_canon_ok (l_canon l) (uint16 (l_mib l)) t Ht) as H.
  destruct (parserutils_charset_create_canon alloc_ok (l_canon l)
              (uint16 (l_mib l)) t) as [[cf|] t']; simpl in H.
  - apply IH. now apply create_aliases_ok.
  - now apply IH.
Qed.

End LoadFacts.

(** Lookup in tables that satisfy [tables_ok]. *)
Section LookupFacts.

Variable t : alias_tables.
Hypothesis t_ok : tables_ok t.

Lemma canonicalise_alias a i :
  In a (alias_tab t i) ->
  alias_name a <> [] ->
  (forall c' j, In c' (canon_tab t j) ->
     aliascmp (name c') (alias_name a) = Some 0 -> c' = canon a) ->
  (forall a' j, In a' (alias_tab t j) ->
     aliascmp (alias_name a') (alias_name a) = Some 0 ->
     canon a' = canon a) ->
  parserutils_charset_alias_canonicalise t (alias_name a) =
  Some (Some (canon a)).
Proof.
  intros Hin Hne Hcan Hal. destruct t_ok as [_ Ha].
  destruct (Ha i a Hin) as [Hh Hnz].
  unfold parserutils_charset_alias_canonicalise. rewrite Hh.
  destruct (search_canon_defined _ Hnz (canon_tab t i)) as [[c'|] E];
    rewrite E.
  - apply search_canon_found in E. destruct E as [Hc' Hm].
    now rewrite (Hcan c' i Hc' Hm).
  - destruct (search_alias_defined _ Hnz (alias_tab t i)) as [[a'|] E'];
      rewrite E'.
    + apply search_alias_found in E'. destruct E' as [Ha' Hm].
      now rewrite (Hal a' i Ha' Hm).
    + exfalso. apply (search_alias_none _ _ E' a Hin).
      now apply aliascmp_refl.
Qed.

Lemma canonicalise_canon c i :
  In c (canon_tab t i) ->
  name c <> [] ->
  (forall c' j, In c' (canon_tab t j) ->
     aliascmp (name c') (name c) = Some 0 -> c' = c) ->
  parserutils_charset_alias_canonicalise t (name c) = Some (Some c).
Proof.
  intros Hin Hne Hcan. destruct t_ok as [Hc _].
  destruct (Hc i c Hin) as [Hh Hnz].
  unfold parserutils_charset_alias_canonicalise. rewrite Hh.
  destruct (search_canon_defined _ Hnz (canon_tab t i)) as [[c'|] E];
    rewrite E.
  - apply search_canon_found in E. destruct E as [Hc' Hm].
    now rewrite (Hcan c' i Hc' Hm).
  - exfalso. apply (search_canon_none _ _ E c Hin).
    now apply aliascmp_refl.
Qed.

Lemma canonicalise_unknown n :
  Forall (fun x => x <> 0) n ->
  (forall c j, In c (canon_tab t j) -> aliascmp (name c) n <> Some 0) ->
  (forall a j, In a (alias_tab t j) -> aliascmp (alias_name a) n <> Some 0) ->
  parserutils_charset_alias_canonicalise t n = Some None.
Proof.
  intros Hnz Hcan Hal.
  unfold parserutils_charset_alias_canonicalise.
  destruct (search_canon_defined _ Hnz
              (canon_tab t (parserutils_charset_hash_val n))) as [[c'|] E];
    rewrite E.
  - apply search_canon_found in E. destruct E as [Hc' Hm].
    now destruct (Hcan _ _ Hc').
  - destruct (search_alias_defined _ Hnz
                (alias_tab t (parserutils_charset_hash_val n))) as [[a'|] E'];
      rewrite E'; [|reflexivity].
    apply search_alias_found in E'. destruct E' as [Ha' Hm].
    now destruct (Hal _ _ Ha').
Qed.

End LookupFacts.

(** C2 as stated fails: after loading [shadowed_file] the first alias [x]
    is registered with canonical [A], yet looking [x] up returns [B]. *)
Lemma C2_counterexample :
  ~ (forall a i, In a (alias_tab shadowed_tables i) ->
       parserutils_charset_alias_canonicalise shadowed_tables (alias_name a)
       = Some (Some (canon a))).
Proof.
  intros H.
  specialize (H (mk_alias 1 (mk_canon 0 1 1 (chars "A")) 1 (chars "x"))
                (parserutils_charset_hash_val (chars "x"))).
  assert (Hin : In (mk_alias 1 (mk_canon 0 1 1 (chars "A")) 1 (chars "x"))
                  (alias_tab shadowed_tables
                     (parserutils_charset_hash_val (chars "x")))).
  { vm_compute. right. left. reflexivity. }
  specialize (H Hin). vm_compute in H. discriminate H.
Qed.

(** C2 (amended). After the alias table is loaded: a registered alias [a]
    with a non-empty name resolves to its canonical record when every
    registered name that compares equal to it is that canonical or one of
    its aliases; a registered canonical [c] with a non-empty name resolves
    to itself when no other registered canonical compares equal to it; and
    a name that compares equal to no registered canonical and no
    registered alias resolves to NULL, so its MIB enum is 0. *)
Theorem C2_canonicalise_registered (alloc_ok : nat -> bool)
    (file : list alias_line) :
  let t := parserutils_charset_aliases_create alloc_ok file empty_tables in
  (forall a i,
     In a (alias_tab t i) ->
     alias_name a <> [] ->
     (forall c' j, In c' (canon_tab t j) ->
        aliascmp (name c') (alias_name a) = Some 0 -> c' = canon a) ->
     (forall a' j, In a' (alias_tab t j) ->
        aliascmp (alias_name a') (alias_name a) = Some 0 ->
        canon a' = canon a) ->
     parserutils_charset_alias_canonicalise t (alias_name a) =
     Some (Some (canon a))) /\
  (forall c i,
     In c (canon_tab t i) ->
     name c <> [] ->
     (forall c' j, In c' (canon_tab t j) ->
        aliascmp (name c') (name c) = Some 0 -> c' = c) ->
     parserutils_charset_alias_canonicalise t (name c) = Some (Some c)) /\
  (forall n,
     Forall (fun x => x <> 0) n ->
     (forall c j, In c (canon_tab t j) -> aliascmp (name c) n <> Some 0) ->
     (forall a j, In a (alias_tab t j) ->
        aliascmp (alias_name a) n <> Some 0) ->
     parserutils_charset_alias_canonicalise t n = Some None /\
     parserutils_charset_mibenum_from_name t n = Some 0).
Proof.
  intros t.
  assert (Ht : tables_ok t) by apply aliases_create_ok, empty_tables_ok.
  split; [|split].
  - intros a i. now apply canonicalise_alias.
  - intros c i. now apply canonicalise_canon.
  - intros n Hnz Hc Ha.
    pose proof (canonicalise_unknown t n Hnz Hc Ha) as E.
    split; [exact E|].
    unfold parserutils_charset_mibenum_from_name. now rewrite E.
Qed.

Lemma utf8_tables_canon j c :
  In c (canon_tab utf8_tables j) -> c = utf8_canon.
Proof.
  change (canon_tab utf8_tables j)
    with (if j =? 8 then [utf8_canon] else []).
  destruct (j =? 8); simpl; intuition.
Qed.

Lemma utf8_tables_alias j a :
  In a (alias_tab utf8_tables j) -> a = utf8_alias.
Proof.
  change (alias_tab utf8_tables j)
    with (if j =? 8 then [utf8_alias] else []).
  destruct (j =? 8); simpl; intuition.
Qed.

Lemma C2_witness :
  parserutils_charset_alias_canonicalise utf8_tables (chars "utf8") =
    Some (Some utf8_canon) /\
  parserutils_charset_alias_canonicalise utf8_tables (chars "UTF-8") =
    Some (Some utf8_canon) /\
  parserutils_charset_alias_canonicalise utf8_tables (chars "moose") =
    Some None.
Proof.
  destruct (C2_canonicalise_registered (fun _ => true) utf8_file)
    as (Ha & Hc & Hn).
  split; [|split].
  - apply (Ha utf8_alias 8).
    + left. reflexivity.
    + discriminate.
    + intros c' j Hin _. now apply utf8_tables_canon in Hin.
    + intros a' j Hin _. apply utf8_tables_alias in Hin. now subst.
  - apply (Hc utf8_canon 8).
    + left. reflexivity.
    + discriminate.
    + intros c' j Hin _. now apply utf8_tables_canon in Hin.
  - apply (Hn (chars "moose")).
    + repeat constructor; discriminate.
    + intros c j Hin. apply utf8_tables_canon in Hin. subst. discriminate.
    + intros a j Hin. apply utf8_tables_alias in Hin. subst. discriminate.
Defined.

(** ** The codec registry and the filter *)

Import Codec Filter.

Section FilterFacts.

Context {impl : Type}.
Variable handler_table : list (parserutils_charset_handler impl).
Variable t : alias_tables.

Lemma codec_create_fields charset codec :
  parserutils_charset_codec_create handler_table t charset = Some codec ->
  errormode codec = PARSERUTILS_CHARSET_CODEC_ERROR_LOOSE /\
  exists canon,
    canonicalise_cstr t charset = Some canon /\
    mibenum codec = mib_enum canon.
Proof.
  unfold parserutils_charset_codec_create.
  destruct (canonicalise_cstr t charset) as [canon|]; [|discriminate].
  destruct (find _ handler_table) as [h|]; [|discriminate].
  destruct (create h (name canon)) as [[p vt]|]; [|discriminate].
  intros [= <-]. simpl. eauto.
Qed.

Lemma loose_codec_None : @loose_codec impl None.
Proof. intros c H. discriminate. Qed.

Lemma loose_codec_create charset :
  loose_codec (parserutils_charset_codec_create handler_table t charset).
Proof. intros c H. now apply codec_create_fields in H. Qed.

Lemma set_encoding_loose f enc :
  loose_filter f ->
  loose_filter (snd (filter_set_encoding handler_table t f enc)).
Proof.
  intros [Hr Hw]. unfold filter_set_encoding.
  destruct (mibenum_from_cstr t enc =? 0); [now split|].
  destruct (encoding f =? mibenum_from_cstr t enc); [now split|].
  pose proof (loose_codec_create enc) as Hc.
  destruct (parserutils_charset_codec_create handler_table t enc);
    simpl; split; auto using loose_codec_None.
Qed.

Lemma set_defaults_result (f0 : parserutils_filter impl) e f :
  filter_set_defaults handler_table t f0 = (e, f) ->
  e = PARSERUTILS_OK ->
  read_codec f <> None /\ write_codec f = None /\ encoding f <> 0 /\
  leftover f = leftover f0 /\ loose_codec (read_codec f).
Proof.
  unfold filter_set_defaults, filter_set_encoding. cbn [encoding].
  destruct (mibenum_from_cstr t (chars "UTF-8") =? 0) eqn:E0.
  { intros [= <- <-]. discriminate. }
  apply Z.eqb_neq in E0.
  destruct (0 =? mibenum_from_cstr t (chars "UTF-8")) eqn:E1.
  { apply Z.eqb_eq in E1. congruence. }
  pose proof (loose_codec_create (chars "UTF-8")) as Hc.
  destruct (parserutils_charset_codec_create handler_table t (chars "UTF-8"))
    as [rc|].
  - intros [= <- <-] _. cbn. repeat split; auto. discriminate.
  - intros [= <- <-]. discriminate.
Qed.

Lemma filter_create_loose int_enc mem f :
  parserutils_filter_create handler_table t int_enc mem = Some f ->
  loose_filter f /\ write_codec f <> None /\ read_codec f <> None /\
  encoding f <> 0 /\ leftover f = false.
Proof.
  unfold parserutils_filter_create.
  destruct mem; simpl; [|discriminate].
  destruct (filter_set_defaults handler_table t
              (mk_filter None None false None 0)) as [e f1] eqn:Ed.
  destruct e; try discriminate.
  destruct (set_defaults_result _ _ _ Ed eq_refl) as (Hr & _ & He & Hl & Hc).
  pose proof (loose_codec_create int_enc) as Hw.
  destruct (parserutils_charset_codec_create handler_table t int_enc)
    as [wc|]; [|discriminate].
  intros [= <-]. cbn.
  repeat split; try discriminate; auto.
Qed.

Lemma encode_loose (c : option (parserutils_charset_codec impl))
    source destlen e c' source' written :
  parserutils_charset_codec_encode c source destlen =
    Ret (e, c', source', written) ->
  loose_codec c -> loose_codec c'.
Proof.
  unfold parserutils_charset_codec_encode.
  destruct c as [c|]; [destruct source as [src|]|].
  - destruct (v_encode _ _ _ _ _ _) as [r| | |]; cbn [bind]; try discriminate.
    intros [= _ <- _ _] Hl codec [= <-]. cbn. now apply Hl.
  - intros [= _ <- _ _]. auto.
  - intros [= _ <- _ _]. auto.
Qed.

Lemma decode_loose (c : option (parserutils_charset_codec impl))
    source destlen e c' source' written :
  parserutils_charset_codec_decode c source destlen =
    Ret (e, c', source', written) ->
  loose_codec c -> loose_codec c'.
Proof.
  unfold parserutils_charset_codec_decode.
  destruct c as [c|]; [destruct source as [src|]|].
  - destruct (v_decode _ _ _ _ _ _) as [r| | |]; cbn [bind]; try discriminate.
    intros [= _ <- _ _] Hl codec [= <-]. cbn. now apply Hl.
  - intros [= _ <- _ _]. auto.
  - intros [= _ <- _ _]. auto.
Qed.

Lemma reset_loose (c : option (parserutils_charset_codec impl)) :
  loose_codec c -> loose_codec (snd (parserutils_charset_codec_reset c)).
Proof.
  unfold parserutils_charset_codec_reset. destruct c as [c|]; [|auto].
  destruct (v_reset (handler c) (priv c)) as [e p]. cbn.
  intros Hl codec [= <-]. cbn. now apply Hl.
Qed.

Lemma process_loop_loose fuel : forall (f : parserutils_filter impl)
    data output outlen r,
  process_loop fuel f data output outlen = Ret r ->
  loose_filter f -> loose_filter (c_filter r).
Proof.
  induction fuel as [|fuel IH]; intros f data output outlen r.
  - destruct data; cbn; [|discriminate]. now intros [= <-].
  - destruct data as [|x data]; [cbn; now intros [= <-]|].
    cbn [process_loop].
    destruct (parserutils_charset_codec_decode (read_codec f) _ _)
      as [[[[re rc] data'] pivot]| | |] eqn:Ed; cbn [bind]; try discriminate.
    cbn [write_codec].
    destruct (if 0 <? _ then _ else _)
      as [[[[we wc] pivot'] out]| | |] eqn:Ee; cbn [bind]; try discriminate.
    intros H [Hr Hw].
    assert (Hrc : loose_codec rc) by (eapply decode_loose; eauto).
    assert (Hwc : loose_codec wc).
    { destruct (0 <? _) in Ee.
      - eapply encode_loose; eauto.
      - injection Ee as _ <- _ _. exact Hw. }
    destruct (negb (error_eqb we PARSERUTILS_OK)).
    { injection H as <-. split; assumption. }
    destruct (negb (error_eqb re PARSERUTILS_OK) &&
              negb (error_eqb re PARSERUTILS_NOMEM)).
    { injection H as <-. split; assumption. }
    eapply IH; [exact H|]. split; assumption.
Qed.

Lemma process_chunk_loose fuel (f : parserutils_filter impl) data outlen r :
  parserutils_filter_process_chunk fuel f data outlen = Ret r ->
  loose_filter f -> loose_filter (c_filter r).
Proof.
  unfold parserutils_filter_process_chunk. intros H [Hr Hw].
  destruct (leftover f).
  - destruct (parserutils_charset_codec_encode (write_codec f) _ _)
      as [[[[we wc] pivot'] out]| | |] eqn:Ee; cbn [bind] in H;
      try discriminate.
    assert (Hwc : loose_codec wc) by (eapply encode_loose; eauto).
    destruct (negb (error_eqb we PARSERUTILS_OK)).
    + injection H as <-. split; assumption.
    + eapply process_loop_loose; [exact H|]. split; assumption.
  - eapply process_loop_loose; [exact H|]. split; assumption.
Qed.

Lemma filter_reset_loose (f : parserutils_filter impl) :
  loose_filter f -> loose_filter (snd (parserutils_filter_reset f)).
Proof.
  intros [Hr Hw]. unfold parserutils_filter_reset.
  pose proof (reset_loose _ Hr) as Hr'. pose proof (reset_loose _ Hw) as Hw'.
  destruct (parserutils_charset_codec_reset (read_codec f)) as [e1 rc].
  destruct (parserutils_charset_codec_reset (write_codec f)) as [e2 wc].
  cbn [snd] in Hr', Hw'.
  destruct (negb (error_eqb e1 PARSERUTILS_OK)); [split; assumption|].
  destruct (negb (error_eqb e2 PARSERUTILS_OK)); split; assumption.
Qed.

Lemma process_loop_output fuel : forall (f : parserutils_filter impl)
    data output outlen r,
  process_loop fuel f data output outlen = Ret r ->
  exists more, c_output r = output ++ more.
Proof.
  induction fuel as [|fuel IH]; intros f data output outlen r.
  - destruct data; cbn; [|discriminate]. intros [= <-]. exists [].
    cbn. now rewrite app_nil_r.
  - destruct data as [|x data].
    { cbn. intros [= <-]. exists []. cbn. now rewrite app_nil_r. }
    cbn [process_loop].
    destruct (parserutils_charset_codec_decode (read_codec f) _ _)
      as [[[[re rc] data'] pivot]| | |] eqn:Ed; cbn [bind]; try discriminate.
    cbn [write_codec].
    destruct (if 0 <? _ then _ else _)
      as [[[[we wc] pivot'] out]| | |] eqn:Ee; cbn [bind]; try discriminate.
    intros H.
    destruct (negb (error_eqb we PARSERUTILS_OK)).
    { injection H as <-. now exists out. }
    destruct (negb (error_eqb re PARSERUTILS_OK) &&
              negb (error_eqb re PARSERUTILS_NOMEM)).
    { injection H as <-. now exists out. }
    apply IH in H. destruct H as [more H]. exists (out ++ more).
    rewrite H. now rewrite app_assoc.
Qed.

End FilterFacts.

(** C3. [parserutils_filter_setopt] with SET_ENCODING: a name that does
    not canonicalise gives Invalid and the filter is unchanged; a name
    whose canonical MIB enum is the filter's current encoding gives Ok and
    the filter is unchanged; any other name has the read codec replaced by
    a newly created one (the encoding setting following it), or by NULL
    with NoMem when none can be created; the write codec is the same in
    every case.  MIB enum 0 is the library's "not found" value, so the
    canonical MIB enum of a name is taken to be different from it. *)
Theorem C3_filter_setopt_encoding {impl : Type}
    (handler_table : list (parserutils_charset_handler impl))
    (t : alias_tables) (f : parserutils_filter impl) (name : list Z) :
  (canonicalise_cstr t name = None ->
   parserutils_filter_setopt handler_table t f name =
   (PARSERUTILS_INVALID, f)) /\
  (forall c, canonicalise_cstr t name = Some c -> mib_enum c <> 0 ->
     mib_enum c = encoding f ->
     parserutils_filter_setopt handler_table t f name = (PARSERUTILS_OK, f)) /\
  (forall c, canonicalise_cstr t name = Some c -> mib_enum c <> 0 ->
     mib_enum c <> encoding f ->
     parserutils_filter_setopt handler_table t f name =
     match parserutils_charset_codec_create handler_table t name with
     | Some rc =>
         (PARSERUTILS_OK,
          mk_filter (Some rc) (write_codec f) (leftover f) (pivot_left f)
                    (mib_enum c))
     | None =>
         (PARSERUTILS_NOMEM,
          mk_filter None (write_codec f) (leftover f) (pivot_left f)
                    (encoding f))
     end) /\
  write_codec (snd (parserutils_filter_setopt handler_table t f name)) =
  write_codec f.
Proof.
  unfold parserutils_filter_setopt, filter_set_encoding, mibenum_from_cstr.
  repeat split.
  - intros ->. reflexivity.
  - intros c -> Hnz He.
    destruct (mib_enum c =? 0) eqn:E0; [lia|].
    rewrite <- He, Z.eqb_refl. reflexivity.
  - intros c -> Hnz Hne.
    destruct (mib_enum c =? 0) eqn:E0; [lia|].
    destruct (encoding f =? mib_enum c) eqn:E1; [lia|].
    destruct (parserutils_charset_codec_create handler_table t name);
      reflexivity.
  - destruct (canonicalise_cstr t name) as [c|]; [|reflexivity].
    destruct (mib_enum c =? 0); [reflexivity|].
    destruct (encoding f =? mib_enum c); [reflexivity|].
    destruct (parserutils_charset_codec_create handler_table t name);
      reflexivity.
Qed.

(** C4. In the leftover state [parserutils_filter_process_chunk] first
    hands the retained pivot tail to the [encode] function of the write
    codec, with the caller's output buffer.  When that call returns an
    error, the call returns it at once: what was encoded is in the output,
    what was not stays retained, the filter stays in the leftover state,
    and [*data] and [*len] are as the caller passed them.  When it returns
    Ok the leftover state is cleared and the conversion loop runs behind
    the bytes just written, so whatever the call then returns, its output
    starts with the encoded tail.  Without a write codec or without a
    retained tail the call returns BADPARM and changes nothing. *)
Theorem C4_leftover_flush_first {impl : Type} (fuel : nat)
    (f : parserutils_filter impl) (data : list Z) (outlen : Z) :
  leftover f = true ->
  (forall wc pivot r,
     write_codec f = Some wc -> pivot_left f = Some pivot ->
     v_encode (handler wc) (Codec.mibenum wc) (errormode wc) (priv wc)
       pivot outlen = Ret r ->
     let wc' :=
       Some (mk_codec (Codec.mibenum wc) (errormode wc) (r_impl r)
                      (handler wc)) in
     let outlen' := outlen - Z.of_nat (List.length (r_written r)) in
     (r_error r <> PARSERUTILS_OK ->
      parserutils_filter_process_chunk fuel f data outlen =
      Ret (mk_chunk (r_error r)
             (mk_filter (read_codec f) wc' true (Some (r_source r))
                        (encoding f))
             data (r_written r) outlen')) /\
     (r_error r = PARSERUTILS_OK ->
      parserutils_filter_process_chunk fuel f data outlen =
      process_loop fuel (mk_filter (read_codec f) wc' false None (encoding f))
        data (r_written r) outlen') /\
     (forall res,
        parserutils_filter_process_chunk fuel f data outlen = Ret res ->
        exists more, c_output res = r_written r ++ more)) /\
  (write_codec f = None \/ pivot_left f = None ->
   parserutils_filter_process_chunk fuel f data outlen =
   Ret (mk_chunk PARSERUTILS_BADPARM f data [] outlen)).
Proof.
  intros Hl. split.
  - intros wc pivot r Hw Hp He wc' outlen'.
    assert (Hbad : r_error r <> PARSERUTILS_OK ->
              parserutils_filter_process_chunk fuel f data outlen =
              Ret (mk_chunk (r_error r)
                     (mk_filter (read_codec f) wc' true (Some (r_source r))
                                (encoding f))
                     data (r_written r) outlen')).
    { intros Hne. unfold parserutils_filter_process_chunk.
      rewrite Hl, Hw, Hp. unfold parserutils_charset_codec_encode.
      rewrite He. cbn [bind].
      destruct (r_error r); try reflexivity. congruence. }
    assert (Hok : r_error r = PARSERUTILS_OK ->
              parserutils_filter_process_chunk fuel f data outlen =
              process_loop fuel
                (mk_filter (read_codec f) wc' false None (encoding f))
                data (r_written r) outlen').
    { intros Hr. unfold parserutils_filter_process_chunk.
      rewrite Hl, Hw, Hp. unfold parserutils_charset_codec_encode.
      rewrite He. cbn [bind]. rewrite Hr. reflexivity. }
    split; [exact Hbad|]. split; [exact Hok|].
    intros res Hres.
    destruct (r_error r) eqn:Er.
    1: { rewrite Hok in Hres by reflexivity.
         now apply process_loop_output in Hres. }
    all: rewrite Hbad in Hres by discriminate; injection Hres as <-;
      exists []; cbn; now rewrite app_nil_r.
  - intros Hnone. unfold parserutils_filter_process_chunk. rewrite Hl.
    unfold parserutils_charset_codec_encode.
    destruct f as [rc wc lo pl enc]. cbn in *. subst lo.
    destruct Hnone as [-> | ->];
      [|destruct wc]; cbn; rewrite Z.sub_0_r; reflexivity.
Qed.

(** C10. A codec returned by [parserutils_charset_codec_create] is in
    Loose error mode and carries the MIB enum of the canonical form of the
    requested name, whichever handler instantiated it.  The codecs of a
    filter are created this way and never reconfigured: they are Loose
    after [parserutils_filter_create] and stay Loose over
    [filter_set_encoding], [parserutils_filter_process_chunk] and
    [parserutils_filter_reset]; so is the filter of a stream that
    [parserutils_inputstream_create] returns. *)
Theorem C10_codec_create_loose {impl : Type}
    (handler_table : list (parserutils_charset_handler impl))
    (t : alias_tables) :
  (forall charset codec,
     parserutils_charset_codec_create handler_table t charset = Some codec ->
     errormode codec = PARSERUTILS_CHARSET_CODEC_ERROR_LOOSE /\
     exists canon,
       canonicalise_cstr t charset = Some canon /\
       mibenum codec = mib_enum canon) /\
  (forall int_enc mem f,
     parserutils_filter_create handler_table t int_enc mem = Some f ->
     loose_filter f) /\
  (forall f enc,
     loose_filter f ->
     loose_filter (snd (filter_set_encoding handler_table t f enc))) /\
  (forall fuel (f : parserutils_filter impl) data outlen r,
     parserutils_filter_process_chunk fuel f data outlen = Ret r ->
     loose_filter f -> loose_filter (c_filter r)) /\
  (forall f : parserutils_filter impl,
     loose_filter f -> loose_filter (snd (parserutils_filter_reset f))) /\
  (forall enc enc_src detect stream_mem raw_buf utf8_buf filter_mem junk s,
     InputStream.parserutils_inputstream_create handler_table t enc enc_src
       detect stream_mem raw_buf utf8_buf filter_mem junk = Some s ->
     loose_filter (InputStream.input s)).
Proof.
  split; [|split; [|split; [|split; [|split]]]].
  - apply codec_create_fields.
  - intros int_enc mem f H. now apply filter_create_loose in H.
  - apply set_encoding_loose.
  - apply process_chunk_loose.
  - apply filter_reset_loose.
  - intros enc enc_src detect stream_mem raw_buf utf8_buf filter_mem junk s.
    unfold InputStream.parserutils_inputstream_create.
    destruct stream_mem; cbn [negb]; [|discriminate].
    destruct raw_buf as [rb|]; [|discriminate].
    destruct utf8_buf as [ub|]; [|discriminate].
    destruct (parserutils_filter_create handler_table t (chars "UTF-8")
                filter_mem) as [f|] eqn:Ef; [|discriminate].
    apply filter_create_loose in Ef. destruct Ef as (Hl & _).
    destruct enc as [e|].
    + destruct (negb (mibenum_from_cstr t e =? 0)).
      * pose proof (set_encoding_loose handler_table t f e Hl) as Hs.
        unfold parserutils_filter_setopt.
        destruct (filter_set_encoding handler_table t f e) as [error f'].
        destruct (negb (error_eqb error PARSERUTILS_OK) &&
                  negb (error_eqb error PARSERUTILS_INVALID)); [discriminate|].
        intros [= <-]. exact Hs.
      * intros [= <-]. exact Hl.
    + intros [= <-]. exact Hl.
Qed.

(** ** The iconv codec *)

Import IconvCodec.

Section IconvFacts.

Variable cd : Type.
Variable iconv : cd -> list Z -> Z -> iconv_return cd.
Variable ucs4_junk : list Z.

Lemma set_read_same (c : iconv_codec cd) :
  set_read cd c (read_buf cd c) (read_len cd c) = c.
Proof. destruct c; reflexivity. Qed.


Lemma decode_fresh fuel mode (c : iconv_codec cd) source destlen :
  read_len cd c = 0 -> inval_len cd c = 0 ->
  iconv_codec_decode cd iconv ucs4_junk fuel mode c source destlen =
  decode_loop cd iconv ucs4_junk fuel mode c source destlen [].
Proof.
  intros Hr Hi. destruct c as [rcd ib il rb rl wcd wb wl].
  cbn in Hr, Hi. subst rl il. reflexivity.
Qed.

(** [iconv] has converted one character. *)
Lemma read_char_converted fuel mode (c : iconv_codec cd) source destlen :
  let r := iconv (read_cd cd c) source 4 in
  (ic_failed cd r = None \/
   List.length (ic_in cd r) <> List.length source) ->
  List.length (ic_out cd r) = 4%nat ->
  iconv_codec_read_char cd iconv ucs4_junk fuel mode c source destlen =
  if destlen <? 4 then
    Ret (PARSERUTILS_NOMEM,
         clear_inval cd
           (set_read cd (set_read_cd cd c (ic_cd cd r))
                     (ic_out cd r :: tl (read_buf cd c)) 1),
         ic_in cd r, [])
  else
    Ret (PARSERUTILS_OK, clear_inval cd (set_read_cd cd c (ic_cd cd r)),
         ic_in cd r, ic_out cd r).
Proof.
  intros r Hconv Hlen. unfold iconv_codec_read_char. fold r.
  assert (Hu : firstn 4 (ic_out cd r ++
                         skipn (List.length (ic_out cd r)) ucs4_junk) =
               ic_out cd r).
  { rewrite firstn_app, <- Hlen, firstn_all, Nat.sub_diag. cbn.
    apply app_nil_r. }
  rewrite Hu.
  assert (Hread :
    (let '(error, c0, written) :=
       iconv_codec_output_decoded_char cd (set_read_cd cd c (ic_cd cd r))
         (ic_out cd r) destlen in
     Ret (error, clear_inval cd c0,
          if negb (error_eqb error PARSERUTILS_OK) &&
             negb (error_eqb error PARSERUTILS_NOMEM)
          then source else ic_in cd r, written)) =
    if destlen <? 4 then
      Ret (PARSERUTILS_NOMEM,
           clear_inval cd
             (set_read cd (set_read_cd cd c (ic_cd cd r))
                       (ic_out cd r :: tl (read_buf cd c)) 1),
           ic_in cd r, [])
    else
      Ret (PARSERUTILS_OK, clear_inval cd (set_read_cd cd c (ic_cd cd r)),
           ic_in cd r, ic_out cd r)).
  { unfold iconv_codec_output_decoded_char.
    destruct (destlen <? 4); reflexivity. }
  destruct (ic_failed cd r) as [e|] eqn:Ef; [|exact Hread].
  destruct Hconv as [Hn|Hm]; [discriminate|].
  apply Nat.eqb_neq in Hm. rewrite Hm, Hlen. cbn [negb andb Z.of_nat].
  change (4 - Z.pos (Pos.of_succ_nat 3) =? 0) with true. cbn iota.
  exact Hread.
Qed.


End IconvFacts.




(** ** The input stream *)

Import InputStream.

Section BufferFacts.

Variable b : parserutils_buffer.
Hypothesis b_ok : 0 <= length b <= allocated b.

Lemma firstn_nth_seq (k : nat) : forall (d : list Z),
  (k <= List.length d)%nat ->
  firstn k d = map (fun i => nth i d 0) (seq 0 k).
Proof.
  induction k as [|k IH]; intros d Hk; [reflexivity|].
  destruct d as [|x d]; [simpl in Hk; lia|].
  simpl in Hk. cbn [firstn seq map nth]. f_equal.
  rewrite <- seq_shift, map_map. apply IH. lia.
Qed.

Lemma used_prefix (k : nat) :
  Z.of_nat k <= length b ->
  firstn k (used b) =
  map (fun i => byte_at b (Z.of_nat i)) (seq 0 k).
Proof.
  intros Hk. unfold used, byte_at, allocated in *.
  rewrite firstn_firstn, Nat.min_l by lia.
  rewrite firstn_nth_seq by lia.
  apply map_ext. intros i. now rewrite Nat2Z.id.
Qed.

Lemma used_short (k : nat) (bom : list Z) :
  List.length bom = k -> length b < Z.of_nat k ->
  firstn k (used b) <> bom.
Proof.
  intros Hl Hk E. apply (f_equal (@List.length Z)) in E.
  unfold used in E. rewrite firstn_firstn, length_firstn in E. lia.
Qed.

Lemma discard_front (k : nat) :
  Z.of_nat k <= length b ->
  exists b',
    parserutils_buffer_discard b 0 (Z.of_nat k) = (PARSERUTILS_OK, b') /\
    used b' = skipn k (used b) /\
    length b' = length b - Z.of_nat k.
Proof.
  intros Hk. unfold parserutils_buffer_discard.
  destruct (length b <? 0 + Z.of_nat k) eqn:E; [lia|].
  eexists. split; [reflexivity|]. split; [|reflexivity].
  unfold used, memmove, allocated in *. cbn [data length].
  change (Z.to_nat 0) with 0%nat. cbn [firstn app].
  rewrite Z.add_0_r, Z.add_0_l, Nat2Z.id.
  rewrite skipn_firstn_comm.
  replace (Z.to_nat (length b - Z.of_nat k))
    with (Z.to_nat (length b) - k)%nat by lia.
  rewrite firstn_app.
  rewrite length_firstn, length_skipn.
  replace (Z.to_nat (length b) - k -
           Nat.min (Z.to_nat (length b) - k) (List.length (data b) - k))%nat
    with 0%nat by lia.
  cbn [firstn]. rewrite app_nil_r, firstn_firstn, Nat.min_id. reflexivity.
Qed.

End BufferFacts.

Section BomFacts.

Variable b : parserutils_buffer.
Hypothesis b_ok : 0 <= length b <= allocated b.

Lemma forallb_combine_seq (f : nat -> Z) (l : list Z) : forall start,
  forallb (fun p => f (fst p) =? snd p)
          (combine (seq start (List.length l)) l) = true <->
  map f (seq start (List.length l)) = l.
Proof.
  induction l as [|x l IH]; intros start; [cbn; tauto|].
  cbn. rewrite andb_true_iff, IH, Z.eqb_eq. split.
  - intros [-> ->]. reflexivity.
  - intros H. injection H as Hx Hl. split; assumption.
Qed.

(** The test the code makes for a byte-order mark, in closed form. *)
Lemma bom_check_iff (bom : list Z) :
  (Z.of_nat (List.length bom) <=? length b) &&
  forallb (fun p => byte_at b (Z.of_nat (fst p)) =? snd p)
          (combine (seq 0 (List.length bom)) bom) = true <->
  firstn (List.length bom) (used b) = bom.
Proof.
  rewrite andb_true_iff, Z.leb_le.
  rewrite (forallb_combine_seq (fun i => byte_at b (Z.of_nat i))). split.
  - intros [Hk Hm]. now rewrite used_prefix.
  - intros E. destruct (Z.le_gt_cases (Z.of_nat (List.length bom)) (length b))
      as [Hk|Hk].
    + split; [assumption|]. now rewrite <- used_prefix.
    + exfalso.
      apply (used_short b b_ok (List.length bom) bom eq_refl); [lia|exact E].
Qed.

End BomFacts.

Section StripBomFacts.

Variable b : parserutils_buffer.
Hypothesis b_ok : 0 <= length b <= allocated b.

Lemma check2 x0 x1 :
  (UTF16_BOM_LEN <=? length b) && (byte_at b 0 =? x0) && (byte_at b 1 =? x1)
  = generic_check b [x0; x1].
Proof.
  unfold generic_check.
  cbn [forallb combine seq fst snd List.length Z.of_nat Pos.of_succ_nat
       Pos.succ].
  now rewrite andb_true_r, !andb_assoc.
Qed.

Lemma check3 x0 x1 x2 :
  (UTF8_BOM_LEN <=? length b) && (byte_at b 0 =? x0) && (byte_at b 1 =? x1) &&
  (byte_at b 2 =? x2) = generic_check b [x0; x1; x2].
Proof.
  unfold generic_check.
  cbn [forallb combine seq fst snd List.length Z.of_nat Pos.of_succ_nat
       Pos.succ].
  now rewrite andb_true_r, !andb_assoc.
Qed.

Lemma check4 x0 x1 x2 x3 :
  (UTF32_BOM_LEN <=? length b) && (byte_at b 0 =? x0) && (byte_at b 1 =? x1) &&
  (byte_at b 2 =? x2) && (byte_at b 3 =? x3) = generic_check b [x0; x1; x2; x3].
Proof.
  unfold generic_check.
  cbn [forallb combine seq fst snd List.length Z.of_nat Pos.of_succ_nat
       Pos.succ].
  now rewrite andb_true_r, !andb_assoc.
Qed.

(** What one branch of the [if]/[else if] chain does once its MIB enum
    matched. *)
Lemma bom_branch (st' : bom_statics) (mib : Z) (bom : list Z) :
  In (mib, bom) (spec_boms st') ->
  (forall b1 b2, In (mib, b1) (spec_boms st') ->
                 In (mib, b2) (spec_boms st') -> b1 = b2) ->
  exists b',
    (if generic_check b bom
     then parserutils_buffer_discard b 0 (Z.of_nat (List.length bom))
     else (PARSERUTILS_OK, b)) = (PARSERUTILS_OK, b') /\
    ((exists bom,
        In (mib, bom) (spec_boms st') /\
        firstn (List.length bom) (used b) = bom /\
        used b' = skipn (List.length bom) (used b) /\
        length b' = length b - Z.of_nat (List.length bom)) \/
     ((forall bom, In (mib, bom) (spec_boms st') ->
         firstn (List.length bom) (used b) <> bom) /\ b' = b)).
Proof.
  intros Hin Huniq. destruct (generic_check b bom) eqn:Ec.
  - pose proof (proj1 (bom_check_iff b b_ok bom) Ec) as Hp.
    unfold generic_check in Ec. apply andb_prop in Ec. destruct Ec as [Hk _].
    apply Z.leb_le in Hk.
    destruct (discard_front b b_ok (List.length bom) Hk) as (b' & Hd & Hu & Hl).
    exists b'. split; [exact Hd|]. left. exists bom. auto.
  - exists b. split; [reflexivity|]. right. split; [|reflexivity].
    intros bom' Hin' E. rewrite (Huniq _ _ Hin' Hin) in E.
    apply (bom_check_iff b b_ok) in E. unfold generic_check in Ec. congruence.
Qed.

End StripBomFacts.

(** C6. [parserutils_inputstream_strip_bom] removes a leading byte-order
    mark from the buffer exactly when the MIB enum it is given is that of
    UTF-8, UTF-16BE, UTF-16LE, UTF-32BE or UTF-32LE and the used part of
    the buffer starts with the mark of that encoding; otherwise the buffer
    is unchanged.  The MIB enum alone selects the mark that is tested, so
    with the MIB enum of UTF-16LE only FF FE is removed from a buffer that
    starts FF FE 00 00.  In the first-chunk transition of the refill the
    function is applied to the raw buffer with the detected MIB enum.
    ([st] holds the static variables: zero before the first call, then
    the MIB enums looked up in the alias tables.) *)
Theorem C6_strip_bom_exact {impl : Type} (t : alias_tables)
    (st : bom_statics) (mib : Z) (b : parserutils_buffer) :
  0 <= length b <= allocated b ->
  let st' := if s_utf8 st =? 0 then looked_up t else st in
  (forall b1 b2, In (mib, b1) (spec_boms st') ->
                 In (mib, b2) (spec_boms st') -> b1 = b2) ->
  exists b',
    parserutils_inputstream_strip_bom t st mib b =
      (st', (PARSERUTILS_OK, b')) /\
    ((exists bom,
        In (mib, bom) (spec_boms st') /\
        firstn (List.length bom) (used b) = bom /\
        used b' = skipn (List.length bom) (used b) /\
        length b' = length b - Z.of_nat (List.length bom)) \/
     ((forall bom, In (mib, bom) (spec_boms st') ->
         firstn (List.length bom) (used b) <> bom) /\ b' = b)) /\
    (mib = s_utf16le st' ->
     firstn 4 (used b) = [0xFF; 0xFE; 0x00; 0x00] ->
     used b' = skipn 2 (used b)) /\
    (forall (s : parserutils_inputstream_private impl) (src : Z),
       done_first_chunk s = false -> raw s = b ->
       match csdetect s with
       | Some detect => detect (used b) (length b) (mibenum s) (encsrc s)
       | None => (PARSERUTILS_OK, mibenum_from_cstr t (chars "UTF-8"), 0)
       end = (PARSERUTILS_OK, mib, src) ->
       mib <> 0 ->
       refill_first_chunk t (st, s) =
       Ret (None,
            (st', mk_stream (utf8 s) (cursor s) (had_eof s) b' true mib src
                            (input s) (csdetect s)))).
Proof.
  intros b_ok st' Huniq.
  assert (Hmain : exists b',
    parserutils_inputstream_strip_bom t st mib b =
      (st', (PARSERUTILS_OK, b')) /\
    ((exists bom,
        In (mib, bom) (spec_boms st') /\
        firstn (List.length bom) (used b) = bom /\
        used b' = skipn (List.length bom) (used b) /\
        length b' = length b - Z.of_nat (List.length bom)) \/
     ((forall bom, In (mib, bom) (spec_boms st') ->
         firstn (List.length bom) (used b) <> bom) /\ b' = b))).
  { unfold parserutils_inputstream_strip_bom. fold st'.
    rewrite check3, !check2, !check4.
    destruct (mib =? s_utf8 st') eqn:E1.
    { apply Z.eqb_eq in E1.
      destruct (bom_branch b b_ok st' mib [0xEF; 0xBB; 0xBF]) as (b' & H & D);
        [rewrite E1; cbn; tauto | assumption |].
      exists b'. split; [now rewrite <- H | exact D]. }
    destruct (mib =? s_utf16be st') eqn:E2.
    { apply Z.eqb_eq in E2.
      destruct (bom_branch b b_ok st' mib [0xFE; 0xFF]) as (b' & H & D);
        [rewrite E2; cbn; tauto | assumption |].
      exists b'. split; [now rewrite <- H | exact D]. }
    destruct (mib =? s_utf16le st') eqn:E3.
    { apply Z.eqb_eq in E3.
      destruct (bom_branch b b_ok st' mib [0xFF; 0xFE]) as (b' & H & D);
        [rewrite E3; cbn; tauto | assumption |].
      exists b'. split; [now rewrite <- H | exact D]. }
    destruct (mib =? s_utf32be st') eqn:E4.
    { apply Z.eqb_eq in E4.
      destruct (bom_branch b b_ok st' mib [0x00; 0x00; 0xFE; 0xFF])
        as (b' & H & D); [rewrite E4; cbn; tauto | assumption |].
      exists b'. split; [now rewrite <- H | exact D]. }
    destruct (mib =? s_utf32le st') eqn:E5.
    { apply Z.eqb_eq in E5.
      destruct (bom_branch b b_ok st' mib [0xFF; 0xFE; 0x00; 0x00])
        as (b' & H & D); [rewrite E5; cbn; tauto | assumption |].
      exists b'. split; [now rewrite <- H | exact D]. }
    exists b. split; [reflexivity|]. right. split; [|reflexivity].
    apply Z.eqb_neq in E1, E2, E3, E4, E5.
    intros bom Hin. cbn in Hin.
    repeat (destruct Hin as [Hin|Hin]; [injection Hin as Hm _; congruence|]).
    destruct Hin. }
  destruct Hmain as (b' & Hs & D).
  exists b'. split; [exact Hs|]. split; [exact D|]. split.
  - intros Hle H4.
    assert (Hin : In (mib, [0xFF; 0xFE]) (spec_boms st'))
      by (rewrite Hle; cbn; tauto).
    assert (H2 : firstn 2 (used b) = [0xFF; 0xFE]).
    { apply (f_equal (firstn 2)) in H4.
      rewrite firstn_firstn in H4. exact H4. }
    destruct D as [(bom & Hb & _ & Hu & _) | (Hno & _)].
    + rewrite (Huniq _ _ Hb Hin) in Hu. exact Hu.
    + destruct (Hno _ Hin H2).
  - intros s src Hd Hr Hdet Hnz. unfold refill_first_chunk.
    rewrite Hd, Hr, Hdet. cbn [error_eqb negb].
    destruct (mib =? 0) eqn:E0; [apply Z.eqb_eq in E0; contradiction|].
    rewrite Hs. cbn [error_eqb negb]. reflexivity.
Qed.

Lemma C6_witness :
  exists b',
    parserutils_inputstream_strip_bom unicode_tables bom_statics_init 1014
      (mk_buffer 4096 [0xFF; 0xFE; 0x00; 0x00; 0x41; 0x00; 0; 0] 6) =
      (looked_up unicode_tables, (PARSERUTILS_OK, b')) /\
    used b' = [0x00; 0x00; 0x41; 0x00].
Proof.
  destruct (C6_strip_bom_exact (impl := unit) unicode_tables bom_statics_init
              1014
              (mk_buffer 4096 [0xFF; 0xFE; 0x00; 0x00; 0x41; 0x00; 0; 0] 6))
    as (b' & Hs & _ & Hle & _).
  - vm_compute. split; discriminate.
  - intros b1 b2 H1 H2. vm_compute in H1, H2.
    intuition (try discriminate); congruence.
  - exists b'. split; [exact Hs|].
    rewrite Hle; reflexivity.
Defined.

Lemma error_eqb_eq (a b : parserutils_error) : error_eqb a b = true <-> a = b.
Proof. destruct a, b; cbn; split; congruence. Qed.

Lemma not_ok_spec (e : parserutils_error) :
  negb (error_eqb e PARSERUTILS_OK) = true <-> e <> PARSERUTILS_OK.
Proof. destruct e; cbn; split; congruence. Qed.

Section RefillFacts.

Context {impl : Type}.
Variable t : alias_tables.
Variable grow : parserutils_buffer -> parserutils_error * parserutils_buffer.
Variable charlen : list Z -> parserutils_error * Z.

Lemma refill_first_chunk_error (w w' : world impl) e :
  refill_first_chunk t w = Ret (Some e, w') -> e <> PARSERUTILS_OK.
Proof.
  unfold refill_first_chunk. destruct w as [st s].
  destruct (done_first_chunk s); [discriminate|].
  destruct (match csdetect s with Some _ => _ | None => _ end)
    as [[error mib] src].
  destruct (negb (error_eqb error PARSERUTILS_OK)) eqn:E1.
  { intros [= <- _]. now apply not_ok_spec. }
  destruct (mib =? 0); [discriminate|].
  destruct (parserutils_inputstream_strip_bom t st mib (raw s))
    as [st' [error' raw']].
  destruct (negb (error_eqb error' PARSERUTILS_OK)) eqn:E2.
  { intros [= <- _]. now apply not_ok_spec. }
  discriminate.
Qed.



End RefillFacts.

(** C8 as stated fails: on the stream of test/inputstream.c, whose cursor
    is at the end of the (still empty) utf8 buffer, advancing by one byte
    aborts instead of returning. *)
Lemma C8_counterexample :
  exists s,
    test_stream = Some s /\
    cursor s = length (utf8 s) /\
    parserutils_inputstream_advance s 1 = Abort.
Proof.
  unfold test_stream.
  destruct (parserutils_inputstream_create example_handlers unicode_tables
              (Some (chars "UTF-8")) 1 None true (Some fresh_raw)
              (Some fresh_utf8) true 0) as [s|] eqn:E;
    vm_compute in E; [|discriminate E].
  injection E as <-. eexists. split; [reflexivity|]. split; reflexivity.
Qed.

(** C8 (amended). For a stream whose cursor lies within its utf8 buffer:
    if [bytes] exceeds [utf8.length - cursor] the call aborts, also when
    the cursor is at the end of the buffer; otherwise, with the cursor at
    the end, it returns with the stream unchanged; otherwise it adds
    exactly [bytes] to the cursor. *)
Theorem C8_advance {impl : Type}
    (s : parserutils_inputstream_private impl) (bytes : Z) :
  0 <= cursor s <= length (utf8 s) ->
  length (utf8 s) < 4294967296 ->
  0 <= bytes ->
  (length (utf8 s) - cursor s < bytes ->
   parserutils_inputstream_advance s bytes = Abort) /\
  (bytes <= length (utf8 s) - cursor s -> cursor s = length (utf8 s) ->
   parserutils_inputstream_advance s bytes = Ret s) /\
  (bytes <= length (utf8 s) - cursor s -> cursor s <> length (utf8 s) ->
   parserutils_inputstream_advance s bytes =
   Ret (mk_stream (utf8 s) (cursor s + bytes) (had_eof s) (raw s)
                  (done_first_chunk s) (mibenum s) (encsrc s) (input s)
                  (csdetect s))).
Proof.
  intros Hc Hl Hb. unfold parserutils_inputstream_advance.
  assert (Hs : size_t (length (utf8 s) - cursor s) =
               length (utf8 s) - cursor s)
    by (unfold size_t; apply Z.mod_small; lia).
  rewrite Hs. repeat split.
  - intros H. apply Z.ltb_lt in H. now rewrite H.
  - intros H He. apply Z.ltb_ge in H. rewrite H.
    apply Z.eqb_eq in He. now rewrite He.
  - intros H Hne. pose proof H as H'. apply Z.ltb_ge in H. rewrite H.
    apply Z.eqb_neq in Hne. rewrite Hne.
    unfold uint32. rewrite Z.mod_small by lia. reflexivity.
Qed.

Lemma C8_witness :
  parserutils_inputstream_advance
    (mk_stream (mk_buffer 8192 [0x68; 0x69; 0; 0] 2) 0 false
               (mk_buffer 4096 [0; 0; 0; 0] 0) true 106 0
               (mk_filter (impl := unit) None None false None 106) None) 1 =
  Ret (mk_stream (mk_buffer 8192 [0x68; 0x69; 0; 0] 2) 1 false
                 (mk_buffer 4096 [0; 0; 0; 0] 0) true 106 0
                 (mk_filter (impl := unit) None None false None 106) None).
Proof.
  refine (proj2 (proj2 (C8_advance _ 1 _ _ _)) _ _);
    cbn; try lia; try discriminate.
Defined.

(** C9 as stated fails: the stream of test/inputstream.c, created with
    encoding UTF-8 and encoding source 1, reports source 1 before any
    chunk has been processed. *)
Lemma C9_counterexample :
  exists s,
    test_stream = Some s /\
    done_first_chunk s = false /\
    parserutils_inputstream_read_charset unicode_tables s =
      (Some (chars "UTF-8"), 1).
Proof.
  unfold test_stream.
  destruct (parserutils_inputstream_create example_handlers unicode_tables
              (Some (chars "UTF-8")) 1 None true (Some fresh_raw)
              (Some fresh_utf8) true 0) as [s|] eqn:E;
    vm_compute in E; [|discriminate E].
  injection E as <-. eexists. split; [reflexivity|]. split; reflexivity.
Qed.

(** ** Instances of the remaining statements *)

Lemma C3_witness :
  exists f,
    parserutils_filter_create example_handlers unicode_tables
      (chars "UTF-8") true = Some f /\
    fst (parserutils_filter_setopt example_handlers unicode_tables f
           (chars "latin1")) = PARSERUTILS_OK /\
    encoding (snd (parserutils_filter_setopt example_handlers unicode_tables
                     f (chars "latin1"))) = 4.
Proof.
  destruct (parserutils_filter_create example_handlers unicode_tables
              (chars "UTF-8") true) as [f|] eqn:Ef;
    [|vm_compute in Ef; discriminate Ef].
  exists f. split; [reflexivity|].
  destruct (canonicalise_cstr unicode_tables (chars "latin1")) as [c|] eqn:Ec;
    [|vm_compute in Ec; discriminate Ec].
  destruct (C3_filter_setopt_encoding example_handlers unicode_tables f
              (chars "latin1")) as (_ & _ & H & _).
  assert (Hc : mib_enum c = 4)
    by (vm_compute in Ec; injection Ec as <-; reflexivity).
  assert (He : encoding f = 106)
    by (vm_compute in Ef; injection Ef as <-; reflexivity).
  rewrite (H c Ec); [|lia|lia].
  destruct (Codec.parserutils_charset_codec_create example_handlers
              unicode_tables (chars "latin1")) as [rc|] eqn:Er.
  - split; [reflexivity | exact Hc].
  - vm_compute in Er. discriminate Er.
Defined.

Lemma C4_witness :
  parserutils_filter_process_chunk 5
    (mk_filter (Some single_byte_codec) (Some single_byte_codec) true
               (Some [0; 0; 0; 0x41]) 106)
    [0x42; 0x43] 2 =
  Ret (mk_chunk PARSERUTILS_NOMEM
         (mk_filter (Some single_byte_codec) (Some single_byte_codec) true
                    (Some [0; 0; 0; 0x43]) 106)
         [] [0x41; 0x42] 0) /\
  parserutils_filter_process_chunk 5
    (mk_filter (Some single_byte_codec) (Some single_byte_codec) true
               (Some [0; 0; 0; 0x41; 0; 0; 0; 0x44]) 106)
    [0x42; 0x43] 1 =
  Ret (mk_chunk PARSERUTILS_NOMEM
         (mk_filter (Some single_byte_codec) (Some single_byte_codec) true
                    (Some [0; 0; 0; 0x44]) 106)
         [0x42; 0x43] [0x41] 0).
Proof.
  split.
  - destruct (proj1 (C4_leftover_flush_first 5
                       (mk_filter (Some single_byte_codec)
                                  (Some single_byte_codec) true
                                  (Some [0; 0; 0; 0x41]) 106)
                       [0x42; 0x43] 2 eq_refl)
                single_byte_codec [0; 0; 0; 0x41]
                (single_byte_encode [0; 0; 0; 0x41] 2 [])
                eq_refl eq_refl eq_refl) as (_ & Hok & _).
    rewrite Hok by reflexivity. reflexivity.
  - destruct (proj1 (C4_leftover_flush_first 5
                       (mk_filter (Some single_byte_codec)
                                  (Some single_byte_codec) true
                                  (Some [0; 0; 0; 0x41; 0; 0; 0; 0x44]) 106)
                       [0x42; 0x43] 1 eq_refl)
                single_byte_codec [0; 0; 0; 0x41; 0; 0; 0; 0x44]
                (single_byte_encode [0; 0; 0; 0x41; 0; 0; 0; 0x44] 1 [])
                eq_refl eq_refl eq_refl) as (Hbad & _ & _).
    rewrite Hbad by discriminate. reflexivity.
Defined.

Lemma C10_witness :
  exists codec,
    Codec.parserutils_charset_codec_create example_handlers unicode_tables
      (chars "latin1") = Some codec /\
    Codec.errormode codec = Codec.PARSERUTILS_CHARSET_CODEC_ERROR_LOOSE /\
    Codec.mibenum codec = 4.
Proof.
  destruct (Codec.parserutils_charset_codec_create example_handlers
              unicode_tables (chars "latin1")) as [codec|] eqn:E;
    [|vm_compute in E; discriminate E].
  exists codec. split; [reflexivity|].
  destruct (proj1 (C10_codec_create_loose example_handlers unicode_tables)
              (chars "latin1") codec E) as (Hl & canon & Hc & Hm).
  split; [exact Hl|]. rewrite Hm.
  vm_compute in Hc. injection Hc as <-. reflexivity.
Defined.

(** * Further properties of the library *)

(** ** Name comparison *)

Section CompareFacts.

Lemma lnorm_cons_punct c s :
  IS_PUNCT_OR_SPACE c = true -> lnorm (c :: s) = lnorm s.
Proof. intros H. unfold lnorm. simpl. now rewrite H. Qed.

Lemma lnorm_cons_keep c s :
  IS_PUNCT_OR_SPACE c = false -> lnorm (c :: s) = tolower c :: lnorm s.
Proof. intros H. unfold lnorm. simpl. now rewrite H. Qed.

Lemma skip_s1_lnorm (s : list Z) : lnorm (skip_s1 s) = lnorm s.
Proof.
  induction s as [|c s IH]; [reflexivity|]. simpl.
  destruct (IS_PUNCT_OR_SPACE c) eqn:E.
  - rewrite IH. symmetry. now apply lnorm_cons_punct.
  - reflexivity.
Qed.

Lemma lnorm_nil_skip (s : list Z) : lnorm s = [] -> skip_s1 s = [].
Proof.
  induction s as [|c s IH]; [reflexivity|]. simpl.
  destruct (IS_PUNCT_OR_SPACE c) eqn:E.
  - rewrite lnorm_cons_punct by assumption. exact IH.
  - rewrite lnorm_cons_keep by assumption. discriminate.
Qed.

Lemma aliascmp_loop_bit (s2 : list Z) : forall s1,
  Forall (fun x => x <> 0) s2 ->
  aliascmp_loop (s1 ++ [0]) s2 = Some 0 \/
  aliascmp_loop (s1 ++ [0]) s2 = Some 1.
Proof.
  induction s2 as [|c2 r2 IH]; intros s1 Hnz.
  - rewrite aliascmp_loop_nil. destruct (hd 0 (skip_s1 s1) =? 0); auto.
  - inversion Hnz as [|? ? Hc Hr]; subst. rewrite aliascmp_loop_cons.
    destruct (IS_PUNCT_OR_SPACE c2); [now apply IH|].
    destruct (tolower (hd 0 (skip_s1 s1)) =? tolower c2) eqn:Et; [|auto].
    destruct (skip_s1 s1) as [|c1 r1]; [|now apply IH].
    cbv [hd] in Et. apply Z.eqb_eq, tolower_zero in Et. contradiction.
Qed.

Lemma aliascmp_loop_lnorm (s2 : list Z) : forall s1,
  Forall (fun c => c <> 0) s1 ->
  Forall (fun c => c <> 0) s2 ->
  (aliascmp_loop (s1 ++ [0]) s2 = Some 0 <-> lnorm s1 = lnorm s2).
Proof.
  induction s2 as [|c2 r2 IH]; intros s1 Hnz1 Hnz2.
  - rewrite aliascmp_loop_nil. rewrite <- (skip_s1_lnorm s1).
    pose proof (skip_s1_Forall _ _ Hnz1) as Hs.
    pose proof (skip_s1_head s1) as Hh.
    destruct (skip_s1 s1) as [|c r]; [cbn; tauto|].
    inversion Hs; subst. cbn [hd].
    destruct (c =? 0) eqn:E; [lia|].
    rewrite lnorm_cons_keep by (eapply Hh; reflexivity).
    split; discriminate.
  - inversion Hnz2 as [|? ? Hc Hr]; subst. rewrite aliascmp_loop_cons.
    destruct (IS_PUNCT_OR_SPACE c2) eqn:Ep.
    + rewrite lnorm_cons_punct by assumption. now apply IH.
    + rewrite lnorm_cons_keep by assumption.
      rewrite <- (skip_s1_lnorm s1).
      pose proof (skip_s1_Forall _ _ Hnz1) as Hs.
      pose proof (skip_s1_head s1) as Hh.
      destruct (skip_s1 s1) as [|c1 r1].
      * cbv [hd].
        destruct (tolower 0 =? tolower c2) eqn:Et.
        -- apply Z.eqb_eq, tolower_zero in Et. contradiction.
        -- split; discriminate.
      * inversion Hs; subst.
        rewrite (lnorm_cons_keep c1) by (eapply Hh; reflexivity).
        cbn [hd].
        destruct (tolower c1 =? tolower c2) eqn:Et.
        -- apply Z.eqb_eq in Et. rewrite IH by assumption. rewrite Et.
           split; [intros ->; reflexivity | intros [= ->]; reflexivity].
        -- apply Z.eqb_neq in Et. split; [discriminate|].
           intros [= H _]. contradiction.
Qed.

Lemma aliascmp_lnorm (x y : list Z) :
  Forall (fun c => c <> 0) x ->
  Forall (fun c => c <> 0) y ->
  (aliascmp x y = Some 0 <-> y <> [] /\ lnorm x = lnorm y).
Proof.
  intros Hx Hy. destruct y as [|c r].
  - cbn. split; [discriminate | intros [H _]; congruence].
  - change (aliascmp x (c :: r)) with (aliascmp_loop (x ++ [0]) (c :: r)).
    rewrite aliascmp_loop_lnorm by assumption.
    split; [intros H; split; [discriminate | exact H] | tauto].
Qed.

Lemma aliascmp_bit (x y : list Z) :
  Forall (fun c => c <> 0) y ->
  aliascmp x y = Some 0 \/ aliascmp x y = Some 1.
Proof.
  intros Hy. destruct y as [|c r]; [cbn; auto|].
  now apply aliascmp_loop_bit.
Qed.

Lemma lnorm_norm (a b : list Z) : lnorm a = lnorm b -> norm a = norm b.
Proof.
  unfold lnorm, norm.
  generalize (filter (fun c => negb (IS_PUNCT_OR_SPACE c)) a) as l.
  generalize (filter (fun c => negb (IS_PUNCT_OR_SPACE c)) b) as l'.
  intros l' l. revert l'.
  induction l as [|x l IH]; intros [|y l'] H; try discriminate;
    [reflexivity|].
  cbn in *. injection H as Hxy Hl.
  now rewrite (tolower_fold _ _ Hxy), (IH _ Hl).
Qed.

Lemma lnorm_hash (a b : list Z) :
  lnorm a = lnorm b ->
  parserutils_charset_hash_val a = parserutils_charset_hash_val b.
Proof.
  intros H. unfold parserutils_charset_hash_val.
  now rewrite !hash_fold_norm, (lnorm_norm _ _ H).
Qed.

Lemma hash_val_range (s : list Z) :
  0 <= parserutils_charset_hash_val s < HASH_SIZE.
Proof.
  unfold parserutils_charset_hash_val, HASH_SIZE.
  apply Z.mod_pos_bound. lia.
Qed.

End CompareFacts.

(** X1. For names that hold no NUL, [aliascmp] answers 0 exactly when the
    second name is not empty and the two names have the same characters
    once white space and punctuation are dropped and letters are put in
    lower case; it answers 1 in every other case. *)
Theorem aliascmp_characterised (x y : list Z) :
  Forall (fun c => c <> 0) x ->
  Forall (fun c => c <> 0) y ->
  (aliascmp x y = Some 0 <-> y <> [] /\ lnorm x = lnorm y) /\
  (aliascmp x y <> Some 0 -> aliascmp x y = Some 1).
Proof.
  intros Hx Hy. split; [now apply aliascmp_lnorm|].
  destruct (aliascmp_bit x y Hy) as [H|H]; [congruence | auto].
Qed.

Lemma aliascmp_characterised_witness :
  aliascmp (chars "ISO-8859-1") (chars "iso_8859.1") = Some 0 /\
  aliascmp (chars "ISO-8859-1") (chars "iso-8859-15") = Some 1.
Proof.
  assert (Hx : Forall (fun c => c <> 0) (chars "ISO-8859-1"))
    by (repeat constructor; discriminate).
  split.
  - apply (aliascmp_characterised (chars "ISO-8859-1") (chars "iso_8859.1") Hx).
    + repeat constructor; discriminate.
    + split; [discriminate | reflexivity].
  - apply (aliascmp_characterised (chars "ISO-8859-1") (chars "iso-8859-15") Hx).
    + repeat constructor; discriminate.
    + vm_compute. discriminate.
Defined.

(** X2. On names that hold no NUL, "compares equal" is symmetric and
    transitive, and every name but the empty one compares equal to itself;
    nothing compares equal to the empty name, although the empty name as
    first argument compares equal to a name made of punctuation only. *)
Theorem aliascmp_equivalence (x y z : list Z) :
  Forall (fun c => c <> 0) x ->
  Forall (fun c => c <> 0) y ->
  Forall (fun c => c <> 0) z ->
  (x <> [] -> aliascmp x x = Some 0) /\
  aliascmp x [] = Some 1 /\
  (x <> [] -> aliascmp x y = Some 0 -> aliascmp y x = Some 0) /\
  (aliascmp x y = Some 0 -> aliascmp y z = Some 0 -> aliascmp x z = Some 0) /\
  (lnorm y = [] -> y <> [] -> aliascmp [] y = Some 0).
Proof.
  intros Hx Hy Hz. repeat split.
  - intros Hne. now apply aliascmp_refl.
  - intros Hne H. apply aliascmp_lnorm in H; [|assumption|assumption].
    apply aliascmp_lnorm; [assumption|assumption|]. split; [assumption|].
    symmetry. tauto.
  - intros H1 H2.
    apply aliascmp_lnorm in H1; [|assumption|assumption].
    apply aliascmp_lnorm in H2; [|assumption|assumption].
    apply aliascmp_lnorm; [assumption|assumption|].
    split; [tauto|]. destruct H1 as [_ ->]. tauto.
  - intros Hn Hne. apply aliascmp_lnorm; [constructor|assumption|].
    split; [assumption|]. now rewrite Hn.
Qed.

Lemma aliascmp_equivalence_witness :
  aliascmp (chars "utf8") (chars "UTF-8") = Some 0 /\
  aliascmp (chars "UTF-8") (chars "utf8") = Some 0 /\
  aliascmp [] (chars "-") = Some 0 /\
  aliascmp (chars "-") [] = Some 1.
Proof.
  assert (H8 : Forall (fun c => c <> 0) (chars "UTF-8"))
    by (repeat constructor; discriminate).
  assert (Hu : Forall (fun c => c <> 0) (chars "utf8"))
    by (repeat constructor; discriminate).
  assert (Hd : Forall (fun c => c <> 0) (chars "-"))
    by (repeat constructor; discriminate).
  destruct (aliascmp_equivalence (chars "UTF-8") (chars "utf8") (chars "utf8")
              H8 Hu Hu) as (_ & _ & Hsym & _ & _).
  destruct (aliascmp_equivalence (chars "-") (chars "-") (chars "-")
              Hd Hd Hd) as (_ & He & _ & _ & Hp).
  split; [|split; [|split]].
  - apply Hsym; [discriminate | reflexivity].
  - reflexivity.
  - apply Hp; [reflexivity | discriminate].
  - exact He.
Defined.

(** ** Lookups in the alias tables *)

Section LookupMore.

Lemma aliascmp_hash (x y : list Z) :
  Forall (fun c => c <> 0) x ->
  aliascmp x y = Some 0 ->
  parserutils_charset_hash_val x = parserutils_charset_hash_val y.
Proof.
  intros Hnz Hcmp.
  assert (Hn : norm x = norm y).
  { destruct y as [|c r]; [discriminate|]. now apply aliascmp_loop_norm. }
  unfold parserutils_charset_hash_val.
  now rewrite !hash_fold_norm, Hn.
Qed.

Lemma aliascmp_same (s1 n n' : list Z) :
  Forall (fun c => c <> 0) s1 ->
  Forall (fun c => c <> 0) n -> Forall (fun c => c <> 0) n' ->
  n <> [] -> n' <> [] -> lnorm n = lnorm n' ->
  aliascmp s1 n = aliascmp s1 n'.
Proof.
  intros H1 Hn Hn' Hne Hne' Hl.
  destruct (aliascmp_bit s1 n Hn) as [E|E];
    destruct (aliascmp_bit s1 n' Hn') as [E'|E']; try congruence.
  - apply aliascmp_lnorm in E; [|assumption|assumption].
    assert (aliascmp s1 n' = Some 0).
    { apply aliascmp_lnorm; [assumption|assumption|].
      split; [assumption|]. destruct E as [_ ->]. exact Hl. }
    congruence.
  - apply aliascmp_lnorm in E'; [|assumption|assumption].
    assert (aliascmp s1 n = Some 0).
    { apply aliascmp_lnorm; [assumption|assumption|].
      split; [assumption|]. destruct E' as [_ ->]. now symmetry. }
    congruence.
Qed.

Lemma search_canon_same chain (n n' : list Z) :
  Forall (fun c => Forall (fun x => x <> 0) (name c)) chain ->
  Forall (fun c => c <> 0) n -> Forall (fun c => c <> 0) n' ->
  n <> [] -> n' <> [] -> lnorm n = lnorm n' ->
  search_canon chain n = search_canon chain n'.
Proof.
  intros Hc Hn Hn' Hne Hne' Hl.
  induction Hc as [|c chain Hnm Hrest IH]; [reflexivity|]. cbn.
  rewrite (aliascmp_same (name c) n n') by assumption.
  destruct (aliascmp (name c) n') as [r|]; [|reflexivity].
  destruct (r =? 0); [reflexivity | exact IH].
Qed.

Lemma search_alias_same chain (n n' : list Z) :
  Forall (fun a => Forall (fun x => x <> 0) (alias_name a)) chain ->
  Forall (fun c => c <> 0) n -> Forall (fun c => c <> 0) n' ->
  n <> [] -> n' <> [] -> lnorm n = lnorm n' ->
  search_alias chain n = search_alias chain n'.
Proof.
  intros Hc Hn Hn' Hne Hne' Hl.
  induction Hc as [|a chain Hnm Hrest IH]; [reflexivity|]. cbn.
  rewrite (aliascmp_same (alias_name a) n n') by assumption.
  destruct (aliascmp (alias_name a) n') as [r|]; [|reflexivity].
  destruct (r =? 0); [reflexivity | exact IH].
Qed.

Variable t : alias_tables.
Hypothesis t_ok : tables_ok t.

Lemma canonicalise_complete n :
  Forall (fun x => x <> 0) n ->
  (exists c, canon_registered t c /\ aliascmp (name c) n = Some 0) \/
  (exists a, alias_registered t a /\ aliascmp (alias_name a) n = Some 0) ->
  exists c, parserutils_charset_alias_canonicalise t n = Some (Some c).
Proof.
  intros Hn Hm. destruct t_ok as [Hc Ha].
  unfold parserutils_charset_alias_canonicalise.
  destruct (search_canon_defined n Hn
              (canon_tab t (parserutils_charset_hash_val n))) as [[c'|] E];
    rewrite E; [eauto|].
  destruct (search_alias_defined n Hn
              (alias_tab t (parserutils_charset_hash_val n))) as [[a'|] E'];
    rewrite E'; [eauto|].
  exfalso. destruct Hm as [(c & [i Hin] & Hcmp) | (a & [i Hin] & Hcmp)].
  - destruct (Hc i c Hin) as [Hh Hnz].
    rewrite (aliascmp_hash _ _ Hnz Hcmp) in Hh. subst i.
    exact (search_canon_none n _ E c Hin Hcmp).
  - destruct (Ha i a Hin) as [Hh Hnz].
    rewrite (aliascmp_hash _ _ Hnz Hcmp) in Hh. subst i.
    exact (search_alias_none n _ E' a Hin Hcmp).
Qed.

Lemma canonicalise_spelling n n' :
  Forall (fun c => c <> 0) n -> Forall (fun c => c <> 0) n' ->
  n <> [] -> n' <> [] -> lnorm n = lnorm n' ->
  parserutils_charset_alias_canonicalise t n =
  parserutils_charset_alias_canonicalise t n'.
Proof.
  intros Hn Hn' Hne Hne' Hl. destruct t_ok as [Hc Ha].
  unfold parserutils_charset_alias_canonicalise.
  rewrite (lnorm_hash n n' Hl).
  rewrite (search_canon_same _ n n'); try assumption.
  - rewrite (search_alias_same _ n n'); try assumption; [reflexivity|].
    apply Forall_forall. intros a Hin. now apply (Ha _ a Hin).
  - apply Forall_forall. intros c Hin. now apply (Hc _ c Hin).
Qed.

Lemma bucket_index_in (i : Z) : 0 <= i < HASH_SIZE -> In i bucket_indices.
Proof.
  intros Hi. unfold bucket_indices, HASH_SIZE in *.
  replace i with (Z.of_nat (Z.to_nat i)) by lia.
  apply in_map, in_seq. lia.
Qed.

Lemma mibenum_to_name_sound m nm :
  parserutils_charset_mibenum_to_name t m = Some nm ->
  exists c, canon_registered t c /\ mib_enum c = m /\ name c = nm.
Proof.
  unfold parserutils_charset_mibenum_to_name.
  destruct (find _ _) as [c|] eqn:E; [|discriminate].
  intros [= <-]. apply find_some in E. destruct E as [Hin Hm].
  apply in_flat_map in Hin. destruct Hin as (i & _ & Hin).
  exists c. split; [now exists i|]. split; [now apply Z.eqb_eq | reflexivity].
Qed.

Lemma mibenum_to_name_complete m :
  parserutils_charset_mibenum_to_name t m = None ->
  forall c, canon_registered t c -> mib_enum c <> m.
Proof.
  unfold parserutils_charset_mibenum_to_name.
  destruct (find _ _) as [c'|] eqn:E; [discriminate|].
  intros _ c [i Hin] Hm. destruct t_ok as [Hc _].
  destruct (Hc i c Hin) as [Hh _].
  assert (Hf : In c (flat_map (canon_tab t) bucket_indices)).
  { apply in_flat_map. exists i. split; [|assumption].
    apply bucket_index_in. rewrite <- Hh. apply hash_val_range. }
  pose proof (find_none _ _ E c Hf) as Hn. cbn in Hn.
  apply Z.eqb_neq in Hn. contradiction.
Qed.

End LookupMore.

(** X3. Whatever record [parserutils_charset_alias_canonicalise] returns is
    registered and earned the answer: either it is a registered canonical
    whose name compares equal to the query, or it is the canonical of a
    registered alias whose name does. *)
Theorem canonicalise_result_registered (t : alias_tables) (n : list Z)
    (c : parserutils_charset_aliases_canon) :
  parserutils_charset_alias_canonicalise t n = Some (Some c) ->
  (canon_registered t c /\ aliascmp (name c) n = Some 0) \/
  (exists a, alias_registered t a /\ canon a = c /\
             aliascmp (alias_name a) n = Some 0).
Proof.
  unfold parserutils_charset_alias_canonicalise.
  destruct (search_canon _ n) as [[c'|]|] eqn:Ec; [| |discriminate].
  - intros [= <-]. apply search_canon_found in Ec. left.
    split; [eexists; apply Ec | apply Ec].
  - destruct (search_alias _ n) as [[a|]|] eqn:Ea; try discriminate.
    intros [= <-]. apply search_alias_found in Ea. right. exists a.
    split; [eexists; apply Ea | split; [reflexivity | apply Ea]].
Qed.

Lemma canonicalise_result_registered_witness :
  (canon_registered utf8_tables utf8_canon /\
   aliascmp (name utf8_canon) (chars "u t f 8") = Some 0) \/
  (exists a, alias_registered utf8_tables a /\ canon a = utf8_canon /\
             aliascmp (alias_name a) (chars "u t f 8") = Some 0).
Proof.
  apply (canonicalise_result_registered utf8_tables (chars "u t f 8")
           utf8_canon).
  vm_compute. reflexivity.
Defined.

(** X4. After the alias table is loaded, a lookup never misses: if the
    name of some registered canonical or alias compares equal to the query
    (which holds no NUL), [parserutils_charset_alias_canonicalise] returns
    a record, not NULL, and [parserutils_charset_mibenum_from_name]
    returns the MIB enum of that record. *)
Theorem canonicalise_finds_match (alloc_ok : nat -> bool)
    (file : list alias_line) (n : list Z) :
  let t := parserutils_charset_aliases_create alloc_ok file empty_tables in
  Forall (fun x => x <> 0) n ->
  (exists c, canon_registered t c /\ aliascmp (name c) n = Some 0) \/
  (exists a, alias_registered t a /\ aliascmp (alias_name a) n = Some 0) ->
  exists c,
    parserutils_charset_alias_canonicalise t n = Some (Some c) /\
    parserutils_charset_mibenum_from_name t n = Some (mib_enum c).
Proof.
  intros t Hn Hm.
  destruct (canonicalise_complete t
              (aliases_create_ok alloc_ok file empty_tables empty_tables_ok)
              n Hn Hm) as [c Hc].
  exists c. split; [exact Hc|].
  unfold parserutils_charset_mibenum_from_name. rewrite Hc. reflexivity.
Qed.

Lemma canonicalise_finds_match_witness :
  exists c,
    parserutils_charset_alias_canonicalise utf8_tables (chars "U.T.F.8") =
      Some (Some c) /\
    parserutils_charset_mibenum_from_name utf8_tables (chars "U.T.F.8") =
      Some (mib_enum c).
Proof.
  apply (canonicalise_finds_match (fun _ => true) utf8_file (chars "U.T.F.8")).
  - repeat constructor; discriminate.
  - right. exists utf8_alias. split.
    + exists 8. left. reflexivity.
    + reflexivity.
Defined.

(** X5. After the alias table is loaded, the spelling of a query does not
    matter: two non-empty queries without NUL that agree once white space
    and punctuation are dropped and letters lower-cased get the same
    answer, the same record or NULL. *)
Theorem canonicalise_ignores_spelling (alloc_ok : nat -> bool)
    (file : list alias_line) (n n' : list Z) :
  let t := parserutils_charset_aliases_create alloc_ok file empty_tables in
  Forall (fun c => c <> 0) n -> Forall (fun c => c <> 0) n' ->
  n <> [] -> n' <> [] -> lnorm n = lnorm n' ->
  parserutils_charset_alias_canonicalise t n =
  parserutils_charset_alias_canonicalise t n'.
Proof.
  intros t. apply canonicalise_spelling.
  apply aliases_create_ok, empty_tables_ok.
Qed.

Lemma canonicalise_ignores_spelling_witness :
  parserutils_charset_alias_canonicalise unicode_tables (chars "u.t.f.8") =
  parserutils_charset_alias_canonicalise unicode_tables (chars "UTF8").
Proof.
  apply (canonicalise_ignores_spelling (fun _ => true) unicode_file
           (chars "u.t.f.8") (chars "UTF8")).
  - repeat constructor; discriminate.
  - repeat constructor; discriminate.
  - discriminate.
  - discriminate.
  - reflexivity.
Defined.

(** X6. The newest record wins.  Once [parserutils_charset_create_canon]
    has returned a record, every query without NUL that compares equal to
    its name resolves to that record and its MIB enum, whatever the tables
    held before, and every query without NUL that does not compare equal
    to it is answered as before.  When its allocation fails, no record is
    returned and both tables are as they were.  Once
    [parserutils_charset_create_alias] has returned Ok, every query that
    compares equal to the alias and to no registered canonical resolves to
    the canonical the alias was created for. *)
Theorem create_then_canonicalise (alloc_ok : nat -> bool)
    (t : alias_tables) (n : list Z) :
  Forall (fun x => x <> 0) n ->
  (forall nm mib c t',
     parserutils_charset_create_canon alloc_ok nm mib t = (Some c, t') ->
     aliascmp (cstr nm) n = Some 0 ->
     parserutils_charset_alias_canonicalise t' n = Some (Some c) /\
     parserutils_charset_mibenum_from_name t' n = Some mib) /\
  (forall nm mib c t',
     parserutils_charset_create_canon alloc_ok nm mib t = (Some c, t') ->
     aliascmp (cstr nm) n <> Some 0 ->
     parserutils_charset_alias_canonicalise t' n =
       parserutils_charset_alias_canonicalise t n /\
     parserutils_charset_mibenum_from_name t' n =
       parserutils_charset_mibenum_from_name t n) /\
  (forall nm mib t',
     parserutils_charset_create_canon alloc_ok nm mib t = (None, t') ->
     canon_tab t' = canon_tab t /\ alias_tab t' = alias_tab t) /\
  (forall a c t',
     parserutils_charset_create_alias alloc_ok a c t = (PARSERUTILS_OK, t') ->
     aliascmp (cstr a) n = Some 0 ->
     (forall c' i, In c' (canon_tab t i) -> aliascmp (name c') n <> Some 0) ->
     parserutils_charset_alias_canonicalise t' n = Some (Some c)).
Proof.
  intros Hn. split; [|split; [|split]].
  2: { intros nm mib c t'.
       unfold parserutils_charset_create_canon, alloc.
       destruct (alloc_ok (heap_next t)); [|discriminate].
       intros [= <- <-] Hcmp.
       assert (E : parserutils_charset_alias_canonicalise
                     (mk_tables
                        (set_bucket (canon_tab t)
                           (parserutils_charset_hash_val (cstr nm))
                           (mk_canon (heap_next t) mib
                              (uint16 (uint32 (Z.of_nat
                                 (List.length (cstr nm))))) (cstr nm)
                            :: canon_tab t
                                 (parserutils_charset_hash_val (cstr nm))))
                        (alias_tab t) (S (heap_next t))) n =
                   parserutils_charset_alias_canonicalise t n).
       { unfold parserutils_charset_alias_canonicalise.
         cbn [canon_tab alias_tab]. unfold set_bucket.
         destruct (parserutils_charset_hash_val n =?
                   parserutils_charset_hash_val (cstr nm)) eqn:Eh;
           [|reflexivity].
         apply Z.eqb_eq in Eh. rewrite Eh.
         cbn [search_canon name].
         destruct (aliascmp_defined (cstr nm) n Hn) as [r Hr]. rewrite Hr.
         destruct (r =? 0) eqn:Er; [|reflexivity].
         apply Z.eqb_eq in Er. subst r. contradiction. }
       split; [exact E|].
       unfold parserutils_charset_mibenum_from_name. cbn in E |- *.
       rewrite E. reflexivity. }
  2: { intros nm mib t'.
       unfold parserutils_charset_create_canon, alloc.
       destruct (alloc_ok (heap_next t)); [discriminate|].
       intros [= <-]. split; reflexivity. }
  - intros nm mib c t'.
    unfold parserutils_charset_create_canon, alloc.
    destruct (alloc_ok (heap_next t)); [|discriminate].
    intros [= <- <-] Hcmp.
    pose proof (aliascmp_hash _ _ (cstr_no_nul nm) Hcmp) as Hh.
    unfold parserutils_charset_mibenum_from_name,
      parserutils_charset_alias_canonicalise.
    cbn [canon_tab alias_tab]. unfold set_bucket.
    rewrite <- Hh, Z.eqb_refl. cbn [search_canon name].
    rewrite Hcmp. cbn. split; reflexivity.
  - intros a c t'.
    unfold parserutils_charset_create_alias, alloc.
    destruct (alloc_ok (heap_next t)); [|discriminate].
    intros [= <-] Hcmp Hno.
    pose proof (aliascmp_hash _ _ (cstr_no_nul a) Hcmp) as Hh.
    unfold parserutils_charset_alias_canonicalise.
    cbn [canon_tab alias_tab]. unfold set_bucket.
    destruct (search_canon_defined n Hn
                (canon_tab t (parserutils_charset_hash_val n))) as [[c'|] E];
      rewrite E.
    + apply search_canon_found in E. destruct E as [Hin Hm].
      destruct (Hno _ _ Hin Hm).
    + rewrite <- Hh, Z.eqb_refl. cbn [search_alias alias_name].
      rewrite Hcmp. reflexivity.
Qed.

Lemma create_then_canonicalise_witness :
  exists c t',
    parserutils_charset_create_canon (fun _ => true) (chars "UTF-8") 7
      utf8_tables = (Some c, t') /\
    parserutils_charset_mibenum_from_name t' (chars "utf8") = Some 7 /\
    parserutils_charset_mibenum_from_name t' (chars "utf") =
      parserutils_charset_mibenum_from_name utf8_tables (chars "utf").
Proof.
  destruct (parserutils_charset_create_canon (fun _ => true) (chars "UTF-8") 7
              utf8_tables) as [[c|] t'] eqn:E;
    [|vm_compute in E; discriminate E].
  exists c, t'. split; [reflexivity|]. split.
  - apply (proj1 (create_then_canonicalise (fun _ => true) utf8_tables
                    (chars "utf8")
                    ltac:(repeat constructor; discriminate))
             (chars "UTF-8") 7 c t' E).
    reflexivity.
  - apply (proj1 (proj2 (create_then_canonicalise (fun _ => true) utf8_tables
                    (chars "utf")
                    ltac:(repeat constructor; discriminate)))
             (chars "UTF-8") 7 c t' E).
    discriminate.
Defined.

(** X7. After the alias table is loaded,
    [parserutils_charset_mibenum_to_name] returns the name of a registered
    canonical with the MIB enum asked for, and returns NULL only when no
    registered canonical has it. *)
Theorem mibenum_to_name_exact (alloc_ok : nat -> bool)
    (file : list alias_line) (m : Z) :
  let t := parserutils_charset_aliases_create alloc_ok file empty_tables in
  (forall nm, parserutils_charset_mibenum_to_name t m = Some nm ->
     exists c, canon_registered t c /\ mib_enum c = m /\ name c = nm) /\
  (parserutils_charset_mibenum_to_name t m = None ->
     forall c, canon_registered t c -> mib_enum c <> m).
Proof.
  intros t.
  assert (Ht : tables_ok t) by apply aliases_create_ok, empty_tables_ok.
  split.
  - intros nm. apply mibenum_to_name_sound.
  - now apply mibenum_to_name_complete.
Qed.

Lemma mibenum_to_name_exact_witness :
  (exists c, canon_registered unicode_tables c /\ mib_enum c = 1014 /\
             name c = chars "UTF-16LE") /\
  (forall c, canon_registered unicode_tables c -> mib_enum c <> 3).
Proof.
  destruct (mibenum_to_name_exact (fun _ => true) unicode_file 1014)
    as [H1 _].
  destruct (mibenum_to_name_exact (fun _ => true) unicode_file 3)
    as [_ H2].
  split; [apply H1 | apply H2]; vm_compute; reflexivity.
Defined.

Section DestroyFacts.

Lemma untouched_bucket {A : Type} (ix : list Z) : forall (tab : Z -> list A) i,
  ~ In i ix ->
  fold_left (fun tab i => set_bucket tab i []) ix tab i = tab i.
Proof.
  induction ix as [|j ix IH]; intros tab i Hi; [reflexivity|].
  cbn [fold_left]. rewrite IH by (intros H; apply Hi; now right).
  unfold set_bucket. destruct (i =? j) eqn:E; [|reflexivity].
  apply Z.eqb_eq in E. subst j. exfalso. apply Hi. now left.
Qed.

Lemma cleared_bucket {A : Type} (ix : list Z) : forall (tab : Z -> list A) i,
  In i ix ->
  fold_left (fun tab i => set_bucket tab i []) ix tab i = [].
Proof.
  induction ix as [|j ix IH]; intros tab i Hin; [destruct Hin|].
  cbn [fold_left]. destruct (in_dec Z.eq_dec i ix) as [Hi|Hi].
  - now apply IH.
  - destruct Hin as [->|Hin]; [|contradiction].
    rewrite untouched_bucket by exact Hi.
    unfold set_bucket. now rewrite Z.eqb_refl.
Qed.

Lemma flat_map_empty {A B : Type} (f : A -> list B) (l : list A) :
  (forall x, In x l -> f x = []) -> flat_map f l = [].
Proof.
  induction l as [|x l IH]; intros H; [reflexivity|].
  cbn [flat_map]. rewrite (H x) by now left.
  cbn. apply IH. intros y Hy. apply H. now right.
Qed.

End DestroyFacts.

(** X8. After [parserutils_charset_aliases_destroy] nothing is known any
    more: every query without NUL resolves to NULL, its MIB enum ix 0, and
    no MIB enum has a name. *)
Theorem destroy_then_lookup (t : alias_tables) (n : list Z) (m : Z) :
  Forall (fun x => x <> 0) n ->
  let t' := parserutils_charset_aliases_destroy t in
  parserutils_charset_alias_canonicalise t' n = Some None /\
  parserutils_charset_mibenum_from_name t' n = Some 0 /\
  parserutils_charset_mibenum_to_name t' m = None.
Proof.
  intros Hn t'.
  assert (Hc : forall i, In i bucket_indices -> canon_tab t' i = []).
  { intros i Hi. unfold t', parserutils_charset_aliases_destroy.
    cbn [canon_tab]. now apply cleared_bucket. }
  assert (Ha : forall i, In i bucket_indices -> alias_tab t' i = []).
  { intros i Hi. unfold t', parserutils_charset_aliases_destroy.
    cbn [alias_tab]. now apply cleared_bucket. }
  assert (Hh : In (parserutils_charset_hash_val n) bucket_indices)
    by apply bucket_index_in, hash_val_range.
  assert (E : parserutils_charset_alias_canonicalise t' n = Some None).
  { unfold parserutils_charset_alias_canonicalise.
    rewrite (Hc _ Hh), (Ha _ Hh). reflexivity. }
  split; [exact E|]. split.
  - unfold parserutils_charset_mibenum_from_name. now rewrite E.
  - unfold parserutils_charset_mibenum_to_name.
    rewrite (flat_map_empty _ _ Hc). reflexivity.
Qed.

Lemma destroy_then_lookup_witness :
  parserutils_charset_alias_canonicalise
    (parserutils_charset_aliases_destroy unicode_tables) (chars "UTF-8") =
  Some None.
Proof.
  apply (destroy_then_lookup unicode_tables (chars "UTF-8") 106).
  repeat constructor; discriminate.
Defined.

(** ** The cache of [parserutils_charset_mibenum_is_unicode] *)

(** X9. Once a call of [parserutils_charset_mibenum_is_unicode] has
    resolved UCS-4 to a non-zero MIB enum, the nine static variables are
    never written again: later calls answer from them whatever the alias
    tables hold by then, for instance after
    [parserutils_charset_aliases_destroy]. *)
Theorem is_unicode_cache_outlives_tables (t t' : alias_tables) (m0 m : Z) :
  mibenum_from_cstr t (chars "UCS-4") <> 0 ->
  let st1 := fst (parserutils_charset_mibenum_is_unicode t
                    unicode_statics_init m0) in
  parserutils_charset_mibenum_is_unicode t' st1 m =
    (st1, snd (parserutils_charset_mibenum_is_unicode t
                 unicode_statics_init m)).
Proof.
  intros H. unfold parserutils_charset_mibenum_is_unicode.
  cbn [unicode_statics_init u_ucs4 fst snd]. cbn [Z.eqb].
  cbn [u_ucs4 u_ucs2 u_utf8 u_utf16 u_utf16be u_utf16le u_utf32 u_utf32be
       u_utf32le].
  apply Z.eqb_neq in H. rewrite H. reflexivity.
Qed.

Lemma is_unicode_cache_outlives_tables_witness :
  parserutils_charset_mibenum_is_unicode
    (parserutils_charset_aliases_destroy ucs_tables)
    (fst (parserutils_charset_mibenum_is_unicode ucs_tables
            unicode_statics_init 4)) 106 =
  (fst (parserutils_charset_mibenum_is_unicode ucs_tables
          unicode_statics_init 4), true).
Proof.
  apply (is_unicode_cache_outlives_tables ucs_tables
           (parserutils_charset_aliases_destroy ucs_tables) 4 106).
  vm_compute. discriminate.
Defined.

(** X10. While the alias tables do not resolve UCS-4, every call of
    [parserutils_charset_mibenum_is_unicode] that finds the static [ucs4]
    at 0 repeats the nine lookups, leaves [ucs4] at 0, and reports the MIB
    enum 0 (the value for an unknown charset) as Unicode. *)
Theorem is_unicode_of_unknown (t : alias_tables) (st : unicode_statics) :
  mibenum_from_cstr t (chars "UCS-4") = 0 ->
  u_ucs4 st = 0 ->
  snd (parserutils_charset_mibenum_is_unicode t st 0) = true /\
  u_ucs4 (fst (parserutils_charset_mibenum_is_unicode t st 0)) = 0.
Proof.
  intros H Hs. unfold parserutils_charset_mibenum_is_unicode.
  rewrite Hs. cbn [Z.eqb fst snd u_ucs4]. rewrite H. split; reflexivity.
Qed.

Lemma is_unicode_of_unknown_witness :
  snd (parserutils_charset_mibenum_is_unicode unicode_tables
         unicode_statics_init 0) = true.
Proof.
  apply (is_unicode_of_unknown unicode_tables unicode_statics_init);
    reflexivity.
Defined.

(** ** The filter's loop *)

Section FilterMore.

Context {impl : Type}.

Lemma same_codec_refl (c : option (parserutils_charset_codec impl)) :
  same_codec c c.
Proof. destruct c; cbn; auto. Qed.

Lemma same_codec_trans (a b c : option (parserutils_charset_codec impl)) :
  same_codec a b -> same_codec b c -> same_codec a c.
Proof.
  destruct a, b, c; cbn; try tauto.
  intros (H1 & H2 & H3) (H4 & H5 & H6). repeat split; congruence.
Qed.

Lemma encode_same (c : option (parserutils_charset_codec impl))
    source destlen e c' source' written :
  parserutils_charset_codec_encode c source destlen =
    Ret (e, c', source', written) ->
  same_codec c c'.
Proof.
  unfold parserutils_charset_codec_encode.
  destruct c as [c|]; [destruct source as [src|]|].
  - destruct (v_encode _ _ _ _ _ _) as [r| | |]; cbn [bind]; try discriminate.
    intros [= _ <- _ _]. cbn. auto.
  - intros [= _ <- _ _]. apply same_codec_refl.
  - intros [= _ <- _ _]. apply same_codec_refl.
Qed.

Lemma decode_same (c : option (parserutils_charset_codec impl))
    source destlen e c' source' written :
  parserutils_charset_codec_decode c source destlen =
    Ret (e, c', source', written) ->
  same_codec c c'.
Proof.
  unfold parserutils_charset_codec_decode.
  destruct c as [c|]; [destruct source as [src|]|].
  - destruct (v_decode _ _ _ _ _ _) as [r| | |]; cbn [bind]; try discriminate.
    intros [= _ <- _ _]. cbn. auto.
  - intros [= _ <- _ _]. apply same_codec_refl.
  - intros [= _ <- _ _]. apply same_codec_refl.
Qed.

Lemma reset_same (c : option (parserutils_charset_codec impl)) :
  same_codec c (snd (parserutils_charset_codec_reset c)).
Proof.
  unfold parserutils_charset_codec_reset. destruct c as [c|]; [|exact I].
  destruct (v_reset (handler c) (priv c)) as [e p]. cbn. auto.
Qed.

(** What one turn of the loop does to the write codec. *)
Lemma turn_encode_same (wc0 : option (parserutils_charset_codec impl))
    (b : bool) pivot outlen we wc pivot' out :
  (if b then parserutils_charset_codec_encode wc0 (Some pivot) outlen
   else Ret (PARSERUTILS_OK, wc0, Some pivot, [])) =
    Ret (we, wc, pivot', out) ->
  same_codec wc0 wc.
Proof.
  destruct b.
  - apply encode_same.
  - intros [= _ <- _ _]. apply same_codec_refl.
Qed.

Lemma process_loop_same fuel : forall (f : parserutils_filter impl)
    data output outlen r,
  process_loop fuel f data output outlen = Ret r ->
  same_codec (read_codec f) (read_codec (c_filter r)) /\
  same_codec (write_codec f) (write_codec (c_filter r)) /\
  encoding (c_filter r) = encoding f.
Proof.
  induction fuel as [|fuel IH]; intros f data output outlen r.
  - destruct data; cbn; [|discriminate]. intros [= <-]. cbn.
    repeat split; apply same_codec_refl.
  - destruct data as [|x data].
    { cbn. intros [= <-]. cbn. repeat split; apply same_codec_refl. }
    cbn [process_loop].
    destruct (parserutils_charset_codec_decode (read_codec f) _ _)
      as [[[[re rc] data'] pivot]| | |] eqn:Ed; cbn [bind]; try discriminate.
    cbn [write_codec].
    destruct (if 0 <? _ then _ else _)
      as [[[[we wc] pivot'] out]| | |] eqn:Ee; cbn [bind]; try discriminate.
    intros H.
    pose proof (decode_same _ _ _ _ _ _ _ Ed) as Hrc.
    pose proof (turn_encode_same _ _ _ _ _ _ _ _ Ee) as Hwc.
    destruct (negb (error_eqb we PARSERUTILS_OK)).
    { injection H as <-. cbn. auto. }
    destruct (negb (error_eqb re PARSERUTILS_OK) &&
              negb (error_eqb re PARSERUTILS_NOMEM)).
    { injection H as <-. cbn. auto. }
    apply IH in H. cbn in H. destruct H as (H1 & H2 & H3).
    repeat split; [eapply same_codec_trans; eauto
                  |eapply same_codec_trans; eauto|exact H3].
Qed.

Lemma process_loop_ok fuel : forall (f : parserutils_filter impl)
    data output outlen r,
  process_loop fuel f data output outlen = Ret r ->
  c_error r = PARSERUTILS_OK ->
  c_data r = [] /\ leftover (c_filter r) = leftover f /\
  pivot_left (c_filter r) = pivot_left f.
Proof.
  induction fuel as [|fuel IH]; intros f data output outlen r.
  - destruct data; cbn; [|discriminate]. intros [= <-]. cbn. auto.
  - destruct data as [|x data]; [cbn; intros [= <-]; cbn; auto|].
    cbn [process_loop].
    destruct (parserutils_charset_codec_decode (read_codec f) _ _)
      as [[[[re rc] data'] pivot]| | |] eqn:Ed; cbn [bind]; try discriminate.
    cbn [write_codec].
    destruct (if 0 <? _ then _ else _)
      as [[[[we wc] pivot'] out]| | |] eqn:Ee; cbn [bind]; try discriminate.
    intros H Hok.
    destruct (negb (error_eqb we PARSERUTILS_OK)) eqn:Ew.
    { injection H as <-. cbn in Hok. subst we. discriminate Ew. }
    destruct (negb (error_eqb re PARSERUTILS_OK) &&
              negb (error_eqb re PARSERUTILS_NOMEM)) eqn:Er.
    { injection H as <-. cbn in Hok. subst re. discriminate Er. }
    apply IH in H; [|exact Hok]. exact H.
Qed.

Section Progress.

Variable f0 : parserutils_filter impl.

(** The read codec's [decode] returns, and either consumes input or
    reports an error other than NOMEM. *)
Hypothesis decode_progress : forall c p src,
  read_codec f0 = Some c -> src <> [] ->
  exists r,
    v_decode (handler c) (Codec.mibenum c) (errormode c) p src PIVOT_BYTES = Ret r /\
    ((List.length (r_source r) < List.length src)%nat \/
     (r_error r <> PARSERUTILS_OK /\ r_error r <> PARSERUTILS_NOMEM)).

(** The write codec's [encode] returns. *)
Hypothesis encode_returns : forall c p src destlen,
  write_codec f0 = Some c ->
  exists r,
    v_encode (handler c) (Codec.mibenum c) (errormode c) p src destlen = Ret r.

Lemma encode_total (wc : option (parserutils_charset_codec impl))
    source destlen :
  same_codec (write_codec f0) wc ->
  exists res, parserutils_charset_codec_encode wc source destlen = Ret res.
Proof.
  intros Hs. unfold parserutils_charset_codec_encode.
  destruct wc as [b|]; [|eexists; reflexivity].
  destruct source as [src|]; [|eexists; reflexivity].
  destruct (write_codec f0) as [a|] eqn:Ea; [|destruct Hs].
  destruct Hs as (Hm & He & Hh).
  destruct (encode_returns a (priv b) src destlen eq_refl) as [r Hr].
  rewrite <- Hm, <- He, <- Hh, Hr. cbn. eexists; reflexivity.
Qed.

Lemma process_loop_terminates fuel : forall (f : parserutils_filter impl)
    data output outlen,
  same_codec (read_codec f0) (read_codec f) ->
  same_codec (write_codec f0) (write_codec f) ->
  (List.length data <= fuel)%nat ->
  exists r, process_loop fuel f data output outlen = Ret r.
Proof.
  induction fuel as [|fuel IH]; intros f data output outlen Hr Hw Hl.
  - destruct data; [eexists; reflexivity | cbn in Hl; lia].
  - destruct data as [|x data]; [eexists; reflexivity|].
    cbn [process_loop].
    assert (Hd : exists re rc data' pivot,
               parserutils_charset_codec_decode (read_codec f)
                 (Some (x :: data)) PIVOT_BYTES =
               Ret (re, rc, data', pivot) /\
               ((List.length (Filter.cursor data') <
                 List.length (x :: data))%nat \/
                (re <> PARSERUTILS_OK /\ re <> PARSERUTILS_NOMEM))).
    { unfold parserutils_charset_codec_decode.
      destruct (read_codec f) as [b|] eqn:Eb.
      - destruct (read_codec f0) as [a|] eqn:Ea; [|destruct Hr].
        destruct Hr as (Hm & He & Hh).
        destruct (decode_progress a (priv b) (x :: data) eq_refl
                    ltac:(discriminate)) as (r & Hdec & Hp).
        rewrite <- Hm, <- He, <- Hh, Hdec. cbn [bind].
        do 4 eexists. split; [reflexivity|exact Hp].
      - do 4 eexists. split; [reflexivity|].
        right. split; discriminate. }
    destruct Hd as (re & rc & data' & pivot & Ed & Hp).
    pose proof (decode_same _ _ _ _ _ _ _ Ed) as Hrc.
    rewrite Ed. cbn [bind write_codec].
    assert (He : exists we wc pivot' out,
               (if 0 <? PIVOT_BYTES -
                        (PIVOT_BYTES - Z.of_nat (List.length pivot))
                then parserutils_charset_codec_encode (write_codec f)
                       (Some pivot) outlen
                else Ret (PARSERUTILS_OK, write_codec f, Some pivot, [])) =
               Ret (we, wc, pivot', out)).
    { destruct (0 <? _).
      - destruct (encode_total (write_codec f) (Some pivot) outlen Hw)
          as [[[[we wc] pivot'] out] E].
        do 4 eexists. exact E.
      - do 4 eexists. reflexivity. }
    destruct He as (we & wc & pivot' & out & Ee).
    pose proof (turn_encode_same _ _ _ _ _ _ _ _ Ee) as Hwc.
    rewrite Ee. cbn [bind].
    destruct (negb (error_eqb we PARSERUTILS_OK)); [eexists; reflexivity|].
    destruct (negb (error_eqb re PARSERUTILS_OK) &&
              negb (error_eqb re PARSERUTILS_NOMEM)) eqn:Er;
      [eexists; reflexivity|].
    apply IH; cbn [read_codec write_codec].
    + eapply same_codec_trans; eauto.
    + eapply same_codec_trans; eauto.
    + destruct Hp as [Hp|[H1 H2]].
      * cbn in Hp, Hl |- *. lia.
      * exfalso. destruct re; try discriminate Er; congruence.
Qed.


End Progress.

End FilterMore.

(** X11. When [parserutils_filter_process_chunk] returns OK, all of the
    input has been consumed and nothing is pending in the pivot buffer;
    put the other way, a filter left with [leftover] set always comes with
    an error code. *)
Theorem process_chunk_ok_drains {impl : Type} (fuel : nat)
    (f : parserutils_filter impl) (data : list Z) (outlen : Z)
    (r : chunk_result impl) :
  parserutils_filter_process_chunk fuel f data outlen = Ret r ->
  (c_error r = PARSERUTILS_OK ->
   c_data r = [] /\ leftover (c_filter r) = false) /\
  (leftover (c_filter r) = true -> c_error r <> PARSERUTILS_OK).
Proof.
  intros H.
  assert (Hok : c_error r = PARSERUTILS_OK ->
                c_data r = [] /\ leftover (c_filter r) = false).
  { revert H. unfold parserutils_filter_process_chunk.
    destruct (leftover f) eqn:El.
    - destruct (parserutils_charset_codec_encode (write_codec f) _ _)
        as [[[[we wc] pivot'] out]| | |] eqn:Ee; cbn [bind];
        try discriminate.
      destruct (negb (error_eqb we PARSERUTILS_OK)) eqn:Ew.
      + intros [= <-] Hok. cbn in Hok. subst we. discriminate Ew.
      + intros H Hok. destruct (process_loop_ok _ _ _ _ _ _ H Hok)
          as (H1 & H2 & _). split; [exact H1 | exact H2].
    - intros H Hok. destruct (process_loop_ok _ _ _ _ _ _ H Hok)
        as (H1 & H2 & _). split; [exact H1 | congruence]. }
  split; [exact Hok|].
  intros Hl Herr. destruct (Hok Herr) as [_ Hf]. congruence.
Qed.

Lemma process_chunk_ok_drains_witness :
  c_data (mk_chunk PARSERUTILS_OK
            (mk_filter (Some single_byte_codec) (Some single_byte_codec)
                       false None 106)
            [] [0x41; 0x42] 6) = [] /\
  leftover (c_filter (mk_chunk PARSERUTILS_OK
            (mk_filter (Some single_byte_codec) (Some single_byte_codec)
                       false None 106)
            [] [0x41; 0x42] 6)) = false.
Proof.
  apply (proj1 (process_chunk_ok_drains 5
                  (mk_filter (Some single_byte_codec)
                             (Some single_byte_codec) true
                             (Some [0; 0; 0; 0x41]) 106)
                  [0x42] 8 _ eq_refl)).
  reflexivity.
Defined.

Lemma process_chunk_same {impl : Type} (fuel : nat)
    (f : parserutils_filter impl) (data : list Z) (outlen : Z)
    (r : chunk_result impl) :
  parserutils_filter_process_chunk fuel f data outlen = Ret r ->
  same_codec (read_codec f) (read_codec (c_filter r)) /\
  same_codec (write_codec f) (write_codec (c_filter r)) /\
  encoding (c_filter r) = encoding f.
Proof.
  unfold parserutils_filter_process_chunk. destruct (leftover f).
  - destruct (parserutils_charset_codec_encode (write_codec f) _ _)
      as [[[[we wc] pivot'] out]| | |] eqn:Ee; cbn [bind];
      try discriminate.
    pose proof (encode_same _ _ _ _ _ _ _ Ee) as Hwc.
    destruct (negb (error_eqb we PARSERUTILS_OK)).
    + intros [= <-]. cbn. repeat split; [apply same_codec_refl|exact Hwc].
    + intros H. apply process_loop_same in H. cbn in H.
      destruct H as (H1 & H2 & H3).
      repeat split; [exact H1|eapply same_codec_trans; eauto|exact H3].
  - apply process_loop_same.
Qed.

(** X13. A codec of a filter is only ever replaced by
    [filter_set_encoding].  [parserutils_filter_process_chunk] and
    [parserutils_filter_reset] leave the input encoding as it is, and each
    codec pointer is NULL before and after, or designates a codec with the
    same MIB enum, error mode and handler table before and after. *)
Theorem process_chunk_keeps_codecs {impl : Type} (fuel : nat)
    (f : parserutils_filter impl) (data : list Z) (outlen : Z) :
  (forall r,
     parserutils_filter_process_chunk fuel f data outlen = Ret r ->
     same_codec (read_codec f) (read_codec (c_filter r)) /\
     same_codec (write_codec f) (write_codec (c_filter r)) /\
     encoding (c_filter r) = encoding f) /\
  same_codec (read_codec f) (read_codec (snd (parserutils_filter_reset f))) /\
  same_codec (write_codec f)
    (write_codec (snd (parserutils_filter_reset f))) /\
  encoding (snd (parserutils_filter_reset f)) = encoding f.
Proof.
  split; [intros r; apply process_chunk_same|].
  unfold parserutils_filter_reset.
  pose proof (reset_same (read_codec f)) as Hr.
  pose proof (reset_same (write_codec f)) as Hw.
  destruct (parserutils_charset_codec_reset (read_codec f)) as [e1 rc].
  destruct (parserutils_charset_codec_reset (write_codec f)) as [e2 wc].
  cbn [snd] in Hr, Hw.
  destruct (negb (error_eqb e1 PARSERUTILS_OK)).
  - cbn. split; [exact Hr|]. split; [apply same_codec_refl|reflexivity].
  - destruct (negb (error_eqb e2 PARSERUTILS_OK)); cbn;
      (split; [exact Hr|]; split; [exact Hw|reflexivity]).
Qed.

Lemma process_chunk_keeps_codecs_witness :
  encoding (c_filter (mk_chunk PARSERUTILS_OK
              (mk_filter (Some single_byte_codec) (Some single_byte_codec)
                         false None 106)
              [] [0x41; 0x42] 0)) = 106.
Proof.
  apply (proj1 (process_chunk_keeps_codecs 5
                  (mk_filter (Some single_byte_codec)
                             (Some single_byte_codec) false None 106)
                  [0x41; 0x42] 2) _ eq_refl).
Defined.

Lemma single_byte_decode_shrinks (source : list Z) : forall destlen written,
  (List.length (r_source (single_byte_decode source destlen written)) <=
   List.length source)%nat.
Proof.
  induction source as [|b rest IH]; intros destlen written; [cbn; lia|].
  cbn [single_byte_decode]. destruct (destlen <? 4); [cbn; lia|].
  specialize (IH (destlen - 4) (written ++ [0; 0; 0; b])). cbn. lia.
Qed.

(** X14. [parserutils_filter_process_chunk] returns: when every call of
    the read codec's [decode] on non-empty input returns and either
    consumes at least one byte or reports an error other than NOMEM, and
    every call of the write codec's [encode] returns, the loop ends after
    at most as many turns as there are input bytes. *)
Theorem process_chunk_terminates {impl : Type}
    (f : parserutils_filter impl) (data : list Z) (outlen : Z) (fuel : nat) :
  (forall c p src,
     read_codec f = Some c -> src <> [] ->
     exists r,
       v_decode (handler c) (Codec.mibenum c) (errormode c) p src PIVOT_BYTES =
         Ret r /\
       ((List.length (r_source r) < List.length src)%nat \/
        (r_error r <> PARSERUTILS_OK /\ r_error r <> PARSERUTILS_NOMEM))) ->
  (forall c p src destlen,
     write_codec f = Some c ->
     exists r,
       v_encode (handler c) (Codec.mibenum c) (errormode c) p src destlen =
         Ret r) ->
  (List.length data <= fuel)%nat ->
  exists r, parserutils_filter_process_chunk fuel f data outlen = Ret r.
Proof.
  intros Hdec Henc Hl. unfold parserutils_filter_process_chunk.
  destruct (leftover f).
  - destruct (encode_total f Henc (write_codec f) (pivot_left f) outlen
                (same_codec_refl _)) as [[[[we wc] pivot'] out] Ee].
    rewrite Ee. cbn [bind].
    destruct (negb (error_eqb we PARSERUTILS_OK)); [eexists; reflexivity|].
    apply (process_loop_terminates f Hdec Henc); cbn;
      [apply same_codec_refl|eapply encode_same; eauto|exact Hl].
  - apply (process_loop_terminates f Hdec Henc);
      [apply same_codec_refl|apply same_codec_refl|exact Hl].
Qed.

Lemma process_chunk_terminates_witness :
  exists r,
    parserutils_filter_process_chunk 2
      (mk_filter (Some single_byte_codec) (Some single_byte_codec) false
                 None 106)
      [0x41; 0x42] 2 = Ret r.
Proof.
  apply (process_chunk_terminates
           (mk_filter (Some single_byte_codec) (Some single_byte_codec) false
                      None 106)
           [0x41; 0x42] 2 2).
  - intros c p src [= <-] Hsrc. destruct src as [|b rest]; [congruence|].
    eexists. split; [reflexivity|]. left.
    change (single_byte_decode (b :: rest) PIVOT_BYTES [])
      with (single_byte_decode rest (PIVOT_BYTES - 4) ([] ++ [0; 0; 0; b])).
    pose proof (single_byte_decode_shrinks rest (PIVOT_BYTES - 4)
                  ([] ++ [0; 0; 0; b])).
    cbn [List.length]. lia.
  - intros c p src destlen [= <-]. eexists. reflexivity.
  - cbn. lia.
Defined.

(** ** The iconv codec's decoder *)

Section IconvMore.

Variable cd : Type.
Variable iconv : cd -> list Z -> Z -> iconv_return cd.
Variable ucs4_junk : list Z.

Lemma read_char_codes fuel mode (c : iconv_codec cd) source destlen
    e c' s' w :
  iconv_codec_read_char cd iconv ucs4_junk fuel mode c source destlen =
    Ret (e, c', s', w) ->
  e = PARSERUTILS_OK \/
  (e = PARSERUTILS_NOMEM /\ read_len cd c' = 1) \/
  (e = PARSERUTILS_INVALID /\
   mode = PARSERUTILS_CHARSET_CODEC_ERROR_STRICT /\ inval_len cd c' = 0).
Proof.
  unfold iconv_codec_read_char, iconv_codec_output_decoded_char.
  set (r := iconv (read_cd cd c) source 4).
  assert (Hread : forall u,
    (let '(error, c0, written) :=
       if destlen <? 4
       then (PARSERUTILS_NOMEM,
             set_read cd (set_read_cd cd c (ic_cd cd r))
               (u :: tl (read_buf cd (set_read_cd cd c (ic_cd cd r)))) 1, [])
       else (PARSERUTILS_OK, set_read_cd cd c (ic_cd cd r), u) in
     Ret (error, clear_inval cd c0,
          if negb (error_eqb error PARSERUTILS_OK) &&
             negb (error_eqb error PARSERUTILS_NOMEM)
          then source else ic_in cd r, written)) = Ret (e, c', s', w) ->
    e = PARSERUTILS_OK \/
    (e = PARSERUTILS_NOMEM /\ read_len cd c' = 1) \/
    (e = PARSERUTILS_INVALID /\
     mode = PARSERUTILS_CHARSET_CODEC_ERROR_STRICT /\ inval_len cd c' = 0)).
  { intros u. destruct (destlen <? 4); cbn; intros [= <- <- _ _]; auto. }
  destruct (ic_failed cd r) as [err|]; [|apply Hread].
  destruct (negb _ && (_ =? 0)); [apply Hread|].
  destruct err.
  - discriminate.
  - destruct mode.
    + intros [= <- <- _ _]. right. right. auto.
    + destruct (find_next_valid _ _ _ _ _) as [[[found d] src]| | |];
        cbn [bind]; try discriminate.
      destruct (negb found && _); [discriminate|].
      destruct (destlen <? 4); cbn; intros [= <- <- _ _]; auto.
    + destruct (find_next_valid _ _ _ _ _) as [[[found d] src]| | |];
        cbn [bind]; try discriminate.
      destruct (negb found && _); [discriminate|].
      destruct (destlen <? 4); cbn; intros [= <- <- _ _]; auto.
  - destruct (INVAL_BUFSIZE <? _); [discriminate|].
    destruct (_ =? INVAL_BUFSIZE); [discriminate|].
    intros [= <- _ _ _]. auto.
  - intros [= <- _ _ _]. auto.
Qed.

Lemma decode_loop_codes fuel mode : forall (c : iconv_codec cd) source
    destlen written e c' s' w,
  decode_loop cd iconv ucs4_junk fuel mode c source destlen written =
    Ret (e, c', s', w) ->
  (e = PARSERUTILS_OK /\ s' = []) \/
  (e = PARSERUTILS_NOMEM /\ read_len cd c' = 1) \/
  (e = PARSERUTILS_INVALID /\
   mode = PARSERUTILS_CHARSET_CODEC_ERROR_STRICT /\ inval_len cd c' = 0).
Proof.
  induction fuel as [|fuel IH]; intros c source destlen written e c' s' w.
  - destruct source; cbn; [|discriminate]. intros [= <- _ <- _]. auto.
  - destruct source as [|b source]; [cbn; intros [= <- _ <- _]; auto|].
    cbn [decode_loop].
    destruct (iconv_codec_read_char _ _ _ _ _ _ _ _)
      as [[[[e1 c1] s1] w1]| | |] eqn:Er; cbn [bind]; try discriminate.
    apply read_char_codes in Er.
    destruct (negb (error_eqb e1 PARSERUTILS_OK)) eqn:En.
    + intros [= <- <- _ _].
      destruct Er as [->|[H|H]]; [discriminate En|auto|auto].
    + apply IH.
Qed.

End IconvMore.

(** X15. What [iconv_codec_decode] can return.  OK only with the whole
    input consumed; NOMEM only with a decoded character parked in
    [read_buf] for the next call; INVALID only in Strict mode, and then
    with the buffer of incomplete input emptied.  No other code is
    returned, so a decoder in Loose or Translit mode never reports an
    invalid sequence. *)
Theorem iconv_decode_result_codes (cd : Type)
    (iconv : cd -> list Z -> Z -> iconv_return cd) (ucs4_junk : list Z)
    (fuel : nat) (mode : Codec.parserutils_charset_codec_errormode)
    (c : iconv_codec cd) (source : list Z) (destlen : Z)
    (e : parserutils_error) (c' : iconv_codec cd) (s' w : list Z) :
  iconv_codec_decode cd iconv ucs4_junk fuel mode c source destlen =
    Ret (e, c', s', w) ->
  (e = PARSERUTILS_OK /\ s' = []) \/
  (e = PARSERUTILS_NOMEM /\ 0 < read_len cd c') \/
  (e = PARSERUTILS_INVALID /\
   mode = Codec.PARSERUTILS_CHARSET_CODEC_ERROR_STRICT /\
   inval_len cd c' = 0).
Proof.
  assert (Hloop : forall c0 src dl wr,
            decode_loop cd iconv ucs4_junk fuel mode c0 src dl wr =
              Ret (e, c', s', w) ->
            (e = PARSERUTILS_OK /\ s' = []) \/
            (e = PARSERUTILS_NOMEM /\ 0 < read_len cd c') \/
            (e = PARSERUTILS_INVALID /\
             mode = Codec.PARSERUTILS_CHARSET_CODEC_ERROR_STRICT /\
             inval_len cd c' = 0)).
  { intros c0 src dl wr H. apply decode_loop_codes in H.
    destruct H as [H|[[H1 H2]|H]]; auto. right. left. split; [exact H1|lia]. }
  unfold iconv_codec_decode.
  destruct (if 0 <? read_len cd c then _ else _) as [[[pread len] dl1] wr].
  cbn [read_len inval_len set_read].
  destruct ((0 <? len) && (dl1 <? len * 4)) eqn:Ef.
  { intros [= <- <- _ _]. right. left. split; [reflexivity|].
    cbn [read_len set_read]. apply andb_prop in Ef. lia. }
  destruct (0 <? inval_len cd c); [|apply Hloop].
  destruct (INVAL_BUFSIZE <? _); [discriminate|].
  destruct (iconv_codec_read_char _ _ _ _ _ _ _ _)
    as [[[[e1 c1] s1] w1]| | |] eqn:Er; cbn [bind]; try discriminate.
  apply read_char_codes in Er.
  destruct (negb (error_eqb e1 PARSERUTILS_OK) &&
            negb (error_eqb e1 PARSERUTILS_NOMEM)) eqn:En.
  { intros [= <- <- _ _].
    destruct Er as [->|[[-> _]|H]]; [discriminate En|discriminate En|auto]. }
  destruct (_ =? 0); [discriminate|].
  destruct (negb (error_eqb e1 PARSERUTILS_OK)) eqn:En1; [|apply Hloop].
  intros [= <- <- _ _].
  destruct Er as [->|[[H1 H2]|H]]; [discriminate En1| |auto].
  right. left. split; [exact H1|lia].
Qed.

Lemma iconv_decode_result_codes_witness :
  (PARSERUTILS_OK = PARSERUTILS_OK /\ @nil Z = []) \/
  (PARSERUTILS_OK = PARSERUTILS_NOMEM /\
   0 < read_len unit (set_inval unit fresh_iconv_codec [0x00] 1)) \/
  (PARSERUTILS_OK = PARSERUTILS_INVALID /\
   Codec.PARSERUTILS_CHARSET_CODEC_ERROR_LOOSE =
     Codec.PARSERUTILS_CHARSET_CODEC_ERROR_STRICT /\
   inval_len unit (set_inval unit fresh_iconv_codec [0x00] 1) = 0).
Proof.
  apply (iconv_decode_result_codes unit ucs2be_iconv [0; 0; 0; 0] 1
           Codec.PARSERUTILS_CHARSET_CODEC_ERROR_LOOSE fresh_iconv_codec
           [0x00] 256 PARSERUTILS_OK
           (set_inval unit fresh_iconv_codec [0x00] 1) [] []).
  reflexivity.
Defined.

(** X16. No character is lost when the output buffer is full.  If
    [iconv] converts a character at the head of the input (the call
    succeeds, or it fails after having moved on and written the four
    bytes) while fewer than 4 bytes of output are free,
    [iconv_codec_decode] returns NOMEM with the input consumed up to the
    end of that character, whatever follows it, and the character parked
    in [read_buf]; the next call that has room for it writes the parked
    character first, and only then goes on with its own input. *)
Theorem iconv_decode_nomem_resumes (cd : Type)
    (iconv : cd -> list Z -> Z -> iconv_return cd) (ucs4_junk : list Z)
    (fuel : nat) (mode : Codec.parserutils_charset_codec_errormode)
    (c : iconv_codec cd) (source : list Z) (destlen : Z) :
  read_len cd c = 0 -> inval_len cd c = 0 -> source <> [] ->
  let r := iconv (read_cd cd c) source 4 in
  (ic_failed cd r = None \/
   List.length (ic_in cd r) <> List.length source) ->
  List.length (ic_out cd r) = 4%nat ->
  destlen < 4 ->
  let parked :=
    clear_inval cd
      (set_read cd (set_read_cd cd c (ic_cd cd r))
                (ic_out cd r :: tl (read_buf cd c)) 1) in
  iconv_codec_decode cd iconv ucs4_junk (S fuel) mode c source destlen =
    Ret (PARSERUTILS_NOMEM, parked, ic_in cd r, []) /\
  forall fuel2 mode2 source2 destlen2,
    4 <= destlen2 ->
    iconv_codec_decode cd iconv ucs4_junk fuel2 mode2 parked source2
      destlen2 =
    decode_loop cd iconv ucs4_junk fuel2 mode2
      (set_read cd parked (tl (read_buf cd c)) 0) source2 (destlen2 - 4)
      (ic_out cd r).
Proof.
  intros Hr Hi Hne r Hf Hlen Hd parked.
  split.
  - rewrite (decode_fresh cd iconv ucs4_junk (S fuel) mode c source destlen
               Hr Hi).
    destruct source as [|b0 src]; [congruence|].
    cbn [decode_loop].
    rewrite (read_char_converted cd iconv ucs4_junk (S fuel) mode c
               (b0 :: src) destlen Hf Hlen).
    apply Z.ltb_lt in Hd. rewrite Hd.
    cbn [error_eqb negb andb bind app]. reflexivity.
  - intros fuel2 mode2 source2 destlen2 Hd2.
    unfold iconv_codec_decode, parked, clear_inval, set_inval, set_read,
      set_read_cd.
    cbn [read_len inval_len inval_buf read_buf read_cd write_cd write_buf
         write_len].
    change (0 <? 1) with true. cbn iota.
    cbn [flush_read_buf]. change (0 <? 1) with true.
    assert (H4 : (1 * 4 <=? destlen2) = true) by (apply Z.leb_le; lia).
    rewrite H4. cbn [andb app].
    assert (Hfl : flush_read_buf (tl (read_buf cd c)) (1 - 1) (destlen2 - 4)
                    (ic_out cd r) =
                  (tl (read_buf cd c), 0, destlen2 - 4, ic_out cd r)).
    { destruct (tl (read_buf cd c)); reflexivity. }
    rewrite Hfl. cbn [read_len inval_len]. reflexivity.
Qed.

Lemma iconv_decode_nomem_resumes_witness :
  iconv_codec_decode unit ucs2be_iconv [0; 0; 0; 0] 1
    Codec.PARSERUTILS_CHARSET_CODEC_ERROR_LOOSE fresh_iconv_codec
    [0x00; 0x41; 0x00; 0x42] 0 =
  Ret (PARSERUTILS_NOMEM,
       clear_inval unit
         (set_read unit fresh_iconv_codec [[0; 0; 0x00; 0x41]] 1),
       [0x00; 0x42], []) /\
  iconv_codec_decode unit ucs2be_iconv [0; 0; 0; 0] 3
    Codec.PARSERUTILS_CHARSET_CODEC_ERROR_LOOSE
    (clear_inval unit
       (set_read unit fresh_iconv_codec [[0; 0; 0x00; 0x41]] 1))
    [0x00; 0x42] 8 =
  Ret (PARSERUTILS_OK, fresh_iconv_codec, [],
       [0; 0; 0x00; 0x41; 0; 0; 0x00; 0x42]).
Proof.
  destruct (iconv_decode_nomem_resumes unit ucs2be_iconv [0; 0; 0; 0]
              0 Codec.PARSERUTILS_CHARSET_CODEC_ERROR_LOOSE
              fresh_iconv_codec [0x00; 0x41; 0x00; 0x42] 0)
    as [H1 H2].
  - reflexivity.
  - reflexivity.
  - discriminate.
  - right. cbn. lia.
  - reflexivity.
  - lia.
  - split; [exact H1|].
    exact (eq_trans
             (H2 3%nat Codec.PARSERUTILS_CHARSET_CODEC_ERROR_LOOSE
                 [0x00; 0x42] 8 ltac:(lia))
             eq_refl).
Defined.

(** X17. An illegal sequence split over two calls, in Strict mode.  When
    the bytes kept from the previous call, followed by the start of the
    new input, are refused by [iconv] as an illegal sequence,
    [iconv_codec_decode] returns INVALID with [*source] unmoved, nothing
    written, and the buffer of kept bytes emptied, so that a further call
    does not meet the same bytes again. *)
Theorem iconv_decode_strict_invalid_pending (cd : Type)
    (iconv : cd -> list Z -> Z -> iconv_return cd) (ucs4_junk : list Z)
    (fuel : nat) (c : iconv_codec cd) (source : list Z) (destlen : Z) :
  read_len cd c = 0 -> 0 < inval_len cd c < 32 ->
  let l := Z.min (31 - inval_len cd c) (Z.of_nat (List.length source)) in
  let buf := firstn (Z.to_nat (inval_len cd c)) (inval_buf cd c) ++
             firstn (Z.to_nat l) source in
  let r := iconv (read_cd cd c) buf 4 in
  ic_failed cd r = Some EILSEQ -> ic_out cd r = [] ->
  exists c',
    iconv_codec_decode cd iconv ucs4_junk fuel
      Codec.PARSERUTILS_CHARSET_CODEC_ERROR_STRICT c source destlen =
      Ret (PARSERUTILS_INVALID, c', source, []) /\
    inval_len cd c' = 0 /\ inval_buf cd c' = [] /\ read_len cd c' = 0.
Proof.
  intros Hr Hi l buf r Hf Ho.
  destruct c as [rcd ib il rb rl wcd wb wl]. cbn in Hr, Hi. subst rl.
  cbn [read_cd inval_len inval_buf] in *.
  unfold iconv_codec_decode, set_read.
  cbn [read_len inval_len inval_buf read_buf read_cd write_cd write_buf
       write_len Z.ltb Z.compare andb].
  assert (Hil : (0 <? il) = true) by (apply Z.ltb_lt; lia).
  rewrite Hil. unfold INVAL_BUFSIZE.
  replace ((32 - il - 1) mod 18446744073709551616) with (31 - il)
    by (rewrite Z.mod_small by lia; lia).
  fold l.
  assert (Hov : (32 <? il + l) = false) by (apply Z.ltb_ge; lia).
  rewrite Hov. fold buf.
  unfold iconv_codec_read_char, set_inval.
  cbn [read_cd inval_len inval_buf read_buf read_len write_cd write_buf
       write_len set_read_cd].
  fold r. rewrite Hf, Ho.
  cbn [List.length Z.of_nat Z.sub Z.eqb Z.opp Z.add Z.pos_sub].
  rewrite andb_false_r.
  cbn [bind error_eqb negb andb app].
  eexists. split; [reflexivity|]. repeat split.
Qed.

Lemma iconv_decode_strict_invalid_pending_witness :
  exists c',
    iconv_codec_decode unit ucs2be_strict_iconv [0; 0; 0; 0] 3
      Codec.PARSERUTILS_CHARSET_CODEC_ERROR_STRICT
      (set_inval unit fresh_iconv_codec [0xDC] 1) [0x00; 0x00; 0x41] 256 =
      Ret (PARSERUTILS_INVALID, c', [0x00; 0x00; 0x41], []) /\
    inval_len unit c' = 0 /\ inval_buf unit c' = [] /\ read_len unit c' = 0.
Proof.
  apply (iconv_decode_strict_invalid_pending unit ucs2be_strict_iconv
           [0; 0; 0; 0] 3 (set_inval unit fresh_iconv_codec [0xDC] 1)
           [0x00; 0x00; 0x41] 256).
  - reflexivity.
  - cbn. lia.
  - reflexivity.
  - reflexivity.
Defined.

(** X18. [iconv_codec_reset] forgets what the codec had kept: whatever
    was parked in [read_buf] or [write_buf] or held back in [inval_buf],
    the call returns OK, and the next [iconv_codec_decode] or
    [iconv_codec_encode] starts straight on its own input with nothing
    written beforehand. *)
Theorem iconv_reset_forgets (cd : Type)
    (iconv : cd -> list Z -> Z -> iconv_return cd) (ucs4_junk : list Z)
    (reset_cd : cd -> cd) (c : iconv_codec cd)
    (fuel : nat) (mode : Codec.parserutils_charset_codec_errormode)
    (t : alias_tables) (mib : Z) (ust : unicode_statics)
    (source : list Z) (destlen : Z) :
  fst (iconv_codec_reset cd reset_cd c) = PARSERUTILS_OK /\
  iconv_codec_decode cd iconv ucs4_junk fuel mode
    (snd (iconv_codec_reset cd reset_cd c)) source destlen =
  decode_loop cd iconv ucs4_junk fuel mode
    (snd (iconv_codec_reset cd reset_cd c)) source destlen [] /\
  iconv_codec_encode cd iconv t mib mode ust
    (snd (iconv_codec_reset cd reset_cd c)) source destlen =
  encode_loop cd iconv t mib mode ust
    (snd (iconv_codec_reset cd reset_cd c)) source destlen [].
Proof.
  split; [reflexivity|]. split; [apply decode_fresh; reflexivity|].
  reflexivity.
Qed.

(** ** The filter's settings *)

Section FilterSettings.

Context {impl : Type}.
Variable handler_table : list (parserutils_charset_handler impl).
Variable t : alias_tables.

Lemma filter_create_fields int_enc mem (f : parserutils_filter impl) :
  parserutils_filter_create handler_table t int_enc mem = Some f ->
  mem = true /\
  mibenum_from_cstr t (chars "UTF-8") <> 0 /\
  exists rc wc,
    parserutils_charset_codec_create handler_table t (chars "UTF-8") =
      Some rc /\
    parserutils_charset_codec_create handler_table t int_enc = Some wc /\
    f = mk_filter (Some rc) (Some wc) false None
          (mibenum_from_cstr t (chars "UTF-8")).
Proof.
  unfold parserutils_filter_create, filter_set_defaults, filter_set_encoding.
  destruct mem; cbn [negb encoding]; [|discriminate].
  destruct (mibenum_from_cstr t (chars "UTF-8") =? 0) eqn:E0;
    [discriminate|].
  apply Z.eqb_neq in E0.
  destruct (0 =? mibenum_from_cstr t (chars "UTF-8")) eqn:E1.
  { apply Z.eqb_eq in E1. congruence. }
  destruct (parserutils_charset_codec_create handler_table t (chars "UTF-8"))
    as [rc|]; [|discriminate].
  destruct (parserutils_charset_codec_create handler_table t int_enc)
    as [wc|]; [|discriminate].
  intros [= <-]. cbn. repeat split; auto. exists rc, wc. auto.
Qed.

End FilterSettings.

(** X19. [parserutils_filter_create] succeeds exactly when the filter
    object can be allocated, the alias tables know UTF-8, and a codec can
    be created both for UTF-8 and for the requested internal encoding; the
    new filter then reads UTF-8, writes the internal encoding and has
    nothing pending.  In particular it fails when UTF-8 is missing from
    the alias tables, whatever the internal encoding. *)
Theorem filter_create_characterised {impl : Type}
    (handler_table : list (Codec.parserutils_charset_handler impl))
    (t : alias_tables) (int_enc : list Z) (mem : bool)
    (f : parserutils_filter impl) :
  parserutils_filter_create handler_table t int_enc mem = Some f <->
  (mem = true /\
   mibenum_from_cstr t (chars "UTF-8") <> 0 /\
   exists rc wc,
     Codec.parserutils_charset_codec_create handler_table t (chars "UTF-8") =
       Some rc /\
     Codec.parserutils_charset_codec_create handler_table t int_enc =
       Some wc /\
     f = mk_filter (Some rc) (Some wc) false None
           (mibenum_from_cstr t (chars "UTF-8"))).
Proof.
  split; [apply filter_create_fields|].
  intros (-> & Hm & rc & wc & Hr & Hw & ->).
  unfold parserutils_filter_create, filter_set_defaults, filter_set_encoding.
  cbn [negb encoding].
  apply Z.eqb_neq in Hm. rewrite Hm.
  destruct (0 =? mibenum_from_cstr t (chars "UTF-8")) eqn:E1.
  { apply Z.eqb_eq in E1. apply Z.eqb_neq in Hm. congruence. }
  rewrite Hr, Hw. reflexivity.
Qed.

(** X20. [parserutils_filter_reset] drops what was pending in the pivot
    buffer, also when resetting a codec fails: the filter it leaves has
    [leftover] clear, and a flushing call of
    [parserutils_filter_process_chunk] (no input) on it returns OK at
    once, writing nothing and calling no codec. *)
Theorem filter_reset_discards_pending {impl : Type}
    (f : parserutils_filter impl) (fuel : nat) (outlen : Z) :
  let f' := snd (parserutils_filter_reset f) in
  leftover f' = false /\ pivot_left f' = None /\
  encoding f' = encoding f /\
  parserutils_filter_process_chunk fuel f' [] outlen =
    Ret (mk_chunk PARSERUTILS_OK f' [] [] outlen).
Proof.
  unfold parserutils_filter_reset.
  destruct (parserutils_charset_codec_reset (read_codec f)) as [e1 rc].
  destruct (parserutils_charset_codec_reset (write_codec f)) as [e2 wc].
  unfold parserutils_filter_process_chunk.
  destruct (negb (error_eqb e1 PARSERUTILS_OK));
    [|destruct (negb (error_eqb e2 PARSERUTILS_OK))];
    cbn [snd leftover pivot_left encoding]; repeat split;
    destruct fuel; reflexivity.
Qed.

(** X21. A failed change of encoding leaves the filter unusable.  When
    [filter_set_encoding] returns NOMEM, the old read codec is gone while
    [settings.encoding] still holds the old MIB enum; asking again for the
    old encoding then returns OK without creating a codec.  Whatever
    [parserutils_filter_process_chunk] then returns for a non-empty chunk,
    it is an error with nothing of the chunk consumed and the read codec
    still missing; with no pivot data pending it is BADPARM with nothing
    written. *)
Theorem set_encoding_nomem_sticks {impl : Type}
    (handler_table : list (Codec.parserutils_charset_handler impl))
    (t : alias_tables) (f f' : parserutils_filter impl) (enc : list Z) :
  filter_set_encoding handler_table t f enc = (PARSERUTILS_NOMEM, f') ->
  read_codec f' = None /\ encoding f' = encoding f /\
  (forall old,
     mibenum_from_cstr t old = encoding f -> encoding f <> 0 ->
     filter_set_encoding handler_table t f' old = (PARSERUTILS_OK, f')) /\
  (forall fuel b data outlen r,
     parserutils_filter_process_chunk (S fuel) f' (b :: data) outlen =
       Ret r ->
     c_error r <> PARSERUTILS_OK /\ c_data r = b :: data /\
     read_codec (c_filter r) = None) /\
  (forall fuel b data outlen,
     leftover f = false ->
     parserutils_filter_process_chunk (S fuel) f' (b :: data) outlen =
       Ret (mk_chunk PARSERUTILS_BADPARM f' (b :: data) [] outlen)).
Proof.
  unfold filter_set_encoding.
  destruct (mibenum_from_cstr t enc =? 0); [discriminate|].
  destruct (encoding f =? mibenum_from_cstr t enc); [discriminate|].
  destruct (Codec.parserutils_charset_codec_create handler_table t enc)
    as [rc|]; [discriminate|].
  intros [= <-]. cbn [read_codec encoding].
  split; [reflexivity|]. split; [reflexivity|]. split; [|split].
  - intros old Ho Hnz. rewrite Ho.
    apply Z.eqb_neq in Hnz. rewrite Hnz, Z.eqb_refl. reflexivity.
  - intros fuel b data outlen r.
    unfold parserutils_filter_process_chunk.
    cbn [leftover write_codec pivot_left read_codec encoding].
    destruct (leftover f).
    + destruct (parserutils_charset_codec_encode (write_codec f)
                  (pivot_left f) outlen)
        as [[[[we wc] pivot'] out]| | |] eqn:Ee; cbn [bind];
        try discriminate.
      destruct (negb (error_eqb we PARSERUTILS_OK)) eqn:Ew.
      * intros [= <-]. cbn. apply not_ok_spec in Ew. auto.
      * cbn. intros [= <-]. cbn. repeat split. discriminate.
    + cbn. intros [= <-]. cbn. repeat split. discriminate.
  - intros fuel b data outlen Hl.
    unfold parserutils_filter_process_chunk. cbn [leftover]. rewrite Hl.
    cbn. rewrite Z.sub_0_r. reflexivity.
Qed.

Lemma set_encoding_nomem_sticks_witness :
  filter_set_encoding (@nil (Codec.parserutils_charset_handler unit))
    unicode_tables
    (mk_filter (Some single_byte_codec) (Some single_byte_codec)
               true (Some [0; 0; 0; 0x41]) 106)
    (chars "latin1") =
  (PARSERUTILS_NOMEM,
   mk_filter None (Some single_byte_codec) true (Some [0; 0; 0; 0x41]) 106) /\
  filter_set_encoding (@nil (Codec.parserutils_charset_handler unit))
    unicode_tables
    (mk_filter None (Some single_byte_codec) true (Some [0; 0; 0; 0x41]) 106)
    (chars "UTF-8") =
  (PARSERUTILS_OK,
   mk_filter None (Some single_byte_codec) true (Some [0; 0; 0; 0x41]) 106) /\
  exists r,
    parserutils_filter_process_chunk 5
      (mk_filter None (Some single_byte_codec) true (Some [0; 0; 0; 0x41])
                 106)
      [0x42] 8 = Ret r /\
    c_output r = [0x41] /\
    c_error r <> PARSERUTILS_OK /\ c_data r = [0x42] /\
    read_codec (c_filter r) = None.
Proof.
  pose proof (set_encoding_nomem_sticks (@nil _) unicode_tables
                (mk_filter (Some single_byte_codec) (Some single_byte_codec)
                           true (Some [0; 0; 0; 0x41]) 106)
                (mk_filter None (Some single_byte_codec) true
                           (Some [0; 0; 0; 0x41]) 106)
                (chars "latin1") eq_refl) as (_ & _ & Hagain & Hany & _).
  split; [reflexivity|]. split.
  - apply (Hagain (chars "UTF-8")); [reflexivity|discriminate].
  - destruct (parserutils_filter_process_chunk 5
                (mk_filter None (Some single_byte_codec) true
                           (Some [0; 0; 0; 0x41]) 106)
                [0x42] 8) as [r| | |] eqn:Er;
      try (vm_compute in Er; discriminate Er).
    exists r. split; [reflexivity|]. split.
    + vm_compute in Er. injection Er as <-. reflexivity.
    + exact (Hany 4%nat 0x42 [] 8 r Er).
Defined.

Lemma filter_create_characterised_witness :
  exists f,
    parserutils_filter_create example_handlers unicode_tables
      (chars "latin1") true = Some f /\
    encoding f = 106.
Proof.
  destruct (parserutils_filter_create example_handlers unicode_tables
              (chars "latin1") true) as [f|] eqn:E;
    [|vm_compute in E; discriminate E].
  exists f. split; [reflexivity|].
  destruct (proj1 (filter_create_characterised example_handlers
                     unicode_tables (chars "latin1") true f) E)
    as (_ & _ & rc & wc & _ & _ & ->).
  reflexivity.
Defined.

(** ** The stream's charset and its filter *)

Section StreamMore.

Context {impl : Type}.
Variable handler_table : list (parserutils_charset_handler impl).
Variable t : alias_tables.
Variable grow : parserutils_buffer -> parserutils_error * parserutils_buffer.
Variable charlen : list Z -> parserutils_error * Z.

Lemma set_encoding_ok (f f' : parserutils_filter impl) enc e :
  filter_set_encoding handler_table t f enc = (e, f') ->
  mibenum_from_cstr t enc <> 0 ->
  (e = PARSERUTILS_OK /\ encoding f' = mibenum_from_cstr t enc /\
   (read_codec f <> None -> read_codec f' <> None)) \/
  e = PARSERUTILS_NOMEM.
Proof.
  unfold filter_set_encoding. intros H Hnz.
  apply Z.eqb_neq in Hnz. rewrite Hnz in H.
  destruct (encoding f =? mibenum_from_cstr t enc) eqn:Ee.
  - injection H as <- <-. left. apply Z.eqb_eq in Ee. auto.
  - destruct (parserutils_charset_codec_create handler_table t enc) as [rc|].
    + injection H as <- <-. left. cbn. repeat split. discriminate.
    + injection H as <- <-. now right.
Qed.

Lemma stream_create_fields enc enc_src detect stream_mem raw_buf utf8_buf
    filter_mem junk (s : parserutils_inputstream_private impl) :
  parserutils_inputstream_create handler_table t enc enc_src detect
    stream_mem raw_buf utf8_buf filter_mem junk = Some s ->
  done_first_chunk s = false /\ csdetect s = detect /\
  had_eof s = false /\ cursor s = 0 /\
  mibenum_from_cstr t (chars "UTF-8") <> 0 /\
  read_codec (input s) <> None /\ write_codec (input s) <> None /\
  mibenum s = match enc with
              | Some e => mibenum_from_cstr t e
              | None => 0
              end /\
  encoding (input s) =
    (if mibenum s =? 0 then mibenum_from_cstr t (chars "UTF-8")
     else mibenum s).
Proof.
  unfold parserutils_inputstream_create.
  destruct stream_mem; cbn [negb]; [|discriminate].
  destruct raw_buf as [rb|]; [|discriminate].
  destruct utf8_buf as [ub|]; [|discriminate].
  destruct (parserutils_filter_create handler_table t (chars "UTF-8")
              filter_mem) as [f|] eqn:Ef; [|discriminate].
  destruct (filter_create_fields _ _ _ _ _ Ef)
    as (_ & Hu & rc & wc & _ & _ & ->).
  destruct enc as [e|].
  - destruct (mibenum_from_cstr t e =? 0) eqn:E0; cbn [negb].
    + intros [= <-]. cbn. rewrite E0. repeat split; auto; discriminate.
    + apply Z.eqb_neq in E0. unfold parserutils_filter_setopt.
      destruct (filter_set_encoding handler_table t _ e) as [error f'] eqn:Es.
      destruct (set_encoding_ok _ _ _ _ Es E0) as [(Hok & He & Hrc)|Hno];
        subst error; [|discriminate].
      cbn [error_eqb negb andb]. intros [= <-]. cbn.
      apply Z.eqb_neq in E0. rewrite E0.
      repeat split; auto.
      * apply Hrc. discriminate.
      * unfold filter_set_encoding in Es.
        rewrite E0 in Es. cbn [encoding write_codec] in Es.
        destruct (_ =? _) in Es;
          [|destruct (parserutils_charset_codec_create _ _ e) in Es];
          try discriminate Es; injection Es as <-; discriminate.
  - intros [= <-]. cbn. repeat split; auto; discriminate.
Qed.

Lemma refill_fill_fields fuel (s s' : parserutils_inputstream_private impl)
    e :
  refill_fill grow fuel s = Ret (e, s') ->
  had_eof s' = had_eof s /\ done_first_chunk s' = done_first_chunk s /\
  mibenum s' = mibenum s /\ encsrc s' = encsrc s /\
  csdetect s' = csdetect s /\
  same_codec (read_codec (input s)) (read_codec (input s')) /\
  same_codec (write_codec (input s)) (write_codec (input s')) /\
  encoding (input s') = encoding (input s).
Proof.
  unfold refill_fill.
  destruct (if cursor s =? length (utf8 s) then _ else _)
    as [[[early u] off] space].
  destruct (negb (error_eqb early PARSERUTILS_OK)).
  { intros [= _ <-]. cbn. repeat split; apply same_codec_refl. }
  destruct (parserutils_filter_process_chunk fuel (input s) _ space)
    as [r| | |] eqn:Ep; cbn [bind]; try discriminate.
  destruct (process_chunk_same _ _ _ _ _ Ep) as (H1 & H2 & H3).
  destruct (negb (error_eqb (c_error r) PARSERUTILS_OK) &&
            negb (error_eqb (c_error r) PARSERUTILS_NOMEM)).
  { intros [= _ <-]. cbn. repeat split; assumption. }
  destruct (parserutils_buffer_discard (raw s) 0 _) as [e0 raw'].
  destruct (negb (error_eqb e0 PARSERUTILS_OK));
    intros [= _ <-]; cbn; repeat split; assumption.
Qed.

Lemma refill_first_chunk_fields (st st' : bom_statics)
    (s s' : parserutils_inputstream_private impl) o :
  refill_first_chunk t (st, s) = Ret (o, (st', s')) ->
  had_eof s' = had_eof s /\ csdetect s' = csdetect s /\
  input s' = input s /\
  (done_first_chunk s = true -> o = None /\ st' = st /\ s' = s) /\
  (done_first_chunk s = false -> csdetect s = None ->
   mibenum s' = mibenum_from_cstr t (chars "UTF-8") /\ encsrc s' = 0) /\
  (done_first_chunk s = false -> done_first_chunk s' = true ->
   mibenum s' <> 0) /\
  (o = None -> done_first_chunk s' = true).
Proof.
  unfold refill_first_chunk.
  destruct (done_first_chunk s) eqn:Ed.
  { intros [= <- <- <-]. rewrite Ed.
    split; [reflexivity|]. split; [reflexivity|]. split; [reflexivity|].
    split; [auto|]. split; [discriminate|]. split; [discriminate|].
    reflexivity. }
  destruct (match csdetect s with Some _ => _ | None => _ end)
    as [[error mib] src] eqn:Ec.
  assert (Hnone : csdetect s = None ->
                  mib = mibenum_from_cstr t (chars "UTF-8") /\ src = 0).
  { intros Hn. rewrite Hn in Ec. injection Ec as _ <- <-. auto. }
  assert (Hall : forall (o1 : option parserutils_error) raw1 d1
            (stx sty : bom_statics),
            (o1 = None -> d1 = true) -> (d1 = true -> mib <> 0) ->
            let s1 := mk_stream (utf8 s) (cursor s) (had_eof s) raw1 d1 mib
                        src (input s) (csdetect s) in
            had_eof s1 = had_eof s /\ csdetect s1 = csdetect s /\
            input s1 = input s /\
            (false = true -> o1 = None /\ stx = sty /\ s1 = s) /\
            (false = false -> csdetect s = None ->
             mibenum s1 = mibenum_from_cstr t (chars "UTF-8") /\
             encsrc s1 = 0) /\
            (false = false -> done_first_chunk s1 = true ->
             mibenum s1 <> 0) /\
            (o1 = None -> done_first_chunk s1 = true)).
  { intros o1 raw1 d1 stx sty Ho Hd s1. unfold s1. cbn.
    split; [reflexivity|]. split; [reflexivity|]. split; [reflexivity|].
    split; [discriminate|]. split; [intros _; exact Hnone|].
    split; [intros _; exact Hd|exact Ho]. }
  destruct (negb (error_eqb error PARSERUTILS_OK)).
  { intros [= <- _ <-]. apply Hall; discriminate. }
  destruct (mib =? 0) eqn:Em; [discriminate|]. apply Z.eqb_neq in Em.
  destruct (parserutils_inputstream_strip_bom t st mib (raw s))
    as [st1 [error' raw']].
  destruct (negb (error_eqb error' PARSERUTILS_OK));
    intros [= <- _ <-]; apply Hall; auto; discriminate.
Qed.

Lemma refill_fields fuel (st st' : bom_statics)
    (s s' : parserutils_inputstream_private impl) e :
  parserutils_inputstream_refill_buffer t grow fuel (st, s) =
    Ret (e, (st', s')) ->
  exists o st1 s1,
    refill_first_chunk t (st, s) = Ret (o, (st1, s1)) /\
    had_eof s' = had_eof s1 /\ csdetect s' = csdetect s1 /\
    mibenum s' = mibenum s1 /\ encsrc s' = encsrc s1 /\
    done_first_chunk s' = done_first_chunk s1 /\
    same_codec (read_codec (input s1)) (read_codec (input s')) /\
    same_codec (write_codec (input s1)) (write_codec (input s')) /\
    encoding (input s') = encoding (input s1) /\
    (e = PARSERUTILS_OK -> o = None).
Proof.
  unfold parserutils_inputstream_refill_buffer.
  destruct (refill_first_chunk t (st, s)) as [[[e1|] [st1 s1]]| | |] eqn:E1;
    cbn [bind]; try discriminate.
  - intros [= -> -> ->]. exists (Some e), st', s'.
    repeat split; try apply same_codec_refl.
    intros ->. now apply refill_first_chunk_error in E1.
  - destruct (refill_fill grow fuel s1) as [[e2 s2]| | |] eqn:E2;
      cbn [bind]; try discriminate.
    cbn [fst snd]. intros [= <- <- <-].
    destruct (refill_fill_fields _ _ _ _ E2)
      as (H1 & H2 & H3 & H4 & H5 & H6 & H7 & H8).
    exists None, st1, s1. repeat split; auto.
Qed.

End StreamMore.

(** X22. [parserutils_inputstream_refill_buffer] never reconfigures the
    filter.  The charset found on the first chunk is stored in the
    stream's [mibenum], but the filter's [settings.encoding] and its two
    codecs are the same before and after the call, and so is [had_eof]. *)
Theorem refill_keeps_filter {impl : Type} (t : alias_tables)
    (grow : parserutils_buffer -> parserutils_error * parserutils_buffer)
    (fuel : nat) (w w' : world impl) (e : parserutils_error) :
  parserutils_inputstream_refill_buffer t grow fuel w = Ret (e, w') ->
  encoding (input (snd w')) = encoding (input (snd w)) /\
  same_codec (read_codec (input (snd w))) (read_codec (input (snd w'))) /\
  same_codec (write_codec (input (snd w))) (write_codec (input (snd w'))) /\
  had_eof (snd w') = had_eof (snd w).
Proof.
  destruct w as [st s], w' as [st' s']. intros H.
  destruct (refill_fields _ _ _ _ _ _ _ _ H)
    as (o & st1 & s1 & E1 & H1 & _ & _ & _ & _ & H6 & H7 & H8 & _).
  destruct (refill_first_chunk_fields _ _ _ _ _ _ E1) as (G1 & _ & G3 & _).
  cbn [snd]. rewrite G3 in H6, H7, H8.
  repeat split; congruence.
Qed.

Lemma refill_keeps_filter_witness :
  exists e w',
    parserutils_inputstream_refill_buffer unicode_tables no_grow 5
      (bom_statics_init,
       mk_stream fresh_utf8 0 false (mk_buffer 4096 [0x68; 0x69; 0; 0] 2)
         false 0 0
         (mk_filter (Some single_byte_codec) (Some single_byte_codec) false
                    None 4) None) = Ret (e, w') /\
    encoding (input (snd w')) = 4.
Proof.
  destruct (parserutils_inputstream_refill_buffer unicode_tables no_grow 5
      (bom_statics_init,
       mk_stream fresh_utf8 0 false (mk_buffer 4096 [0x68; 0x69; 0; 0] 2)
         false 0 0
         (mk_filter (Some single_byte_codec) (Some single_byte_codec) false
                    None 4) None)) as [[e w']| | |] eqn:E;
    try (vm_compute in E; discriminate E).
  exists e, w'. split; [reflexivity|].
  apply (refill_keeps_filter unicode_tables no_grow 5 _ w' e E).
Defined.

(** X23. A stream created without a detection function reports UTF-8
    after its first refill, whatever encoding it was created with: the
    refill overwrites [mibenum] with the MIB enum of UTF-8 and [encsrc]
    with 0, so [parserutils_inputstream_read_charset] answers UTF-8 with
    source 0, while the filter goes on decoding from the encoding named at
    creation. *)
Theorem stream_without_detector_reports_utf8 {impl : Type}
    (handler_table : list (Codec.parserutils_charset_handler impl))
    (t : alias_tables)
    (grow : parserutils_buffer -> parserutils_error * parserutils_buffer)
    (enc : option (list Z)) (enc_src : Z)
    (stream_mem : bool) (raw_buf utf8_buf : option parserutils_buffer)
    (filter_mem : bool) (junk : Z)
    (s : parserutils_inputstream_private impl)
    (st : bom_statics) (fuel : nat) (e : parserutils_error)
    (w' : world impl) :
  parserutils_inputstream_create handler_table t enc enc_src None
    stream_mem raw_buf utf8_buf filter_mem junk = Some s ->
  parserutils_inputstream_refill_buffer t grow fuel (st, s) = Ret (e, w') ->
  mibenum (snd w') = mibenum_from_cstr t (chars "UTF-8") /\
  encsrc (snd w') = 0 /\
  parserutils_inputstream_read_charset t (snd w') =
    (Some (chars "UTF-8"), 0) /\
  encoding (input (snd w')) =
    match enc with
    | Some name =>
        if mibenum_from_cstr t name =? 0
        then mibenum_from_cstr t (chars "UTF-8")
        else mibenum_from_cstr t name
    | None => mibenum_from_cstr t (chars "UTF-8")
    end.
Proof.
  intros Hc Hr. destruct w' as [st' s'].
  destruct (stream_create_fields _ _ _ _ _ _ _ _ _ _ _ Hc)
    as (Hd & Hcs & _ & _ & _ & _ & _ & Hm & He).
  destruct (refill_fields _ _ _ _ _ _ _ _ Hr)
    as (o & st1 & s1 & E1 & _ & _ & H3 & H4 & _ & _ & _ & H8 & _).
  destruct (refill_first_chunk_fields _ _ _ _ _ _ E1)
    as (_ & _ & G3 & _ & G5 & _).
  destruct (G5 Hd Hcs) as [Gm Gs].
  cbn [snd].
  assert (Hsrc : encsrc s' = 0) by congruence.
  split; [congruence|]. split; [exact Hsrc|]. split.
  - unfold parserutils_inputstream_read_charset. rewrite Hsrc. reflexivity.
  - rewrite H8, G3, He, Hm. destruct enc; reflexivity.
Qed.

Lemma stream_without_detector_reports_utf8_witness :
  exists s e w',
    parserutils_inputstream_create example_handlers unicode_tables
      (Some (chars "latin1")) 1 None true (Some fresh_raw) (Some fresh_utf8)
      true 0 = Some s /\
    parserutils_inputstream_refill_buffer unicode_tables no_grow 5
      (bom_statics_init, s) = Ret (e, w') /\
    parserutils_inputstream_read_charset unicode_tables (snd w') =
      (Some (chars "UTF-8"), 0) /\
    encoding (input (snd w')) = 4.
Proof.
  destruct (parserutils_inputstream_create example_handlers unicode_tables
      (Some (chars "latin1")) 1 None true (Some fresh_raw) (Some fresh_utf8)
      true 0) as [s|] eqn:Ec; [|vm_compute in Ec; discriminate Ec].
  destruct (parserutils_inputstream_refill_buffer unicode_tables no_grow 5
              (bom_statics_init, s)) as [[e w']| | |] eqn:Er.
  - exists s, e, w'. split; [reflexivity|]. split; [exact Er|].
    destruct (stream_without_detector_reports_utf8 example_handlers
                unicode_tables no_grow (Some (chars "latin1")) 1 true
                (Some fresh_raw) (Some fresh_utf8) true 0 s
                bom_statics_init 5 e w' Ec Er) as (_ & _ & H3 & H4).
    split; [exact H3|]. rewrite H4. reflexivity.
  - vm_compute in Ec. injection Ec as <-. vm_compute in Er. discriminate Er.
  - vm_compute in Ec. injection Ec as <-. vm_compute in Er. discriminate Er.
  - vm_compute in Ec. injection Ec as <-. vm_compute in Er. discriminate Er.
Defined.

(** X24. The charset of a stream is detected once.  After the first
    chunk has been handled, [parserutils_inputstream_refill_buffer] no
    longer calls the detection function nor touches the static MIB enums:
    [done_first_chunk] stays set and [mibenum] and [encsrc] keep their
    values.  A refill that returns OK leaves [done_first_chunk] set, and
    [done_first_chunk] is never set with [mibenum] at 0. *)
Theorem charset_detection_happens_once {impl : Type} (t : alias_tables)
    (grow : parserutils_buffer -> parserutils_error * parserutils_buffer)
    (fuel : nat) (w w' : world impl) (e : parserutils_error) :
  parserutils_inputstream_refill_buffer t grow fuel w = Ret (e, w') ->
  (done_first_chunk (snd w) = true ->
   done_first_chunk (snd w') = true /\
   mibenum (snd w') = mibenum (snd w) /\
   encsrc (snd w') = encsrc (snd w) /\
   fst w' = fst w) /\
  (e = PARSERUTILS_OK -> done_first_chunk (snd w') = true) /\
  ((done_first_chunk (snd w) = true -> mibenum (snd w) <> 0) ->
   done_first_chunk (snd w') = true -> mibenum (snd w') <> 0).
Proof.
  destruct w as [st s], w' as [st' s']. intros H.
  assert (Hst : done_first_chunk s = true -> st' = st).
  { revert H. unfold parserutils_inputstream_refill_buffer, refill_first_chunk.
    intros H Hd. rewrite Hd in H. cbn [bind] in H.
    destruct (refill_fill grow fuel s) as [[e2 s2]| | |];
      cbn [bind] in H; try discriminate.
    now injection H as _ <- _. }
  destruct (refill_fields _ _ _ _ _ _ _ _ H)
    as (o & st1 & s1 & E1 & _ & _ & H3 & H4 & H5 & _ & _ & _ & H9).
  destruct (refill_first_chunk_fields _ _ _ _ _ _ E1)
    as (_ & _ & _ & G4 & _ & G6 & G7).
  cbn [fst snd]. split; [|split].
  - intros Hd. destruct (G4 Hd) as (_ & _ & ->).
    repeat split; try congruence. now apply Hst.
  - intros He. rewrite H5. apply G7, H9, He.
  - intros Hinv Hd'. rewrite H3. rewrite H5 in Hd'.
    destruct (done_first_chunk s) eqn:Hd.
    + destruct (G4 eq_refl) as (_ & _ & ->). now apply Hinv.
    + now apply G6.
Qed.

Lemma charset_detection_happens_once_witness :
  exists e w',
    parserutils_inputstream_refill_buffer unicode_tables no_grow 5
      (bom_statics_init,
       mk_stream fresh_utf8 0 false (mk_buffer 4096 [0x68; 0x69; 0; 0] 2)
         false 0 0
         (mk_filter (Some single_byte_codec) (Some single_byte_codec) false
                    None 106) None) = Ret (e, w') /\
    (e = PARSERUTILS_OK -> done_first_chunk (snd w') = true).
Proof.
  destruct (parserutils_inputstream_refill_buffer unicode_tables no_grow 5
      (bom_statics_init,
       mk_stream fresh_utf8 0 false (mk_buffer 4096 [0x68; 0x69; 0; 0] 2)
         false 0 0
         (mk_filter (Some single_byte_codec) (Some single_byte_codec) false
                    None 106) None)) as [[e w']| | |] eqn:E;
    try (vm_compute in E; discriminate E).
  exists e, w'. split; [reflexivity|].
  exact (proj1 (proj2 (charset_detection_happens_once unicode_tables no_grow
                         5 _ w' e E))).
Defined.

(** X25. The filter of a new stream.  When
    [parserutils_inputstream_create] succeeds, the stream's filter has
    both its codecs; it decodes from the encoding named at creation if the
    alias tables know that name, and from UTF-8 otherwise (no name given,
    or an unknown one, which leaves [mibenum] at 0); the first chunk is
    still to come and the cursor is at 0. *)
Theorem stream_create_filter_encoding {impl : Type}
    (handler_table : list (Codec.parserutils_charset_handler impl))
    (t : alias_tables) (enc : option (list Z)) (enc_src : Z)
    (detect : option parserutils_charset_detect_func)
    (stream_mem : bool) (raw_buf utf8_buf : option parserutils_buffer)
    (filter_mem : bool) (junk : Z)
    (s : parserutils_inputstream_private impl) :
  parserutils_inputstream_create handler_table t enc enc_src detect
    stream_mem raw_buf utf8_buf filter_mem junk = Some s ->
  read_codec (input s) <> None /\ write_codec (input s) <> None /\
  mibenum s = match enc with
              | Some name => mibenum_from_cstr t name
              | None => 0
              end /\
  encoding (input s) =
    (if mibenum s =? 0 then mibenum_from_cstr t (chars "UTF-8")
     else mibenum s) /\
  encoding (input s) <> 0 /\
  cursor s = 0 /\ had_eof s = false.
Proof.
  intros H.
  destruct (stream_create_fields _ _ _ _ _ _ _ _ _ _ _ H)
    as (_ & _ & He & Hc & Hu & Hr & Hw & Hm & Hen).
  repeat split; auto.
  rewrite Hen. destruct (mibenum s =? 0) eqn:E; [exact Hu|].
  now apply Z.eqb_neq.
Qed.

Lemma stream_create_filter_encoding_witness :
  exists s,
    parserutils_inputstream_create example_handlers unicode_tables
      (Some (chars "latin1")) 1 None true (Some fresh_raw) (Some fresh_utf8)
      true 0 = Some s /\
    mibenum s = 4 /\ encoding (input s) = 4.
Proof.
  destruct (parserutils_inputstream_create example_handlers unicode_tables
      (Some (chars "latin1")) 1 None true (Some fresh_raw) (Some fresh_utf8)
      true 0) as [s|] eqn:Ec; [|vm_compute in Ec; discriminate Ec].
  exists s. split; [reflexivity|].
  destruct (stream_create_filter_encoding example_handlers unicode_tables
              (Some (chars "latin1")) 1 None true (Some fresh_raw)
              (Some fresh_utf8) true 0 s Ec) as (_ & _ & Hm & He & _).
  rewrite He, Hm. split; reflexivity.
Defined.

(** X26. The end-of-input flag is never cleared.
    [parserutils_inputstream_append] with NULL data sets [had_eof] and
    returns OK without touching the raw buffer; once set, the flag is
    still set after any append, peek or advance. *)
Theorem had_eof_is_sticky {impl : Type} (t : alias_tables)
    (grow : parserutils_buffer -> parserutils_error * parserutils_buffer)
    (charlen : list Z -> parserutils_error * Z)
    (buffer_append :
       parserutils_buffer -> list Z -> parserutils_error * parserutils_buffer)
    (st : bom_statics) (s : parserutils_inputstream_private impl) :
  (parserutils_inputstream_append buffer_append s None =
     (PARSERUTILS_OK,
      mk_stream (utf8 s) (cursor s) true (raw s) (done_first_chunk s)
                (mibenum s) (encsrc s) (input s) (csdetect s))) /\
  (had_eof s = true ->
   (forall d,
      had_eof (snd (parserutils_inputstream_append buffer_append s d)) =
        true) /\
   (forall fuel offset p len w',
      parserutils_inputstream_peek t grow charlen fuel (st, s) offset =
        Ret (p, len, w') ->
      had_eof (snd w') = true) /\
   (forall bytes s',
      parserutils_inputstream_advance s bytes = Ret s' ->
      had_eof s' = true)).
Proof.
  split; [reflexivity|]. intros He. split; [|split].
  - intros [d|]; cbn; [|reflexivity].
    destruct (buffer_append (raw s) d). exact He.
  - intros fuel offset p len w'.
    assert (Hslow : parserutils_inputstream_peek_slow t grow charlen fuel
                      (st, s) offset = Ret (p, len, w') ->
                    had_eof (snd w') = true).
    { unfold parserutils_inputstream_peek_slow. cbn [snd].
      destruct (length (raw s) =? 0); [now intros [= _ _ <-]|].
      destruct (parserutils_inputstream_refill_buffer t grow fuel (st, s))
        as [[e [st1 s1]]| | |] eqn:Er; cbn [bind]; try discriminate.
      assert (H1 : had_eof s1 = true).
      { destruct (refill_fields _ _ _ _ _ _ _ _ Er)
          as (o & st2 & s2 & E1 & H1 & _).
        destruct (refill_first_chunk_fields _ _ _ _ _ _ E1) as (G1 & _).
        congruence. }
      cbn [snd].
      destruct (negb (error_eqb e PARSERUTILS_OK)); [now intros [= _ _ <-]|].
      destruct (allocated (utf8 s1) <=? _); [discriminate|].
      destruct (IS_ASCII _); [now intros [= _ _ <-]|].
      destruct (charlen _) as [e2 l2].
      destruct (negb (error_eqb e2 PARSERUTILS_OK) && _);
        [now intros [= _ _ <-]|].
      destruct (error_eqb e2 PARSERUTILS_NEEDDATA); now intros [= _ _ <-]. }
    unfold parserutils_inputstream_peek. cbn [snd].
    destruct (if size_t (cursor s + offset) <? length (utf8 s) then _ else _)
      as [e1 l1].
    destruct (negb (error_eqb e1 PARSERUTILS_OK) && _);
      [now intros [= _ _ <-]|].
    destruct (_ || _); [exact Hslow|now intros [= _ _ <-]].
  - intros bytes s'. unfold parserutils_inputstream_advance.
    destruct (_ <? bytes); [discriminate|].
    destruct (cursor s =? length (utf8 s)); intros [= <-]; exact He.
Qed.

Lemma had_eof_is_sticky_witness :
  had_eof (snd (parserutils_inputstream_append (fun b _ => no_grow b)
                  (mk_stream fresh_utf8 0 true fresh_raw false 0 0
                     (mk_filter (impl := unit) None None false None 106)
                     None)
                  (Some [0x68]))) = true.
Proof.
  apply (proj1 (proj2 (had_eof_is_sticky unicode_tables no_grow
                         one_byte_length (fun b _ => no_grow b)
                         bom_statics_init
                         (mk_stream fresh_utf8 0 true fresh_raw false 0 0
                            (mk_filter (impl := unit) None None false None
                                       106) None)) eq_refl)).
Defined.

(** ** The iconv codec's encoder *)

Section IconvEncodeFacts.

Variable cd : Type.
Variable iconv : cd -> list Z -> Z -> iconv_return cd.
Variable t : alias_tables.
Variable mib : Z.
Variable mode : Codec.parserutils_charset_codec_errormode.

Lemma write_char_codes ust (c : iconv_codec cd) ucs4 destlen e ust' c' w :
  iconv_codec_write_char cd iconv t mib mode ust c ucs4 destlen =
    Ret (e, ust', c', w) ->
  (e = PARSERUTILS_OK \/ e = PARSERUTILS_NOMEM \/
   (e = PARSERUTILS_INVALID /\
    mode = Codec.PARSERUTILS_CHARSET_CODEC_ERROR_STRICT /\ w = [])) /\
  write_len cd c' = write_len cd c /\ write_buf cd c' = write_buf cd c.
Proof.
  unfold iconv_codec_write_char.
  set (r := iconv (write_cd cd c) ucs4 destlen).
  assert (Hrest :
    match ic_out cd r with
    | [] =>
        match mode with
        | Codec.PARSERUTILS_CHARSET_CODEC_ERROR_STRICT =>
            Ret (PARSERUTILS_INVALID, ust, set_write_cd cd c (ic_cd cd r), [])
        | _ =>
            let '(ust0, unicode) :=
              parserutils_charset_mibenum_is_unicode t ust mib in
            let r0 :=
              iconv (write_cd cd (set_write_cd cd c (ic_cd cd r)))
                    (if unicode then ucs4_FFFD else ucs4_003F) destlen in
            let c0 :=
              set_write_cd cd (set_write_cd cd c (ic_cd cd r))
                           (ic_cd cd r0) in
            match ic_failed cd r0 with
            | Some E2BIG => Ret (PARSERUTILS_NOMEM, ust0, c0, ic_out cd r0)
            | Some EILSEQ => Abort
            | Some EINVAL => Abort
            | _ => Ret (PARSERUTILS_OK, ust0, c0, ic_out cd r0)
            end
        end
    | _ :: _ =>
        Ret (PARSERUTILS_OK, ust, set_write_cd cd c (ic_cd cd r),
             ic_out cd r)
    end = Ret (e, ust', c', w) ->
    (e = PARSERUTILS_OK \/ e = PARSERUTILS_NOMEM \/
     (e = PARSERUTILS_INVALID /\
      mode = Codec.PARSERUTILS_CHARSET_CODEC_ERROR_STRICT /\ w = [])) /\
    write_len cd c' = write_len cd c /\ write_buf cd c' = write_buf cd c).
  { destruct (ic_out cd r).
    - destruct mode.
      + intros [= <- _ <- <-]. cbn. auto 6.
      + destruct (parserutils_charset_mibenum_is_unicode t ust mib)
          as [ust0 unicode].
        cbv zeta.
        destruct (ic_failed cd (iconv _ _ _)) as [[]|];
          try discriminate; intros [= <- _ <- _]; cbn; auto.
      + destruct (parserutils_charset_mibenum_is_unicode t ust mib)
          as [ust0 unicode].
        cbv zeta.
        destruct (ic_failed cd (iconv _ _ _)) as [[]|];
          try discriminate; intros [= <- _ <- _]; cbn; auto.
    - intros [= <- _ <- _]. cbn. auto. }
  destruct (ic_failed cd r) as [[]|]; try discriminate; try exact Hrest.
  intros [= <- _ <- _]. cbn. auto.
Qed.

Lemma flush_write_codes n : forall k ust (c : iconv_codec cd) destlen
    written o ust' c' destlen' w,
  flush_write_buf cd iconv t mib mode n k ust c destlen written =
    Ret (o, ust', c', destlen', w) ->
  Z.to_nat (write_len cd c) = n ->
  match o with
  | Some e =>
      0 < write_len cd c' /\
      (e = PARSERUTILS_NOMEM \/
       (e = PARSERUTILS_INVALID /\
        mode = Codec.PARSERUTILS_CHARSET_CODEC_ERROR_STRICT))
  | None => write_len cd c' <= 0
  end.
Proof.
  induction n as [|n IH];
    intros k ust c destlen written o ust' c' destlen' w.
  - cbn. intros [= <- _ <- _ _] Hn. lia.
  - cbn [flush_write_buf].
    destruct (nth_error (write_buf cd c) k) as [u|]; [|discriminate].
    destruct (iconv_codec_write_char cd iconv t mib mode ust c u destlen)
      as [[[[e1 ust1] c1] w1]| | |] eqn:Ew; cbn [bind]; try discriminate.
    destruct (write_char_codes _ _ _ _ _ _ _ _ Ew) as (Hc & Hl & Hb).
    intros H Hn.
    destruct (negb (error_eqb e1 PARSERUTILS_OK)) eqn:En.
    + destruct (error_eqb e1 PARSERUTILS_INVALID) eqn:Ei.
      * destruct (shuffle_write _ k _) as [wb|]; [|discriminate].
        injection H as <- _ <- _ _. cbn [write_len set_write].
        split; [lia|].
        destruct Hc as [->|[->|(-> & Hm & _)]]; try discriminate; auto.
      * injection H as <- _ <- _ _.
        split; [lia|].
        destruct Hc as [->|[->|(-> & Hm & _)]]; try discriminate; auto.
    + apply IH in H; [exact H|]. cbn [write_len set_write]. lia.
Qed.

Lemma encode_loop_codes n : forall source ust (c : iconv_codec cd) destlen
    written e ust' c' s' w,
  (List.length source <= n)%nat ->
  encode_loop cd iconv t mib mode ust c source destlen written =
    Ret (e, ust', c', s', w) ->
  (e = PARSERUTILS_OK /\ s' = [] /\ write_len cd c' = write_len cd c) \/
  (e = PARSERUTILS_NOMEM /\ write_len cd c' = 1) \/
  (e = PARSERUTILS_INVALID /\
   mode = Codec.PARSERUTILS_CHARSET_CODEC_ERROR_STRICT /\
   write_len cd c' = 0).
Proof.
  induction n as [|n IH];
    intros source ust c destlen written e ust' c' s' w Hlen.
  - destruct source; [|cbn in Hlen; lia].
    cbn. intros [= <- _ <- <- _]. auto.
  - destruct source as [|b0 [|b1 [|b2 [|b3 rest]]]]; try discriminate.
    { cbn. intros [= <- _ <- <- _]. auto. }
    cbn [encode_loop].
    destruct (iconv_codec_write_char cd iconv t mib mode ust c
                [b0; b1; b2; b3] destlen)
      as [[[[e1 ust1] c1] w1]| | |] eqn:Ew; cbn [bind]; try discriminate.
    destruct (write_char_codes _ _ _ _ _ _ _ _ Ew) as (Hc & Hl & Hb).
    destruct (negb (error_eqb e1 PARSERUTILS_OK)) eqn:En.
    + destruct Hc as [->|[->|(-> & Hm & _)]]; [discriminate En| |];
        cbn; intros [= <- _ <- _ _]; cbn; auto.
    + intros H. apply IH in H; [|cbn in Hlen; lia].
      rewrite Hl in H. exact H.
Qed.

End IconvEncodeFacts.

(** X27. What [iconv_codec_encode] can return.  OK only with the whole
    input consumed; NOMEM only with at least one character kept in
    [write_buf] for the next call; INVALID only in Strict mode.  No other
    code is returned, so an encoder in Loose or Translit mode never
    reports an unrepresentable character. *)
Theorem iconv_encode_result_codes (cd : Type)
    (iconv : cd -> list Z -> Z -> iconv_return cd) (t : alias_tables)
    (mib : Z) (mode : Codec.parserutils_charset_codec_errormode)
    (ust : unicode_statics) (c : iconv_codec cd) (source : list Z)
    (destlen : Z) (e : parserutils_error) (ust' : unicode_statics)
    (c' : iconv_codec cd) (s' w : list Z) :
  iconv_codec_encode cd iconv t mib mode ust c source destlen =
    Ret (e, ust', c', s', w) ->
  (e = PARSERUTILS_OK /\ s' = []) \/
  (e = PARSERUTILS_NOMEM /\ 0 < write_len cd c') \/
  (e = PARSERUTILS_INVALID /\
   mode = Codec.PARSERUTILS_CHARSET_CODEC_ERROR_STRICT).
Proof.
  unfold iconv_codec_encode.
  destruct (flush_write_buf cd iconv t mib mode _ 0 ust c destlen [])
    as [[[[[o ust1] c1] dl1] w1]| | |] eqn:Ef; cbn [bind]; try discriminate.
  apply flush_write_codes in Ef; [|reflexivity].
  destruct o as [e1|].
  - intros [= <- _ <- _ _]. destruct Ef as [Hl [->|[-> Hm]]]; auto.
  - intros H.
    apply (encode_loop_codes cd iconv t mib mode (List.length source)) in H;
      [|lia].
    destruct H as [(-> & -> & _)|[(-> & Hl)|(-> & Hm & _)]]; auto.
    right. left. split; [reflexivity|lia].
Qed.

Lemma iconv_encode_result_codes_witness :
  exists c' s',
    iconv_codec_encode unit to_latin1_iconv unicode_tables 4
      Codec.PARSERUTILS_CHARSET_CODEC_ERROR_LOOSE unicode_statics_init
      (set_write unit fresh_iconv_codec [[0; 0; 0; 0x41]] 1)
      ([0; 0; 0; 0x42] ++ [0; 0; 0; 0x43] ++ [0; 0; 0; 0x44]) 2 =
    Ret (PARSERUTILS_NOMEM, unicode_statics_init, c', s', [0x41; 0x42]) /\
    s' = [0; 0; 0; 0x44] /\
    ((PARSERUTILS_NOMEM = PARSERUTILS_OK /\ s' = []) \/
     (PARSERUTILS_NOMEM = PARSERUTILS_NOMEM /\ 0 < write_len unit c') \/
     (PARSERUTILS_NOMEM = PARSERUTILS_INVALID /\
      Codec.PARSERUTILS_CHARSET_CODEC_ERROR_LOOSE =
        Codec.PARSERUTILS_CHARSET_CODEC_ERROR_STRICT)).
Proof.
  exists (set_write unit fresh_iconv_codec [[0; 0; 0; 0x43]] 1),
         [0; 0; 0; 0x44].
  split; [reflexivity|]. split; [reflexivity|].
  apply (iconv_encode_result_codes unit to_latin1_iconv unicode_tables 4
           Codec.PARSERUTILS_CHARSET_CODEC_ERROR_LOOSE unicode_statics_init
           (set_write unit fresh_iconv_codec [[0; 0; 0; 0x41]] 1)
           ([0; 0; 0; 0x42] ++ [0; 0; 0; 0x43] ++ [0; 0; 0; 0x44]) 2
           PARSERUTILS_NOMEM unicode_statics_init
           (set_write unit fresh_iconv_codec [[0; 0; 0; 0x43]] 1)
           [0; 0; 0; 0x44] [0x41; 0x42]).
  reflexivity.
Defined.

(** X28. No character is lost when the encoder's output buffer is full.
    If [iconv] reports E2BIG for a character of the input,
    [iconv_codec_encode] returns NOMEM with that character kept in
    [write_buf] and [*source] moved past it; the next call, once [iconv]
    accepts the character, writes it first and only then goes on with its
    own input. *)
Theorem iconv_encode_nomem_resumes (cd : Type)
    (iconv : cd -> list Z -> Z -> iconv_return cd) (t : alias_tables)
    (mib : Z) (mode : Codec.parserutils_charset_codec_errormode)
    (ust : unicode_statics) (c : iconv_codec cd)
    (b0 b1 b2 b3 : Z) (rest : list Z) (destlen : Z) :
  write_len cd c = 0 ->
  let ucs4 := [b0; b1; b2; b3] in
  let r := iconv (write_cd cd c) ucs4 destlen in
  ic_failed cd r = Some E2BIG ->
  let kept :=
    set_write cd (set_write_cd cd c (ic_cd cd r))
              (ucs4 :: tl (write_buf cd c)) 1 in
  iconv_codec_encode cd iconv t mib mode ust c (ucs4 ++ rest) destlen =
    Ret (PARSERUTILS_NOMEM, ust, kept, rest, ic_out cd r) /\
  forall ust2 source2 destlen2,
    let r2 := iconv (ic_cd cd r) ucs4 destlen2 in
    ic_failed cd r2 = None -> ic_out cd r2 <> [] ->
    iconv_codec_encode cd iconv t mib mode ust2 kept source2 destlen2 =
    encode_loop cd iconv t mib mode ust2
      (set_write cd (set_write_cd cd kept (ic_cd cd r2))
                 (ucs4 :: tl (write_buf cd c)) 0)
      source2 (destlen2 - Z.of_nat (List.length (ic_out cd r2)))
      (ic_out cd r2).
Proof.
  intros Hl ucs4 r Hf kept. split.
  - unfold iconv_codec_encode. rewrite Hl. cbn [Z.to_nat flush_write_buf bind].
    cbn [app ucs4 encode_loop]. unfold iconv_codec_write_char.
    fold ucs4 r. rewrite Hf. cbn [bind error_eqb negb].
    unfold WRITE_BUFSIZE. cbn [Z.leb Z.sub Z.compare Z.opp Z.add Z.pos_sub
                               app].
    reflexivity.
  - intros ust2 source2 destlen2 r2 Hf2 Ho2.
    unfold iconv_codec_encode, kept.
    cbn [write_len set_write set_write_cd write_buf write_cd].
    change (Z.to_nat 1) with 1%nat.
    cbn [flush_write_buf nth_error write_buf set_write set_write_cd].
    unfold iconv_codec_write_char.
    cbn [write_cd set_write set_write_cd]. fold r2. rewrite Hf2.
    destruct (ic_out cd r2) as [|o1 out] eqn:Eo; [congruence|].
    cbn [bind error_eqb negb write_len write_buf set_write set_write_cd
         Z.sub Z.add Z.opp Z.pos_sub app].
    reflexivity.
Qed.

(** X29. An unrepresentable character in Strict mode.  When [iconv]
    accepts a character of the input but writes nothing for it,
    [iconv_codec_encode] returns INVALID with [*source] moved past the
    character and nothing kept, so the next call goes on after it.  When
    the refused character is one that an earlier call had kept in
    [write_buf], the call returns INVALID with [*source] unmoved and the
    character still kept, so every later call meets it again. *)
Theorem iconv_encode_strict_invalid (cd : Type)
    (iconv : cd -> list Z -> Z -> iconv_return cd) (t : alias_tables)
    (mib : Z) (ust : unicode_statics) (c : iconv_codec cd)
    (ucs4 : list Z) (source : list Z) (destlen : Z) :
  List.length ucs4 = 4%nat ->
  let r := iconv (write_cd cd c) ucs4 destlen in
  ic_failed cd r = None -> ic_out cd r = [] ->
  (write_len cd c = 0 ->
   iconv_codec_encode cd iconv t mib
     Codec.PARSERUTILS_CHARSET_CODEC_ERROR_STRICT ust c (ucs4 ++ source)
     destlen =
   Ret (PARSERUTILS_INVALID, ust,
        set_write cd (set_write_cd cd c (ic_cd cd r)) (write_buf cd c) 0,
        source, [])) /\
  (write_len cd c = 1 -> hd_error (write_buf cd c) = Some ucs4 ->
   iconv_codec_encode cd iconv t mib
     Codec.PARSERUTILS_CHARSET_CODEC_ERROR_STRICT ust c source destlen =
   Ret (PARSERUTILS_INVALID, ust, set_write_cd cd c (ic_cd cd r), source,
        [])).
Proof.
  intros Hlen r Hf Ho. split.
  - intros Hl.
    destruct ucs4 as [|b0 [|b1 [|b2 [|b3 [|]]]]]; try discriminate Hlen.
    unfold iconv_codec_encode. rewrite Hl.
    cbn [Z.to_nat flush_write_buf bind app encode_loop].
    unfold iconv_codec_write_char. fold r. rewrite Hf, Ho.
    cbn [bind error_eqb negb]. unfold WRITE_BUFSIZE.
    cbn [Z.leb Z.sub Z.compare Z.opp Z.add Z.pos_sub app].
    reflexivity.
  - intros Hl Hb. unfold iconv_codec_encode. rewrite Hl.
    change (Z.to_nat 1) with 1%nat. cbn [flush_write_buf].
    destruct (write_buf cd c) as [|u wb] eqn:Ew; [discriminate Hb|].
    injection Hb as ->. cbn [nth_error].
    unfold iconv_codec_write_char. fold r. rewrite Hf, Ho.
    cbn [bind error_eqb negb write_len write_buf set_write_cd].
    rewrite Hl, Ew. unfold shuffle_write. cbn [Z.leb Z.compare].
    cbn [bind app List.length Z.of_nat]. rewrite Z.sub_0_r.
    unfold set_write, set_write_cd.
    cbn [read_cd inval_buf inval_len read_buf read_len write_cd write_buf
         write_len].
    rewrite Hl, Ew. reflexivity.
Qed.

Lemma iconv_encode_nomem_resumes_witness :
  iconv_codec_encode unit to_latin1_iconv unicode_tables 4
    Codec.PARSERUTILS_CHARSET_CODEC_ERROR_LOOSE unicode_statics_init
    fresh_iconv_codec ([0; 0; 0; 0x41] ++ [0; 0; 0; 0x42]) 0 =
  Ret (PARSERUTILS_NOMEM, unicode_statics_init,
       set_write unit fresh_iconv_codec [[0; 0; 0; 0x41]] 1,
       [0; 0; 0; 0x42], []).
Proof.
  refine (proj1 (iconv_encode_nomem_resumes unit to_latin1_iconv
                   unicode_tables 4
                   Codec.PARSERUTILS_CHARSET_CODEC_ERROR_LOOSE
                   unicode_statics_init fresh_iconv_codec 0 0 0 0x41
                   [0; 0; 0; 0x42] 0 _ _)).
  - reflexivity.
  - reflexivity.
Defined.

Lemma iconv_encode_strict_invalid_witness :
  iconv_codec_encode unit to_latin1_iconv unicode_tables 4
    Codec.PARSERUTILS_CHARSET_CODEC_ERROR_STRICT unicode_statics_init
    fresh_iconv_codec ([0; 0; 0x20; 0xAC] ++ [0; 0; 0; 0x42]) 16 =
  Ret (PARSERUTILS_INVALID, unicode_statics_init,
       set_write unit fresh_iconv_codec [] 0, [0; 0; 0; 0x42], []).
Proof.
  refine (proj1 (iconv_encode_strict_invalid unit to_latin1_iconv
                   unicode_tables 4 unicode_statics_init fresh_iconv_codec
                   [0; 0; 0x20; 0xAC] [0; 0; 0; 0x42] 16 _ _ _) _).
  - reflexivity.
  - reflexivity.
  - reflexivity.
  - reflexivity.
Defined.

(** X30. The replacement character of the encoder.  In Loose or Translit
    mode, when [iconv] accepts a character of the input but writes nothing
    for it, [iconv_codec_encode] asks
    [parserutils_charset_mibenum_is_unicode] about the codec's charset and
    converts U+FFFD in its place if the answer is yes and a question mark
    otherwise; what [iconv] writes for the replacement is the output, and
    the call goes on with the rest of the input. *)
Theorem iconv_encode_loose_replacement (cd : Type)
    (iconv : cd -> list Z -> Z -> iconv_return cd) (t : alias_tables)
    (mib : Z) (mode : Codec.parserutils_charset_codec_errormode)
    (ust : unicode_statics) (c : iconv_codec cd)
    (ucs4 : list Z) (source : list Z) (destlen : Z) :
  mode <> Codec.PARSERUTILS_CHARSET_CODEC_ERROR_STRICT ->
  write_len cd c = 0 -> List.length ucs4 = 4%nat ->
  let r := iconv (write_cd cd c) ucs4 destlen in
  ic_failed cd r = None -> ic_out cd r = [] ->
  let unicode := parserutils_charset_mibenum_is_unicode t ust mib in
  let r2 :=
    iconv (ic_cd cd r) (if snd unicode then ucs4_FFFD else ucs4_003F)
          destlen in
  ic_failed cd r2 = None ->
  iconv_codec_encode cd iconv t mib mode ust c (ucs4 ++ source) destlen =
  encode_loop cd iconv t mib mode (fst unicode)
    (set_write_cd cd c (ic_cd cd r2)) source
    (destlen - Z.of_nat (List.length (ic_out cd r2))) (ic_out cd r2).
Proof.
  intros Hm Hl Hlen r Hf Ho unicode r2. unfold r2, unicode.
  clear r2 unicode.
  destruct ucs4 as [|b0 [|b1 [|b2 [|b3 [|]]]]]; try discriminate Hlen.
  unfold iconv_codec_encode. rewrite Hl.
  cbn [Z.to_nat flush_write_buf bind app encode_loop].
  unfold iconv_codec_write_char. fold r. rewrite Hf, Ho.
  destruct (parserutils_charset_mibenum_is_unicode t ust mib)
    as [ust0 unicode0].
  cbn [fst snd write_cd set_write_cd]. intros Hf2.
  destruct mode; [congruence| |]; rewrite Hf2;
    cbn [bind error_eqb negb app]; reflexivity.
Qed.

Lemma iconv_encode_loose_replacement_witness :
  iconv_codec_encode unit to_latin1_iconv unicode_tables 4
    Codec.PARSERUTILS_CHARSET_CODEC_ERROR_LOOSE
    (fst (parserutils_charset_mibenum_is_unicode unicode_tables
            unicode_statics_init 4))
    fresh_iconv_codec ([0; 0; 0x20; 0xAC] ++ []) 16 =
  Ret (PARSERUTILS_OK,
       fst (parserutils_charset_mibenum_is_unicode unicode_tables
              unicode_statics_init 4),
       fresh_iconv_codec, [], [0x3F]).
Proof.
  refine (eq_trans
            (iconv_encode_loose_replacement unit to_latin1_iconv
               unicode_tables 4 Codec.PARSERUTILS_CHARSET_CODEC_ERROR_LOOSE
               (fst (parserutils_charset_mibenum_is_unicode unicode_tables
                       unicode_statics_init 4))
               fresh_iconv_codec [0; 0; 0x20; 0xAC] [] 16 _ _ _ _ _ _) _).
  - discriminate.
  - reflexivity.
  - reflexivity.
  - reflexivity.
  - reflexivity.
  - reflexivity.
  - reflexivity.
Defined.

(** ** The slow path of peek *)

Section PeekFacts.

Context {impl : Type}.
Variable t : alias_tables.
Variable grow : parserutils_buffer -> parserutils_error * parserutils_buffer.







End PeekFacts.




(** After a refill that produced nothing, here because the raw buffer
    held a byte order mark and no more, the slow path reads the byte
    behind the end of the data and returns its address with a length. *)
Example peek_slow_behind_data :
  exists w',
    parserutils_inputstream_peek unicode_tables no_grow one_byte_length 5
      (bom_statics_init,
       appended_stream 8192
         (mk_buffer 4096 ([0xEF; 0xBB; 0xBF] ++ repeat 0 13) 3)) 0 =
    Ret (8192, Stored 1, w') /\
    length (utf8 (snd w')) = 0.
Proof. eexists. split; vm_compute; reflexivity. Qed.

(** ** The charset a stream reports *)

Section CharsetFacts.

Context {impl : Type}.
Variable t : alias_tables.
Variable grow : parserutils_buffer -> parserutils_error * parserutils_buffer.
Variable charlen : list Z -> parserutils_error * Z.

(** What the first-chunk block leaves in [mibenum] and [encsrc]. *)
Lemma refill_first_chunk_pair (st st' : bom_statics)
    (s s' : parserutils_inputstream_private impl) o :
  refill_first_chunk t (st, s) = Ret (o, (st', s')) ->
  done_first_chunk s = false ->
  match csdetect s with
  | Some detect =>
      exists data len m src e,
        detect data len m src = (e, mibenum s', encsrc s')
  | None =>
      mibenum s' = mibenum_from_cstr t (chars "UTF-8") /\ encsrc s' = 0
  end.
Proof.
  unfold refill_first_chunk. intros H Hd. rewrite Hd in H.
  destruct (csdetect s) as [detect|] eqn:Ec.
  - destruct (detect (used (raw s)) (length (raw s)) (mibenum s) (encsrc s))
      as [[error mib] src] eqn:Edet.
    exists (used (raw s)), (length (raw s)), (mibenum s), (encsrc s), error.
    destruct (negb (error_eqb error PARSERUTILS_OK)).
    { injection H as _ _ <-. exact Edet. }
    destruct (mib =? 0); [discriminate|].
    destruct (parserutils_inputstream_strip_bom t st mib (raw s))
      as [st1 [error' raw']].
    destruct (negb (error_eqb error' PARSERUTILS_OK));
      injection H as _ _ <-; exact Edet.
  - cbn [negb error_eqb] in H.
    destruct (mibenum_from_cstr t (chars "UTF-8") =? 0); [discriminate|].
    destruct (parserutils_inputstream_strip_bom t st _ (raw s))
      as [st1 [error' raw']].
    destruct (negb (error_eqb error' PARSERUTILS_OK));
      injection H as _ _ <-; split; reflexivity.
Qed.

(** What a refill does to the fields of the charset. *)
Lemma refill_charset fuel (st st' : bom_statics)
    (s s' : parserutils_inputstream_private impl) e :
  parserutils_inputstream_refill_buffer t grow fuel (st, s) =
    Ret (e, (st', s')) ->
  csdetect s' = csdetect s /\
  (done_first_chunk s' = false -> done_first_chunk s = false) /\
  (done_first_chunk s = false ->
   match csdetect s with
   | Some detect =>
       exists data len m src e,
         detect data len m src = (e, mibenum s', encsrc s')
   | None =>
       mibenum s' = mibenum_from_cstr t (chars "UTF-8") /\ encsrc s' = 0
   end).
Proof.
  intros H.
  destruct (refill_fields _ _ _ _ _ _ _ _ H)
    as (o & st1 & s1 & E1 & _ & H2 & H3 & H4 & H5 & _).
  destruct (refill_first_chunk_fields _ _ _ _ _ _ E1)
    as (_ & G2 & _ & G4 & _).
  split; [congruence|]. split.
  - intros Hd. destruct (done_first_chunk s) eqn:Es; [|reflexivity].
    destruct (G4 eq_refl) as (_ & _ & ->). congruence.
  - intros Hd. pose proof (refill_first_chunk_pair _ _ _ _ _ E1 Hd) as Hp.
    rewrite H3, H4. exact Hp.
Qed.

Lemma peek_charset fuel (st st' : bom_statics)
    (s s' : parserutils_inputstream_private impl) offset p len :
  parserutils_inputstream_peek t grow charlen fuel (st, s) offset =
    Ret (p, len, (st', s')) ->
  s' = s \/
  exists e,
    parserutils_inputstream_refill_buffer t grow fuel (st, s) =
      Ret (e, (st', s')).
Proof.
  assert (Hslow : parserutils_inputstream_peek_slow t grow charlen fuel
                    (st, s) offset = Ret (p, len, (st', s')) ->
                  s' = s \/
                  exists e,
                    parserutils_inputstream_refill_buffer t grow fuel
                      (st, s) = Ret (e, (st', s'))).
  { unfold parserutils_inputstream_peek_slow. cbn [snd].
    destruct (length (raw s) =? 0); [intros [= _ _ _ <-]; now left|].
    destruct (parserutils_inputstream_refill_buffer t grow fuel (st, s))
      as [[e [st1 s1]]| | |] eqn:Er; cbn [bind]; try discriminate.
    cbn [snd]. intros H. right. exists e.
    assert (E : st1 = st' /\ s1 = s').
    { revert H.
      destruct (negb (error_eqb e PARSERUTILS_OK));
        [intros [= _ _ <- <-]; auto|].
      destruct (allocated (utf8 s1) <=? _); [discriminate|].
      destruct (IS_ASCII _); [intros [= _ _ <- <-]; auto|].
      destruct (charlen _) as [e2 l2].
      destruct (negb (error_eqb e2 PARSERUTILS_OK) && _);
        [intros [= _ _ <- <-]; auto|].
      destruct (error_eqb e2 PARSERUTILS_NEEDDATA);
        intros [= _ _ <- <-]; auto. }
    destruct E as [-> ->]. reflexivity. }
  unfold parserutils_inputstream_peek. cbn [snd].
  destruct (if size_t (cursor s + offset) <? length (utf8 s) then _ else _)
    as [e1 l1].
  destruct (negb (error_eqb e1 PARSERUTILS_OK) && _);
    [intros [= _ _ _ <-]; now left|].
  destruct (_ || _); [exact Hslow|intros [= _ _ _ <-]; now left].
Qed.

(** Before the first chunk is done, the pair stored in [mibenum] and
    [encsrc] is the one of the first state, or one left by the detection
    function, or the default written in its absence. *)
Lemma reached_charset (s0 : parserutils_inputstream_private impl)
    (w : world impl) :
  reached t grow charlen s0 w ->
  done_first_chunk s0 = false ->
  csdetect (snd w) = csdetect s0 /\
  (done_first_chunk (snd w) = false ->
   (mibenum (snd w) = mibenum s0 /\ encsrc (snd w) = encsrc s0) \/
   match csdetect s0 with
   | Some detect =>
       exists data len m src e,
         detect data len m src = (e, mibenum (snd w), encsrc (snd w))
   | None =>
       mibenum (snd w) = mibenum_from_cstr t (chars "UTF-8") /\
       encsrc (snd w) = 0
   end).
Proof.
  intros Hr H0.
  induction Hr as [st|w f d Hr IH|w f d Hr IH|w n s' Hr IH Ha
                  |w fuel off p len w' Hr IH Hp].
  - cbn. split; [reflexivity|]. intros _. left. split; reflexivity.
  - destruct IH as [Hc Hpair].
    unfold parserutils_inputstream_append.
    destruct d as [bytes|]; [destruct (f (raw (snd w)) bytes)|];
      cbn; split; auto.
  - destruct IH as [Hc Hpair].
    unfold parserutils_inputstream_insert.
    destruct d as [bytes|];
      [destruct (f (utf8 (snd w)) (cursor (snd w)) bytes)|];
      cbn; split; auto.
  - destruct IH as [Hc Hpair].
    unfold parserutils_inputstream_advance in Ha.
    destruct (_ <? n); [discriminate|].
    destruct (cursor (snd w) =? length (utf8 (snd w)));
      injection Ha as <-; cbn; split; auto.
  - destruct IH as [Hc Hpair]. destruct w as [st s], w' as [st' s'].
    cbn [snd] in *.
    destruct (peek_charset _ _ _ _ _ _ _ _ Hp) as [->|[e Er]];
      [split; auto|].
    destruct (refill_charset _ _ _ _ _ _ Er) as (Hcs & Hmono & Hnew).
    split; [congruence|].
    intros Hd. right. specialize (Hnew (Hmono Hd)).
    rewrite Hc in Hnew. exact Hnew.
Qed.

End CharsetFacts.

(** C9 (amended). [parserutils_inputstream_read_charset] writes the
    stored [encsrc] and reports UTF-8 when it is 0 and the canonical name
    of the stored [mibenum] otherwise.  In every state a created stream
    can be brought to before its first chunk has been processed, the
    stored pair is the one set at creation (0 and 0 without an encoding;
    the MIB enum and the caller's source for an encoding the alias table
    knows), or a pair the detection function has left, also when that
    function failed, or, without a detection function, the MIB enum of
    UTF-8 with source 0.  So a stream created without an encoding and
    without a detection function reports UTF-8 with source 0 all that
    time. *)
Theorem C9_read_charset_before_first_chunk {impl : Type}
    (handler_table : list (Codec.parserutils_charset_handler impl))
    (t : alias_tables)
    (grow : parserutils_buffer -> parserutils_error * parserutils_buffer)
    (charlen : list Z -> parserutils_error * Z)
    (enc : option (list Z)) (enc_src : Z)
    (detect : option parserutils_charset_detect_func)
    (stream_mem : bool) (raw_buf utf8_buf : option parserutils_buffer)
    (filter_mem : bool) (junk : Z)
    (s0 : parserutils_inputstream_private impl) (w : world impl) :
  parserutils_inputstream_create handler_table t enc enc_src detect
    stream_mem raw_buf utf8_buf filter_mem junk = Some s0 ->
  reached t grow charlen s0 w ->
  done_first_chunk (snd w) = false ->
  let s := snd w in
  parserutils_inputstream_read_charset t s =
    (if encsrc s =? 0 then Some (chars "UTF-8")
     else parserutils_charset_mibenum_to_name t (mibenum s), encsrc s) /\
  ((mibenum s = mibenum s0 /\ encsrc s = encsrc s0) \/
   match detect with
   | Some d =>
       exists data len m src e,
         d data len m src = (e, mibenum s, encsrc s)
   | None =>
       mibenum s = mibenum_from_cstr t (chars "UTF-8") /\ encsrc s = 0
   end) /\
  (enc = None -> mibenum s0 = 0 /\ encsrc s0 = 0) /\
  (forall e, enc = Some e -> mibenum_from_cstr t e <> 0 ->
     mibenum s0 = mibenum_from_cstr t e /\ encsrc s0 = enc_src) /\
  (enc = None -> detect = None ->
   parserutils_inputstream_read_charset t s = (Some (chars "UTF-8"), 0)).
Proof.
  intros Hc Hr Hd s.
  assert (Hcreate : done_first_chunk s0 = false /\ csdetect s0 = detect /\
            (enc = None -> mibenum s0 = 0 /\ encsrc s0 = 0) /\
            (forall e, enc = Some e -> mibenum_from_cstr t e <> 0 ->
               mibenum s0 = mibenum_from_cstr t e /\ encsrc s0 = enc_src)).
  { revert Hc. unfold parserutils_inputstream_create.
    destruct stream_mem; cbn [negb]; [|discriminate].
    destruct raw_buf as [rb|]; [|discriminate].
    destruct utf8_buf as [ub|]; [|discriminate].
    destruct (parserutils_filter_create handler_table t (chars "UTF-8")
                filter_mem) as [f|]; [|discriminate].
    destruct enc as [e|].
    - destruct (mibenum_from_cstr t e =? 0) eqn:E0; cbn [negb].
      + intros [= <-]. apply Z.eqb_eq in E0. cbn.
        split; [reflexivity|]. split; [reflexivity|].
        split; [discriminate|].
        intros e' [= <-] Hnz. contradiction.
      + destruct (parserutils_filter_setopt handler_table t f e)
          as [error f'].
        destruct (negb (error_eqb error PARSERUTILS_OK) &&
                  negb (error_eqb error PARSERUTILS_INVALID));
          [discriminate|].
        intros [= <-]. cbn.
        split; [reflexivity|]. split; [reflexivity|].
        split; [discriminate|].
        intros e' [= <-] _. split; reflexivity.
    - intros [= <-]. cbn.
      split; [reflexivity|]. split; [reflexivity|].
      split; [intros _; split; reflexivity|discriminate]. }
  destruct Hcreate as (H0 & Hdet & Hnone & Hsome).
  destruct (reached_charset t grow charlen s0 w Hr H0) as [_ Hpair].
  specialize (Hpair Hd). rewrite Hdet in Hpair. fold s in Hpair.
  split; [reflexivity|]. split; [exact Hpair|].
  split; [exact Hnone|]. split; [exact Hsome|].
  intros He Hn. unfold parserutils_inputstream_read_charset.
  destruct (Hnone He) as [_ Hs0]. rewrite Hn in Hpair.
  assert (Hz : encsrc s = 0) by (destruct Hpair as [[_ H]|[_ H]]; congruence).
  rewrite Hz. reflexivity.
Qed.

Lemma C9_witness :
  exists s0 w,
    parserutils_inputstream_create example_handlers unicode_tables None 0
      (Some failing_detect) true (Some fresh_raw) (Some fresh_utf8) true 0 =
      Some s0 /\
    parserutils_inputstream_peek unicode_tables no_grow one_byte_length 5
      (bom_statics_init,
       snd (parserutils_inputstream_append append_within s0 (Some [0x68])))
      0 = Ret (PARSERUTILS_INPUTSTREAM_OOD, NotStored, w) /\
    done_first_chunk (snd w) = false /\
    parserutils_inputstream_read_charset unicode_tables (snd w) =
      (Some (chars "ISO-8859-1"), 7).
Proof.
  destruct (parserutils_inputstream_create example_handlers unicode_tables
              None 0 (Some failing_detect) true (Some fresh_raw)
              (Some fresh_utf8) true 0) as [s0|] eqn:Ec;
    [|vm_compute in Ec; discriminate Ec].
  destruct (parserutils_inputstream_peek unicode_tables no_grow
              one_byte_length 5
              (bom_statics_init,
               snd (parserutils_inputstream_append append_within s0
                      (Some [0x68]))) 0) as [[[p len] w]| | |] eqn:Ep;
    try (vm_compute in Ec; injection Ec as <-; vm_compute in Ep;
         discriminate Ep).
  assert (Hw : p = PARSERUTILS_INPUTSTREAM_OOD /\ len = NotStored /\
               done_first_chunk (snd w) = false /\
               mibenum (snd w) = 4 /\ encsrc (snd w) = 7).
  { vm_compute in Ec. injection Ec as <-. vm_compute in Ep.
    injection Ep as <- <- <-. repeat split. }
  destruct Hw as (-> & -> & Hd & Hm & Hs).
  exists s0, w. split; [reflexivity|]. split; [exact Ep|].
  split; [exact Hd|].
  destruct (C9_read_charset_before_first_chunk example_handlers
              unicode_tables no_grow one_byte_length None 0
              (Some failing_detect) true (Some fresh_raw) (Some fresh_utf8)
              true 0 s0 w Ec) as (Hread & _).
  - apply (reached_peek unicode_tables no_grow one_byte_length s0
             (bom_statics_init,
              snd (parserutils_inputstream_append append_within s0
                     (Some [0x68])))
             5 0 PARSERUTILS_INPUTSTREAM_OOD NotStored w); [|exact Ep].
    apply (reached_append unicode_tables no_grow one_byte_length s0
             (bom_statics_init, s0) append_within (Some [0x68])).
    apply reached_created.
  - exact Hd.
  - rewrite Hread, Hm, Hs. reflexivity.
Defined.
